(** * Solasta Smart Scheduler: the orchestration core, embedded and verified

    A shallow embedding of the plan graph model ([app/schemas/models.py]),
    the capability gateway ([app/tools/registry.py]), the generation gateway
    ([app/cognitive/llm/provider.py]), the replanner
    ([app/cognitive/agents/replanner.py]) and the orchestrator
    ([app/orchestrator/engine.py]), followed by the properties the
    specification states about them. *)

From Stdlib Require Import ZArith String Ascii List Lia.
From stdpp Require Import base decidable option list gmap sets strings pretty.

Open Scope string_scope.
Open Scope Z_scope.
Open Scope list_scope.

(** Python's [int] is unbounded: [Z].  [datetime] values are clock readings. *)
Definition datetime := nat.

(** [Dict[str, Any]] payloads are opaque to the orchestrator; a payload is
    kept as its items, every value in its JSON text. *)
Definition Payload := list (string * string).

(* ================================================================= *)
(** ** Python values used across the modules *)

Module Py.

(** What the code observes of a raised exception: [type(e).__name__],
    [str(e)], [repr(e)] and the text [traceback.format_exception] renders.
    These are the exceptions an [except Exception] clause catches;
    cancellation and interpreter exit are not followed. *)
Record Exn := mkExn {
  exn_type : string;
  exn_str : string;
  exn_repr : string;
  exn_traceback : string;
}.

(** An exception built by the code itself, [Cls(msg)].  Its [repr] is
    rendered with single quotes (Python switches quotes when [msg] holds
    one); no modelled code reads it. *)
Definition new_exn (cls msg : string) : Exn :=
  {| exn_type := cls; exn_str := msg;
     exn_repr := cls +:+ "('" +:+ msg +:+ "')";
     exn_traceback := cls +:+ ": " +:+ msg |}.

(** [isinstance(e, asyncio.TimeoutError)], by class name. *)
Definition is_TimeoutError (e : Exn) : bool := String.eqb (exn_type e) "TimeoutError".

(** [str.upper] and [str.lower] on the ASCII letters. *)
Definition upper_ascii (c : ascii) : ascii :=
  let n := nat_of_ascii c in
  if (Nat.leb 97 n && Nat.leb n 122)%bool then ascii_of_nat (n - 32) else c.

Definition lower_ascii (c : ascii) : ascii :=
  let n := nat_of_ascii c in
  if (Nat.leb 65 n && Nat.leb n 90)%bool then ascii_of_nat (n + 32) else c.

Fixpoint upper (s : string) : string :=
  match s with
  | EmptyString => EmptyString
  | String c s' => String (upper_ascii c) (upper s')
  end.

Fixpoint lower (s : string) : string :=
  match s with
  | EmptyString => EmptyString
  | String c s' => String (lower_ascii c) (lower s')
  end.

(** [sub in s] *)
Fixpoint contains (sub s : string) : bool :=
  String.prefix sub s
  || match s with
     | EmptyString => false
     | String _ s' => contains sub s'
     end.

(** [s[:n]] *)
Definition take_str (n : nat) (s : string) : string := String.substring 0 n s.

(** [bool(s)] of a string. *)
Definition nonempty (s : string) : bool :=
  match s with EmptyString => false | _ => true end.

(** [", ".join(xs)] and the [repr] of a list of plain names. *)
Fixpoint join (sep : string) (xs : list string) : string :=
  match xs with
  | [] => EmptyString
  | [x] => x
  | x :: xs' => x +:+ sep +:+ join sep xs'
  end.

Definition repr_names (xs : list string) : string :=
  "[" +:+ join ", " ((λ x, "'" +:+ x +:+ "'") <$> xs) +:+ "]".

(** A [dict] with string keys, in insertion order: [d.get(k)], [d[k] = v]
    (an existing key keeps its place), [list(d.keys())]. *)
Fixpoint dict_get {V} (k : string) (d : list (string * V)) : option V :=
  match d with
  | [] => None
  | (k', v) :: d' => if String.eqb k k' then Some v else dict_get k d'
  end.

Fixpoint dict_set {V} (k : string) (v : V) (d : list (string * V)) : list (string * V) :=
  match d with
  | [] => [(k, v)]
  | (k', v') :: d' =>
      if String.eqb k k' then (k, v) :: d' else (k', v') :: dict_set k v d'
  end.

Definition dict_keys {V} (d : list (string * V)) : list string := fst <$> d.

(** [list(dict.fromkeys(xs))]: first occurrences, in order. *)
Fixpoint dedup_keep_first (seen xs : list string) : list string :=
  match xs with
  | [] => []
  | x :: xs' =>
      if bool_decide (x ∈ seen) then dedup_keep_first seen xs'
      else x :: dedup_keep_first (x :: seen) xs'
  end.

Definition fromkeys (xs : list string) : list string := dedup_keep_first [] xs.

End Py.
Export Py.

(* ================================================================= *)
(** ** Plan graph model ([app/schemas/models.py]) *)

Module Models.

Inductive GoalStatus :=
  RECEIVED | PLANNING | EXECUTING | PAUSED | GOAL_COMPLETED | GOAL_FAILED.

Inductive StepStatus :=
  PENDING | IN_PROGRESS | EVALUATING | COMPLETED | FAILED | SKIPPED | REPLANNED.

Inductive StepPriority := HIGH | MEDIUM | LOW.

Inductive EvalResult := SUCCESS | FAILURE | PARTIAL.

#[export] Instance GoalStatus_eq_dec : EqDecision GoalStatus.
Proof. solve_decision. Defined.
#[export] Instance StepStatus_eq_dec : EqDecision StepStatus.
Proof. solve_decision. Defined.
#[export] Instance StepPriority_eq_dec : EqDecision StepPriority.
Proof. solve_decision. Defined.
#[export] Instance EvalResult_eq_dec : EqDecision EvalResult.
Proof. solve_decision. Defined.

(** The [.value] of each enum member. *)
Definition GoalStatus_value (g : GoalStatus) : string :=
  match g with
  | RECEIVED => "received" | PLANNING => "planning" | EXECUTING => "executing"
  | PAUSED => "paused" | GOAL_COMPLETED => "completed" | GOAL_FAILED => "failed"
  end.

Definition StepStatus_value (s : StepStatus) : string :=
  match s with
  | PENDING => "pending" | IN_PROGRESS => "in_progress"
  | EVALUATING => "evaluating" | COMPLETED => "completed"
  | FAILED => "failed" | SKIPPED => "skipped" | REPLANNED => "replanned"
  end.

Definition StepPriority_value (p : StepPriority) : string :=
  match p with HIGH => "high" | MEDIUM => "medium" | LOW => "low" end.

(** [StepPriority(v)]: the member whose value is [v]; [None] stands for the
    [ValueError] Python raises on any other string. *)
Definition StepPriority_of_value (v : string) : option StepPriority :=
  if String.eqb v "high" then Some HIGH
  else if String.eqb v "medium" then Some MEDIUM
  else if String.eqb v "low" then Some LOW
  else None.

Record Goal := mkGoal {
  goal_id_of : string;           (* id *)
  user_id : string;
  raw_input : string;
  goal_status : GoalStatus;      (* status *)
  active_plan_id : option string;
}.

Record Step := mkStep {
  step_id : string;
  title : string;
  description : string;
  expected_outcome : string;
  thought_process : string;
  priority : StepPriority;
  depends_on : list string;
  required_tools : list string;
  status : StepStatus;
  result_payload : option Payload;
  error_message : option string;
  retry_count : Z;
  max_retries : Z;
  started_at : option datetime;
  completed_at : option datetime;
}.

Record Plan := mkPlan {
  plan_id : string;              (* id *)
  goal_id : string;
  version : Z;
  is_active : bool;
  steps : list Step;
  created_at : datetime;
}.

Record StepEvaluation := mkStepEvaluation {
  eval_step_id : string;
  result : EvalResult;
  reasoning : string;
  suggestions : list string;
}.

(** Attribute assignment [s.field = v] on a step. *)
Definition set_title (v : string) (s : Step) : Step :=
  mkStep (step_id s) v (description s) (expected_outcome s) (thought_process s)
    (priority s) (depends_on s) (required_tools s) (status s)
    (result_payload s) (error_message s) (retry_count s) (max_retries s)
    (started_at s) (completed_at s).

Definition set_description (v : string) (s : Step) : Step :=
  mkStep (step_id s) (title s) v (expected_outcome s) (thought_process s)
    (priority s) (depends_on s) (required_tools s) (status s)
    (result_payload s) (error_message s) (retry_count s) (max_retries s)
    (started_at s) (completed_at s).

Definition set_expected_outcome (v : string) (s : Step) : Step :=
  mkStep (step_id s) (title s) (description s) v (thought_process s) (priority s)
    (depends_on s) (required_tools s) (status s) (result_payload s)
    (error_message s) (retry_count s) (max_retries s) (started_at s)
    (completed_at s).

Definition set_thought_process (v : string) (s : Step) : Step :=
  mkStep (step_id s) (title s) (description s) (expected_outcome s) v (priority s)
    (depends_on s) (required_tools s) (status s) (result_payload s)
    (error_message s) (retry_count s) (max_retries s) (started_at s)
    (completed_at s).

Definition set_priority (v : StepPriority) (s : Step) : Step :=
  mkStep (step_id s) (title s) (description s) (expected_outcome s)
    (thought_process s) v (depends_on s) (required_tools s) (status s)
    (result_payload s) (error_message s) (retry_count s) (max_retries s)
    (started_at s) (completed_at s).

Definition set_depends_on (v : list string) (s : Step) : Step :=
  mkStep (step_id s) (title s) (description s) (expected_outcome s)
    (thought_process s) (priority s) v (required_tools s) (status s)
    (result_payload s) (error_message s) (retry_count s) (max_retries s)
    (started_at s) (completed_at s).

Definition set_required_tools (v : list string) (s : Step) : Step :=
  mkStep (step_id s) (title s) (description s) (expected_outcome s)
    (thought_process s) (priority s) (depends_on s) v (status s)
    (result_payload s) (error_message s) (retry_count s) (max_retries s)
    (started_at s) (completed_at s).

Definition set_status (v : StepStatus) (s : Step) : Step :=
  mkStep (step_id s) (title s) (description s) (expected_outcome s)
    (thought_process s) (priority s) (depends_on s) (required_tools s) v
    (result_payload s) (error_message s) (retry_count s) (max_retries s)
    (started_at s) (completed_at s).

Definition set_result_payload (v : option Payload) (s : Step) : Step :=
  mkStep (step_id s) (title s) (description s) (expected_outcome s)
    (thought_process s) (priority s) (depends_on s) (required_tools s)
    (status s) v (error_message s) (retry_count s) (max_retries s)
    (started_at s) (completed_at s).

Definition set_error_message (v : option string) (s : Step) : Step :=
  mkStep (step_id s) (title s) (description s) (expected_outcome s)
    (thought_process s) (priority s) (depends_on s) (required_tools s)
    (status s) (result_payload s) v (retry_count s) (max_retries s)
    (started_at s) (completed_at s).

Definition set_retry_count (v : Z) (s : Step) : Step :=
  mkStep (step_id s) (title s) (description s) (expected_outcome s)
    (thought_process s) (priority s) (depends_on s) (required_tools s)
    (status s) (result_payload s) (error_message s) v (max_retries s)
    (started_at s) (completed_at s).

Definition set_started_at (v : option datetime) (s : Step) : Step :=
  mkStep (step_id s) (title s) (description s) (expected_outcome s)
    (thought_process s) (priority s) (depends_on s) (required_tools s)
    (status s) (result_payload s) (error_message s) (retry_count s)
    (max_retries s) v (completed_at s).

Definition set_completed_at (v : option datetime) (s : Step) : Step :=
  mkStep (step_id s) (title s) (description s) (expected_outcome s)
    (thought_process s) (priority s) (depends_on s) (required_tools s)
    (status s) (result_payload s) (error_message s) (retry_count s)
    (max_retries s) (started_at s) v.

(** Keyword arguments of [Step(...)].  The callers modelled always pass
    [step_id]; [None] is a keyword left out. *)
Record StepArgs := mkStepArgs {
  arg_step_id : string;
  arg_title : option string;
  arg_description : option string;
  arg_expected_outcome : option string;
  arg_thought_process : option string;
  arg_priority : option StepPriority;
  arg_depends_on : option (list string);
  arg_required_tools : option (list string);
  arg_status : option StepStatus;
}.

(** Names of the required fields ([title], [description],
    [expected_outcome] have no default) that a call leaves out. *)
Definition missing_fields (a : StepArgs) : list string :=
  (if arg_title a is None then ["title"] else [])
  ++ (if arg_description a is None then ["description"] else [])
  ++ (if arg_expected_outcome a is None then ["expected_outcome"] else []).

(** pydantic's [ValidationError] for missing required fields; the message
    lists them (pydantic's own wording is longer). *)
Definition ValidationError (model : string) (missing : list string) : Exn :=
  new_exn "ValidationError"
    ("validation errors for " +:+ model +:+ ": " +:+ join ", " missing
     +:+ ": Field required").

(** [Step(...)]: the model validates its fields, fills the defaults of the
    class, and raises [ValidationError] when a required field is absent. *)
Definition Step_init (a : StepArgs) : Exn + Step :=
  match arg_title a, arg_description a, arg_expected_outcome a with
  | Some t, Some d, Some e =>
      inr {| step_id := arg_step_id a; title := t; description := d;
             expected_outcome := e;
             thought_process := default EmptyString (arg_thought_process a);
             priority := default MEDIUM (arg_priority a);
             depends_on := default [] (arg_depends_on a);
             required_tools := default [] (arg_required_tools a);
             status := default PENDING (arg_status a);
             result_payload := None; error_message := None;
             retry_count := 0; max_retries := 3;
             started_at := None; completed_at := None |}
  | _, _, _ => inl (ValidationError "Step" (missing_fields a))
  end.

(** [s.status in (StepStatus.COMPLETED, StepStatus.SKIPPED)] *)
Definition status_settled (st : StepStatus) : bool :=
  match st with COMPLETED | SKIPPED => true | _ => false end.

(** The set comprehension at the head of [Plan.get_ready_steps]. *)
Definition completed_ids (p : Plan) : gset string :=
  list_to_set (step_id <$> filter (λ s, status_settled (status s) = true) (steps p)).

Definition is_ready (ids : gset string) (s : Step) : bool :=
  bool_decide (status s = PENDING)
  && forallb (λ dep, bool_decide (dep ∈ ids)) (depends_on s).

Definition get_ready_steps (p : Plan) : list Step :=
  let completed_ids := completed_ids p in
  filter (λ s, is_ready completed_ids s = true) (steps p).

Definition is_complete (p : Plan) : bool :=
  forallb (λ s, status_settled (status s)) (steps p).

Definition has_failed_steps (p : Plan) : bool :=
  existsb (λ s, bool_decide (status s = FAILED)) (steps p).

End Models.
Export Models.

(* ================================================================= *)
(** ** Capability gateway ([app/tools/registry.py]) *)

Module Registry.

(** What awaiting the handler under [asyncio.wait_for(run(), 15.0)] can do:
    return, outlive the deadline, or raise. *)
Inductive HandlerOutcome :=
| Returns (value : Payload)
| Hangs
| Raises (e : Exn).

Record Tool := mkTool {
  tool_name : string;
  tool_description : string;
  handler : Payload → HandlerOutcome;
  parameters : list (string * string);
}.

(** [_TOOL_REGISTRY], a dict in insertion order. *)
Definition ToolRegistry := list (string * Tool).

(** The payload dict carried by [ToolExecutionError]; [ErrorResponse] in
    [models.py] has the same shape. *)
Record ErrorPayload := mkErrorPayload {
  error_code : string;
  component : string;
  trace : string;
  agent_recovery_action : string;
}.

(** The two exception classes [execute_tool] raises. *)
Inductive ToolFailure :=
| ValueError (message : string)
| ToolExecutionError (message : string) (payload : ErrorPayload).

Definition register_tool (name description : string)
    (h : Payload → HandlerOutcome) (params : option (list (string * string)))
    (reg : ToolRegistry) : ToolRegistry :=
  dict_set name (mkTool name description h (default [] params)) reg.

Definition get_tool_by_name (reg : ToolRegistry) (name : string) : option Tool :=
  dict_get name reg.

Definition list_tool_names (reg : ToolRegistry) : list string := dict_keys reg.

(** [f"{TOOL_TIMEOUT}"] for [TOOL_TIMEOUT = 15.0]. *)
Definition TOOL_TIMEOUT : string := "15.0".

Definition timeout_failure (name : string) : ToolFailure :=
  let error_msg :=
    "Tool '" +:+ name +:+ "' timed out after " +:+ TOOL_TIMEOUT +:+ " seconds" in
  ToolExecutionError error_msg
    {| error_code := "TOOL_TIMEOUT";
       component := "Tool_" +:+ name;
       trace := error_msg;
       agent_recovery_action := "Switch to alternative tool or replan" |}.

Definition execution_failure (name : string) (e : Exn) : ToolFailure :=
  ToolExecutionError (exn_str e)
    {| error_code := "TOOL_EXECUTION_ERROR";
       component := "Tool_" +:+ name;
       trace := exn_traceback e;
       agent_recovery_action := "Replanner must generate alternative action." |}.

Definition execute_tool (reg : ToolRegistry) (name : string) (params : Payload)
  : ToolFailure + Payload :=
  match dict_get name reg with
  | None =>
      inl (ValueError ("Tool '" +:+ name +:+ "' not found in registry. Available: "
                       +:+ repr_names (list_tool_names reg)))
  | Some tool =>
      match handler tool params with
      | Returns value => inr value
      | Hangs => inl (timeout_failure name)
      | Raises e =>
          if is_TimeoutError e then inl (timeout_failure name)
          else inl (execution_failure name e)
      end
  end.

(** [str(err)] *)
Definition failure_str (f : ToolFailure) : string :=
  match f with ValueError m => m | ToolExecutionError m _ => m end.

(** [err.payload], present on [ToolExecutionError] only. *)
Definition failure_payload (f : ToolFailure) : option ErrorPayload :=
  match f with ValueError _ => None | ToolExecutionError _ p => Some p end.

(** [ExecutorAgent._normalize_tool_error] ([executor.py]): what the executor
    hands to the evaluator and the replanner for a failed tool call. *)
Definition _normalize_tool_error (err : ToolFailure) : ErrorPayload :=
  match err with
  | ToolExecutionError _ payload => payload
  | ValueError _ =>
      {| error_code := "TOOL_EXECUTION_ERROR";
         component := "Tool_Unknown";
         trace := failure_str err;
         agent_recovery_action := "Replanner must inspect failure and adapt plan." |}
  end.

End Registry.

(* ================================================================= *)
(** ** Configuration and wire records
       ([app/core/config.py], [app/schemas/models.py]) *)

Module Config.

Inductive LLMProvider := OLLAMA | GEMINI | OPENAI.

#[export] Instance LLMProvider_eq_dec : EqDecision LLMProvider.
Proof. solve_decision. Defined.

Definition LLMProvider_value (p : LLMProvider) : string :=
  match p with OLLAMA => "ollama" | GEMINI => "gemini" | OPENAI => "openai" end.

Record Settings := mkSettings {
  ollama_model : string;
  gemini_model : string;
  openai_model : string;
  llm_primary_provider : LLMProvider;
  llm_fallback_provider : LLMProvider;
  llm_tertiary_provider : LLMProvider;
  llm_timeout_seconds : Z;
}.

(** The defaults of [class Settings]. *)
Definition default_settings : Settings :=
  {| ollama_model := "llama3"; gemini_model := "gemini-2.0-flash";
     openai_model := "gpt-4o-mini";
     llm_primary_provider := OLLAMA; llm_fallback_provider := GEMINI;
     llm_tertiary_provider := OPENAI; llm_timeout_seconds := 30 |}.

End Config.
Export Config.

Module Wire.

Record AgentLog := mkAgentLog {
  log_id : string;
  log_goal_id : string;
  log_plan_id : option string;
  log_step_id : option string;
  agent_type : string;
  provider : string;
  model : string;
  prompt_summary : string;
  response_summary : string;
  tokens_in : Z;
  tokens_out : Z;
  latency_ms : Z;
  error : option string;
  log_timestamp : datetime;
}.

(** The values the orchestrator puts in an event's [data] dict. *)
Inductive EventValue :=
| VStr (s : string)
| VInt (n : Z)
| VSteps (dump : list Step).

Record StreamEvent := mkStreamEvent {
  event_type : string;
  event_goal_id : string;
  data : list (string * EventValue);
  timestamp : datetime;
}.

(** The chat model's reply: [response.content] and [response.usage_metadata]. *)
Record LLMResponse := mkLLMResponse {
  content : string;
  usage_metadata : option (list (string * Z));
}.

(** Keyword updates passed to [StepRepository.update_step_in_plan]. *)
Inductive StepUpdate :=
| UStatus (s : StepStatus)
| UStartedAt (t : option datetime)
| UCompletedAt (t : option datetime)
| UResultPayload (p : Payload)
| UErrorMessage (m : string)
| URetryCount (n : Z).

(** Calls on the persistence port ([app/db/repository.py]). *)
Inductive DbOp :=
| GoalUpdateStatus (goal : string) (s : GoalStatus) (active_plan : option string)
| PlanCreate (p : Plan)
| PlanUpdate (p : Plan)
| PlanDeactivateForGoal (goal : string)
| StepUpdateInPlan (plan step : string) (updates : list StepUpdate)
| AgentLogAppend (l : AgentLog)
| MemoryStore (goal summary : string) (plan_versions : Z) (steps_completed : nat).

(** Everything the modelled code does to the outside, in program order. *)
Inductive Effect :=
| Sleep (seconds : Z)                          (* asyncio.sleep *)
| LLMInvoke (p : LLMProvider) (attempt : Z)    (* llm.ainvoke under wait_for *)
| PlannerCall (goal : string)
| ExecutorCall (step : string)
| EvaluatorCall (step : string)
| Log (level event detail : string)            (* structlog *)
| Broadcast (e : StreamEvent)                  (* entry of _broadcast *)
| Deliver (listener : nat) (e : StreamEvent)   (* listener(event) *)
| Db (op : DbOp).

End Wire.
Export Wire.

(* ================================================================= *)
(** ** The process state and the effect monad *)

Module Runtime.

(** Mutable state of the process: the effect history, the append-only
    [agent_logs] table, the rows of the [goals] table (a goal is stored
    under its own [id]), the orchestrator's [_event_listeners], the
    gateway's [_providers] cache, and the counters that index the clock,
    the identifier source and the external oracles. *)
Record World := mkWorld {
  history : list Effect;
  agent_logs : list AgentLog;
  goals : list Goal;
  event_listeners : list nat;
  providers : list LLMProvider;
  clock : nat;
  uuids : nat;
  ticks : nat;
}.

Definition initial_world : World :=
  {| history := []; agent_logs := []; goals := []; event_listeners := [];
     providers := []; clock := 0%nat; uuids := 0%nat; ticks := 0%nat |}.

(** A coroutine of the program: it runs from a state, returns or raises, and
    leaves a state.  What was done before an exception stays done. *)
Definition M (A : Type) : Type := World → (Exn + A) * World.

Definition ret {A} (a : A) : M A := λ w, (inr a, w).

Definition bind {A B} (m : M A) (k : A → M B) : M B :=
  λ w, match m w with
       | (inr a, w') => k a w'
       | (inl e, w') => (inl e, w')
       end.

Definition raise {A} (e : Exn) : M A := λ w, (inl e, w).

(** [try: m  except Exception as e: h e] *)
Definition try_except {A} (m : M A) (h : Exn → M A) : M A :=
  λ w, match m w with
       | (inr a, w') => (inr a, w')
       | (inl e, w') => h e w'
       end.

(** The monad structure, through stdpp's classes: [x ← m; k] and [m;; k]. *)
#[export] Instance M_ret : MRet M := @ret.
#[export] Instance M_bind : MBind M := λ A B k m, bind m k.

Definition emit (e : Effect) : M unit :=
  λ w, (inr tt,
        {| history := history w ++ [e]; agent_logs := agent_logs w;
           goals := goals w; event_listeners := event_listeners w;
           providers := providers w; clock := clock w; uuids := uuids w;
           ticks := ticks w |}).

(** [datetime.utcnow()] *)
Definition utcnow : M datetime :=
  λ w, (inr (clock w),
        {| history := history w; agent_logs := agent_logs w;
           goals := goals w; event_listeners := event_listeners w;
           providers := providers w; clock := S (clock w); uuids := uuids w;
           ticks := ticks w |}).

(** Position of the next consultation of an external party. *)
Definition tick : M nat :=
  λ w, (inr (ticks w),
        {| history := history w; agent_logs := agent_logs w;
           goals := goals w; event_listeners := event_listeners w;
           providers := providers w; clock := clock w; uuids := uuids w;
           ticks := S (ticks w) |}).

(** Position of the next [uuid4()]. *)
Definition draw_uuid : M nat :=
  λ w, (inr (uuids w),
        {| history := history w; agent_logs := agent_logs w;
           goals := goals w; event_listeners := event_listeners w;
           providers := providers w; clock := clock w; uuids := S (uuids w);
           ticks := ticks w |}).

Definition set_event_listeners (ls : list nat) : M unit :=
  λ w, (inr tt,
        {| history := history w; agent_logs := agent_logs w;
           goals := goals w; event_listeners := ls; providers := providers w;
           clock := clock w; uuids := uuids w; ticks := ticks w |}).

Definition get_event_listeners : M (list nat) := λ w, (inr (event_listeners w), w).

Definition get_providers : M (list LLMProvider) := λ w, (inr (providers w), w).

Definition get_goals : M (list Goal) := λ w, (inr (goals w), w).

Definition get_ticks : M nat := λ w, (inr (ticks w), w).

Definition cache_provider (p : LLMProvider) : M unit :=
  λ w, (inr tt,
        {| history := history w; agent_logs := agent_logs w;
           goals := goals w; event_listeners := event_listeners w;
           providers := p :: providers w; clock := clock w; uuids := uuids w;
           ticks := ticks w |}).

Definition set_goals (gs : list Goal) : M unit :=
  λ w, (inr tt,
        {| history := history w; agent_logs := agent_logs w; goals := gs;
           event_listeners := event_listeners w; providers := providers w;
           clock := clock w; uuids := uuids w; ticks := ticks w |}).

(** [AgentLogRepository.append] *)
Definition agent_log_append (l : AgentLog) : M unit :=
  λ w, (inr tt,
        {| history := history w ++ [Db (AgentLogAppend l)];
           agent_logs := agent_logs w ++ [l]; goals := goals w;
           event_listeners := event_listeners w; providers := providers w;
           clock := clock w; uuids := uuids w; ticks := ticks w |}).

Definition sleep (seconds : Z) : M unit := emit (Sleep seconds).
Definition log (level event detail : string) : M unit := emit (Log level event detail).
Definition db (op : DbOp) : M unit := emit (Db op).

(** [for x in xs: body x], with the loop state [acc] passed along. *)
Fixpoint for_each {A S} (xs : list A) (body : A → S → M S) (acc : S) : M S :=
  match xs with
  | [] => ret acc
  | x :: xs' => acc' ← body x acc; for_each xs' body acc'
  end.

(** What a delivery to a listener does besides receiving the event: the
    registrations and removals that reach [_event_listeners] while the
    listener holds the event, and the exception it raises, if any. *)
Inductive RegistryOp := AddListener (l : nat) | RemoveListener (l : nat).

Record ListenerRun := mkListenerRun {
  registry_ops : list RegistryOp;
  fault : option Exn;
}.

(** The replanner's JSON object once decoded; a key left out is [None]. *)
Record ModifiedStep := mkModifiedStep {
  ms_step_id : option string;
  ms_title : option string;
  ms_description : option string;
  ms_expected_outcome : option string;
  ms_thought_process : option string;
  ms_priority : option string;
  ms_depends_on : option (list string);
  ms_required_tools : option (list string);
  ms_is_new : option bool;
}.

Record ReplanData := mkReplanData {
  strategy : option string;
  modified_steps : option (list ModifiedStep);
}.

(** The external parties.  The numeric argument is the position of the
    consultation, so that a party may answer differently each time. *)
Record Env := mkEnv {
  settings : Settings;
  uuid4 : nat → string;
  _create_provider : LLMProvider → option Exn;
  ainvoke : nat → LLMProvider → string → string → Exn + LLMResponse;
  perf_counter_ms : nat → Z;   (* [perf_counter() - start], by the position reached *)
  json_loads : string → option ReplanData;
  replanner_prompt : Plan → Step → StepEvaluation → Payload → string;
  create_plan : nat → string → string → Exn + Plan;
  execute_step : nat → Step → string → string → list (string * Payload) → string
                 → Exn + Payload;
  evaluate : nat → Step → Payload → string → string → Exn + StepEvaluation;
  listener_run : nat → StreamEvent → ListenerRun;
}.

Section Constructors.
Context (env : Env).

(** [AgentLog(...)]: the identifier and the timestamp come from the field
    defaults. *)
Definition new_agent_log (goal_id agent_type provider model prompt_summary
    response_summary : string) (tokens_in tokens_out latency_ms : Z)
    (error : option string) : M AgentLog :=
  i ← draw_uuid;
  now ← utcnow;
  mret {| log_id := uuid4 env i; log_goal_id := goal_id;
          log_plan_id := None; log_step_id := None;
          agent_type := agent_type; provider := provider; model := model;
          prompt_summary := prompt_summary; response_summary := response_summary;
          tokens_in := tokens_in; tokens_out := tokens_out;
          latency_ms := latency_ms; error := error; log_timestamp := now |}.

(** [Plan(goal_id=..., version=..., is_active=..., steps=...)] *)
Definition Plan_init (goal_id : string) (version : Z) (is_active : bool)
    (steps : list Step) : M Plan :=
  u ← draw_uuid;
  now ← utcnow;
  mret {| plan_id := uuid4 env u; goal_id := goal_id; version := version;
          is_active := is_active; steps := steps; created_at := now |}.

(** [StreamEvent(event_type=..., goal_id=..., data=...)] *)
Definition StreamEvent_init (event_type goal_id : string)
    (data : list (string * EventValue)) : M StreamEvent :=
  now ← utcnow;
  mret {| event_type := event_type; event_goal_id := goal_id; data := data;
          timestamp := now |}.

End Constructors.

(** An awaited call on an external party: its value, or its exception. *)
Definition lift {A} (r : Exn + A) : M A :=
  match r with inl e => raise e | inr a => mret a end.

End Runtime.
Export Runtime.

(* ================================================================= *)
(** ** Generation gateway ([app/cognitive/llm/provider.py]) *)

Module Gateway.
Section WithEnv.
Context (env : Env).

(** [LLMGateway.__init__] *)
Definition _fallback_chain : list LLMProvider :=
  [ llm_primary_provider (settings env);
    llm_fallback_provider (settings env);
    llm_tertiary_provider (settings env) ].

Definition _get_or_create (provider : LLMProvider) : M unit :=
  cached ← get_providers;
  if bool_decide (provider ∈ cached) then mret tt
  else match _create_provider env provider with
       | Some e => raise e
       | None => cache_provider provider
       end.

Definition _get_model_name (provider : LLMProvider) : string :=
  match provider with
  | OLLAMA => ollama_model (settings env)
  | GEMINI => gemini_model (settings env)
  | OPENAI => openai_model (settings env)
  end.

(** The test on [err_str = str(invoke_err).lower()]. *)
Definition rate_limited (invoke_err : Exn) : bool :=
  let err_str := lower (exn_str invoke_err) in
  contains "429" err_str
  || contains "resourceexhausted" err_str
  || contains "too many requests" err_str.

(** [max_retries = 3], local to [generate]. *)
Definition invoke_max_retries : Z := 3.

(** [range(n)] *)
Definition range (n : Z) : list Z := Z.of_nat <$> seq 0 (Z.to_nat n).

(** The inner [for attempt in range(max_retries)] loop over the attempts
    still to run.  [None] is the initial [response = None], left in place
    only if the loop body never runs. *)
Fixpoint invoke_with_retry (provider : LLMProvider) (system prompt : string)
    (attempts : list Z) : M (option LLMResponse) :=
  match attempts with
  | [] => mret None
  | attempt :: rest =>
      n ← tick;
      emit (LLMInvoke provider attempt);;
      match ainvoke env n provider system prompt with
      | inr response => mret (Some response)
      | inl invoke_err =>
          if rate_limited invoke_err then
            if attempt <? invoke_max_retries - 1 then
              let delay_time := 5 * (attempt + 1) in
              log "warning" "rate_limit_hit" (LLMProvider_value provider);;
              sleep delay_time;;
              invoke_with_retry provider system prompt rest
            else raise invoke_err
          else raise invoke_err
      end
  end.

(** [response.usage_metadata.get(key, 0) if ... else 0] *)
Definition usage (response : option LLMResponse) (key : string) : Z :=
  match response with
  | Some r =>
      match usage_metadata r with
      | Some (_ :: _ as d) => default 0 (dict_get key d)
      | _ => 0
      end
  | None => 0
  end.

(** The body of the [try] for one provider of the chain. *)
Definition try_provider (provider : LLMProvider)
    (prompt system goal_id agent_type : string) : M (string * AgentLog) :=
  _get_or_create provider;;
  (if bool_decide (provider = GEMINI) then sleep 4 else mret tt);;
  response ← invoke_with_retry provider system prompt (range invoke_max_retries);
  finish ← get_ticks;
  let latency := perf_counter_ms env finish in
  let text := match response with Some r => content r | None => "None" end in
  l ← new_agent_log env goal_id agent_type (LLMProvider_value provider)
        (_get_model_name provider) (take_str 200 prompt) (take_str 300 text)
        (usage response "input_tokens") (usage response "output_tokens")
        latency None;
  log "info" "llm_success" (LLMProvider_value provider);;
  mret (text, l).

(** What follows the provider loop when no provider returned. *)
Definition all_providers_failed (last_error : option Exn)
    (prompt goal_id agent_type : string) : M (string * AgentLog) :=
  let error_detail :=
    match last_error with
    | Some e => if nonempty (exn_str e) then exn_str e else exn_repr e
    | None => "None"
    end in
  let error_msg := "All LLM providers failed. Last error: " +:+ error_detail in
  log "error" "llm_all_providers_failed" error_msg;;
  _unused_log ← new_agent_log env goal_id agent_type "none" "none"
                   (take_str 200 prompt) EmptyString 0 0 0 (Some error_msg);
  raise (new_exn "RuntimeError" error_msg).

(** [for provider in self._fallback_chain], from the providers still to try. *)
Fixpoint generate_from (chain : list LLMProvider) (last_error : option Exn)
    (prompt system goal_id agent_type : string) : M (string * AgentLog) :=
  match chain with
  | [] => all_providers_failed last_error prompt goal_id agent_type
  | provider :: rest =>
      try_except (try_provider provider prompt system goal_id agent_type)
        (λ e,
           let error_str := if nonempty (exn_str e) then exn_str e else exn_repr e in
           log "warning" "llm_provider_failed"
               (LLMProvider_value provider +:+ ": " +:+ error_str);;
           generate_from rest (Some e) prompt system goal_id agent_type)
  end.

Definition generate (prompt system goal_id agent_type : string)
  : M (string * AgentLog) :=
  generate_from _fallback_chain None prompt system goal_id agent_type.

End WithEnv.
End Gateway.


(* ================================================================= *)
(** ** Replanner ([app/cognitive/agents/replanner.py]) *)

Module Replanner.
Section WithEnv.
Context (env : Env).

(** Opening line of the system prompt; the rest of the text is not read by
    any code. *)
Definition REPLANNER_SYSTEM_PROMPT : string :=
  "You are the Replanner Agent for a Smart Study Schedule system.".

(** [_parse_replan_response].  [json_loads] stands for [json.loads] applied
    to the text rid of its code fence; it is [None] on [JSONDecodeError]. *)
Definition _parse_replan_response (text : string) : ReplanData :=
  match json_loads env text with
  | Some d => d
  | None => {| strategy := Some "retry"; modified_steps := Some [] |}
  end.

(** [StepPriority(v)] *)
Definition StepPriority_call (v : string) : Exn + StepPriority :=
  match StepPriority_of_value v with
  | Some p => inr p
  | None => inl (new_exn "ValueError" ("'" +:+ v +:+ "' is not a valid StepPriority"))
  end.

(** The dict comprehension [modified_by_id]: entries with a non-empty
    [step_id] and no [is_new]; a later entry replaces an earlier one. *)
Definition modified_by_id (modified_steps : list ModifiedStep)
  : list (string * ModifiedStep) :=
  foldl (λ d ms,
           match ms_step_id ms with
           | Some id =>
               if nonempty id && negb (default false (ms_is_new ms))
               then dict_set id ms d else d
           | None => d
           end) [] modified_steps.

(** The edits of one modified entry applied to a copy. *)
Definition apply_edit (ms : ModifiedStep) (step_copy : Step) : Exn + Step :=
  match StepPriority_call
          (default (StepPriority_value (priority step_copy)) (ms_priority ms)) with
  | inl e => inl e
  | inr prio =>
      inr (set_required_tools (default (required_tools step_copy) (ms_required_tools ms))
          (set_depends_on (default (depends_on step_copy) (ms_depends_on ms))
          (set_priority prio
          (set_thought_process (default (thought_process step_copy) (ms_thought_process ms))
          (set_expected_outcome (default (expected_outcome step_copy) (ms_expected_outcome ms))
          (set_description (default (description step_copy) (ms_description ms))
          (set_title (default (title step_copy) (ms_title ms)) step_copy)))))))
  end.

(** What the strategy does to the copy of the failed step. *)
Definition apply_strategy (strategy : string) (step_copy : Step) : Step :=
  if String.eqb strategy "retry" then
    set_result_payload None (set_error_message None
      (set_retry_count 0 (set_status PENDING step_copy)))
  else if String.eqb strategy "skip" then set_status SKIPPED step_copy
  else if String.eqb strategy "escalate" then
    set_error_message (Some "Escalated for human intervention")
      (set_status FAILED step_copy)
  else step_copy.

(** Body of the loop [for s in old_plan.steps] for one step. *)
Definition copy_existing (by_id : list (string * ModifiedStep)) (strategy : string)
    (failed_step s : Step) : Exn + Step :=
  let step_copy := s in
  let edited :=
    match dict_get (step_id step_copy) by_id with
    | Some ms =>
        if negb (bool_decide (status step_copy = COMPLETED))
        then apply_edit ms step_copy else inr step_copy
    | None => inr step_copy
    end in
  match edited with
  | inl e => inl e
  | inr step_copy =>
      inr (if String.eqb (step_id s) (step_id failed_step)
           then apply_strategy strategy step_copy else step_copy)
  end.

(** The loop itself: it stops at the first step whose edit raises. *)
Fixpoint copy_steps (f : Step → Exn + Step) (l : list Step) : Exn + list Step :=
  match l with
  | [] => inr []
  | s :: l' =>
      match f s with
      | inl e => inl e
      | inr s' =>
          match copy_steps f l' with
          | inl e => inl e
          | inr r => inr (s' :: r)
          end
      end
  end.

(** Body of the loop that inserts the entries marked [is_new].  The default
    identifier is computed whether or not the entry names one. *)
Definition insert_new (strategy : string) (failed_step : Step) (ms : ModifiedStep)
    (acc : list Step * list string) : M (list Step * list string) :=
  let '(new_steps, inserted_ids) := acc in
  if default false (ms_is_new ms) then
    u ← draw_uuid;
    let new_step_id :=
      default ("replan_" +:+ take_str 6 (uuid4 env u)) (ms_step_id ms) in
    let depends_on :=
      match ms_depends_on ms with
      | Some (d :: ds) => d :: ds
      | _ => depends_on failed_step
      end in
    match StepPriority_call (default "high" (ms_priority ms)) with
    | inl e => raise e
    | inr prio =>
        match Step_init
                {| arg_step_id := new_step_id;
                   arg_title := Some (default "Recovery Step" (ms_title ms));
                   arg_description := Some (default EmptyString (ms_description ms));
                   arg_expected_outcome :=
                     Some (default EmptyString (ms_expected_outcome ms));
                   arg_thought_process :=
                     Some (default ("Inserted by replanner (strategy: " +:+ strategy +:+ ")")
                             (ms_thought_process ms));
                   arg_priority := Some prio;
                   arg_depends_on := Some depends_on;
                   arg_required_tools := Some (default [] (ms_required_tools ms));
                   arg_status := None |} with
        | inl e => raise e
        | inr new_step =>
            mret (new_steps ++ [new_step], inserted_ids ++ [step_id new_step])
        end
    end
  else mret (new_steps, inserted_ids).

(** The last loop of the insert branch: the failed step goes back to
    [PENDING] and waits for the inserted steps. *)
Definition reset_failed (failed_step : Step) (inserted_ids : list string) (s : Step)
  : Step :=
  if String.eqb (step_id s) (step_id failed_step) then
    set_result_payload None (set_error_message None
      (set_depends_on (fromkeys (depends_on s ++ inserted_ids))
        (set_retry_count 0 (set_status PENDING s))))
  else s.

Definition _apply_modifications (old_plan : Plan) (failed_step : Step)
    (replan_data : ReplanData) : M Plan :=
  let strategy := default "retry" (strategy replan_data) in
  let modified_steps := default [] (modified_steps replan_data) in
  let by_id := modified_by_id modified_steps in
  match copy_steps (copy_existing by_id strategy failed_step) (steps old_plan) with
  | inl e => raise e
  | inr new_steps =>
      new_steps ←
        (if String.eqb strategy "insert" then
           '(new_steps, inserted_ids) ←
              for_each modified_steps (insert_new strategy failed_step) (new_steps, []);
           mret (reset_failed failed_step inserted_ids <$> new_steps)
         else mret new_steps);
      Plan_init env (goal_id old_plan) (version old_plan + 1) true new_steps
  end.

(** Body of the loop of [_simple_retry] for one step. *)
Definition retry_or_cap (failed_step s : Step) : Step :=
  let step_copy := s in
  if String.eqb (step_id s) (step_id failed_step) then
    if retry_count s >=? max_retries s then
      set_error_message
        (Some ("Hard cap reached: " +:+ pretty (retry_count s)
               +:+ " retries exhausted. Terminating loop."))
        (set_status FAILED step_copy)
    else
      set_result_payload None (set_error_message None
        (set_retry_count (retry_count s + 1) (set_status PENDING step_copy)))
  else step_copy.

Definition hard_capped (failed_step s : Step) : bool :=
  String.eqb (step_id s) (step_id failed_step) && (retry_count s >=? max_retries s).

Definition _simple_retry (plan : Plan) (failed_step : Step) : M Plan :=
  for_each (filter (λ s, hard_capped failed_step s = true) (steps plan))
    (λ s _, log "warning" "replanner_hard_cap_reached" (step_id s)) tt;;
  Plan_init env (goal_id plan) (version plan + 1) true
    (retry_or_cap failed_step <$> steps plan).

Definition with_links (plan : Plan) (failed_step : Step) (l : AgentLog) : AgentLog :=
  {| log_id := log_id l; log_goal_id := log_goal_id l;
     log_plan_id := Some (plan_id plan); log_step_id := Some (step_id failed_step);
     agent_type := agent_type l; provider := provider l; model := model l;
     prompt_summary := prompt_summary l; response_summary := response_summary l;
     tokens_in := tokens_in l; tokens_out := tokens_out l;
     latency_ms := latency_ms l; error := error l;
     log_timestamp := log_timestamp l |}.

(** The body of the [try] in [replan]. *)
Definition replan_attempt (plan : Plan) (failed_step : Step)
    (evaluation : StepEvaluation) (execution_result : Payload) (goal_id : string)
  : M Plan :=
  let prompt := replanner_prompt env plan failed_step evaluation execution_result in
  '(result_text, l) ←
     Gateway.generate env prompt REPLANNER_SYSTEM_PROMPT goal_id "replanner";
  agent_log_append (with_links plan failed_step l);;
  let replan_data := _parse_replan_response result_text in
  new_plan ← _apply_modifications plan failed_step replan_data;
  log "info" "replanner_success" (default "unknown" (strategy replan_data));;
  mret new_plan.

Definition replan (plan : Plan) (failed_step : Step) (evaluation : StepEvaluation)
    (execution_result : Payload) (goal_id : string) : M Plan :=
  log "info" "replanner_start" (step_id failed_step);;
  try_except
    (replan_attempt plan failed_step evaluation execution_result goal_id)
    (λ e,
       log "error" "replanner_failed" (exn_str e);;
       _simple_retry plan failed_step).

End WithEnv.
End Replanner.

(* ================================================================= *)
(** ** Orchestrator ([app/orchestrator/engine.py])

    The persistence port is taken not to raise.  A [Step] object reached
    both through [plan.steps] and through a local name is one object in
    Python: the model keeps the plan and the position of the step, and
    writes every assignment through to the plan. *)

Module Engine.
Section WithEnv.
Context (env : Env).

(** *** Event bus *)

Definition add_event_listener (listener : nat) : M unit :=
  ls ← get_event_listeners;
  set_event_listeners (ls ++ [listener]).

(** [list.remove(x)]: the first occurrence goes. *)
Fixpoint remove_first (x : nat) (l : list nat) : list nat :=
  match l with
  | [] => []
  | y :: l' => if bool_decide (x = y) then l' else y :: remove_first x l'
  end.

Definition remove_event_listener (listener : nat) : M unit :=
  ls ← get_event_listeners;
  if bool_decide (listener ∈ ls) then set_event_listeners (remove_first listener ls)
  else mret tt.

Definition registry_op (op : RegistryOp) : M unit :=
  match op with
  | AddListener l => add_event_listener l
  | RemoveListener l => remove_event_listener l
  end.

(** [listener(event)], awaited when it is a coroutine function: the
    listener gets the event; what reaches the registry meanwhile is applied;
    the listener may raise. *)
Definition call_listener (listener : nat) (event : StreamEvent) : M unit :=
  emit (Deliver listener event);;
  let run := listener_run env listener event in
  for_each (registry_ops run) (λ op _, registry_op op) tt;;
  match fault run with
  | Some e => raise e
  | None => mret tt
  end.

Definition _broadcast (event : StreamEvent) : M unit :=
  emit (Broadcast event);;
  listeners ← get_event_listeners;
  for_each listeners
    (λ listener _,
       try_except (call_listener listener event)
         (λ e, log "warning" "broadcast_error" (exn_str e)))
    tt.

(** [await self._broadcast(StreamEvent(...))] *)
Definition broadcast_event (event_type goal_id : string)
    (data : list (string * EventValue)) : M unit :=
  event ← StreamEvent_init event_type goal_id data;
  _broadcast event.

(** *** Persistence port, as far as its results are read *)

Definition with_status (s : GoalStatus) (active_plan : option string) (g : Goal)
  : Goal :=
  {| goal_id_of := goal_id_of g; user_id := user_id g; raw_input := raw_input g;
     goal_status := s;
     active_plan_id := match active_plan with
                       | Some a => Some a
                       | None => active_plan_id g
                       end |}.

(** [SELECT json_data FROM goals WHERE id = ?] and [fetchone] *)
Definition select_goal (goal_id : string) (rows : list Goal) : option Goal :=
  List.find (λ g, String.eqb (goal_id_of g) goal_id) rows.

(** [UPDATE goals SET json_data = ? WHERE id = ?] *)
Definition write_goal (goal_id : string) (row : Goal) (rows : list Goal)
  : list Goal :=
  (λ g, if String.eqb (goal_id_of g) goal_id then row else g) <$> rows.

(** [GoalRepository.update_status]: [None] when the goal has no row. *)
Definition update_status (goal_id : string) (s : GoalStatus)
    (active_plan : option string) : M (option Goal) :=
  db (GoalUpdateStatus goal_id s active_plan);;
  rows ← get_goals;
  match select_goal goal_id rows with
  | None => mret None
  | Some row =>
      let row' := with_status s active_plan row in
      set_goals (write_goal goal_id row' rows);;
      mret (Some row')
  end.

(** The first read of an attribute of the goal returned by
    [update_status]. *)
Definition attr (g : option Goal) : M Goal :=
  match g with
  | Some g => mret g
  | None => raise (new_exn "AttributeError" "'NoneType' object has no attribute 'id'")
  end.

Definition PlanRepository_create (plan : Plan) : M Plan :=
  db (PlanCreate plan);;
  mret plan.

(** *** Step handling *)

(** [plan.steps[i]] rebound to the current value of the step object. *)
Definition put (i : nat) (step : Step) (plan : Plan) : Plan :=
  {| plan_id := plan_id plan; goal_id := goal_id plan; version := version plan;
     is_active := is_active plan; steps := <[i := step]> (steps plan);
     created_at := created_at plan |}.

(** Positions of the steps [get_ready_steps] returns. *)
Fixpoint positions_from (ids : gset string) (i : nat) (l : list Step) : list nat :=
  match l with
  | [] => []
  | s :: l' =>
      if is_ready ids s then i :: positions_from ids (S i) l'
      else positions_from ids (S i) l'
  end.

Definition ready_positions (plan : Plan) : list nat :=
  positions_from (completed_ids plan) 0 (steps plan).

Definition _gather_previous_results (plan : Plan) (step : Step)
  : list (string * Payload) :=
  foldl (λ results dep_id,
           foldl (λ results s,
                    match result_payload s with
                    | Some (item :: items) =>
                        if String.eqb (step_id s) dep_id
                        then dict_set dep_id (item :: items) results
                        else results
                    | _ => results
                    end)
                 results (steps plan))
        [] (depends_on step).

(** [step.status = IN_PROGRESS; step.started_at = datetime.utcnow()] *)
Definition mark_in_progress (step : Step) : M Step :=
  now ← utcnow;
  mret (set_started_at (Some now) (set_status IN_PROGRESS step)).

(** From the first persistence call of a started step to the executor's
    result. *)
Definition announce_and_execute (plan : Plan) (step : Step)
    (goal_id goal_raw_input : string) : M Payload :=
  db (StepUpdateInPlan (plan_id plan) (step_id step)
        [UStatus IN_PROGRESS; UStartedAt (started_at step)]);;
  db (PlanUpdate plan);;
  broadcast_event "step_update" goal_id
    [("step_id", VStr (step_id step)); ("status", VStr "in_progress");
     ("title", VStr (title step))];;
  let previous_results := _gather_previous_results plan step in
  n ← tick;
  emit (ExecutorCall (step_id step));;
  lift (execute_step env n step goal_id (plan_id plan) previous_results
          goal_raw_input).

(** [step.status = EVALUATING], the event, and the evaluator's verdict. *)
Definition evaluate_step (plan : Plan) (i : nat) (step : Step)
    (exec_result : Payload) (goal_id : string)
  : M (Plan * Step * StepEvaluation) :=
  let step := set_status EVALUATING step in
  let plan := put i step plan in
  broadcast_event "step_update" goal_id
    [("step_id", VStr (step_id step)); ("status", VStr "evaluating")];;
  n ← tick;
  emit (EvaluatorCall (step_id step));;
  evaluation ← lift (evaluate env n step exec_result goal_id (plan_id plan));
  mret (plan, step, evaluation).

(** The branch [evaluation.result == EvalResult.SUCCESS]. *)
Definition on_success (plan : Plan) (i : nat) (step : Step) (exec_result : Payload)
    (goal_id : string) : M (Plan * Step) :=
  now ← utcnow;
  let step := set_completed_at (Some now)
                (set_result_payload (Some exec_result) (set_status COMPLETED step)) in
  let plan := put i step plan in
  db (StepUpdateInPlan (plan_id plan) (step_id step)
        [UStatus COMPLETED; UResultPayload exec_result;
         UCompletedAt (completed_at step)]);;
  db (PlanUpdate plan);;
  broadcast_event "step_update" goal_id
    [("step_id", VStr (step_id step)); ("status", VStr "completed");
     ("result_summary",
      VStr (default EmptyString (dict_get "result_summary" exec_result)))];;
  mret (plan, step).

(** [step.retry_count += 1] *)
Definition count_retry (plan : Plan) (i : nat) (step : Step) : Plan * Step :=
  let step := set_retry_count (retry_count step + 1) step in
  (put i step plan, step).

(** The branch [step.retry_count >= step.max_retries], up to the event. *)
Definition mark_failed (plan : Plan) (i : nat) (step : Step)
    (evaluation : StepEvaluation) (goal_id : string) : M (Plan * Step) :=
  let step := set_error_message (Some (reasoning evaluation))
                (set_status FAILED step) in
  let plan := put i step plan in
  db (StepUpdateInPlan (plan_id plan) (step_id step)
        [UStatus FAILED; UErrorMessage (reasoning evaluation)]);;
  broadcast_event "step_update" goal_id
    [("step_id", VStr (step_id step)); ("status", VStr "failed");
     ("error", VStr (reasoning evaluation))];;
  mret (plan, step).

(** The other branch: back to [PENDING] for a retry. *)
Definition back_to_pending (plan : Plan) (i : nat) (step : Step)
    (evaluation : StepEvaluation) (goal_id : string) : M (Plan * Step) :=
  let step := set_error_message (Some (reasoning evaluation))
                (set_status PENDING step) in
  let plan := put i step plan in
  db (StepUpdateInPlan (plan_id plan) (step_id step)
        [UStatus PENDING; UErrorMessage (reasoning evaluation);
         URetryCount (retry_count step)]);;
  db (PlanUpdate plan);;
  broadcast_event "step_update" goal_id
    [("step_id", VStr (step_id step)); ("status", VStr "retrying");
     ("retry_count", VInt (retry_count step))];;
  mret (plan, step).

(** From the [replanning] event to the [plan_created] event. *)
Definition replan_and_swap (plan : Plan) (failed_step : Step)
    (evaluation : StepEvaluation) (exec_result : Payload) (goal_id : string)
  : M Plan :=
  broadcast_event "replanning" goal_id
    [("message", VStr ("Replanning after step '" +:+ title failed_step +:+ "' failed"))];;
  db (PlanDeactivateForGoal goal_id);;
  new_plan ← Replanner.replan env plan failed_step evaluation exec_result goal_id;
  new_plan ← PlanRepository_create new_plan;
  let plan := new_plan in
  broadcast_event "plan_created" goal_id
    [("plan_id", VStr (plan_id plan)); ("version", VInt (version plan));
     ("steps", VSteps (steps plan));
     ("message", VStr "Plan updated after failure recovery")];;
  mret plan.

(** The sequential path: one ready step.  The flag is the [break]. *)
Definition run_sequential (plan : Plan) (i : nat) (step : Step)
    (goal_id goal_raw_input : string) : M (Plan * bool) :=
  step ← mark_in_progress step;
  let plan := put i step plan in
  exec_result ← announce_and_execute plan step goal_id goal_raw_input;
  '(plan, step, evaluation) ← evaluate_step plan i step exec_result goal_id;
  match result evaluation with
  | SUCCESS =>
      '(plan, _) ← on_success plan i step exec_result goal_id;
      mret (plan, false)
  | FAILURE | PARTIAL =>
      let '(plan, step) := count_retry plan i step in
      log "warning" "step_failed" (step_id step);;
      if retry_count step >=? max_retries step then
        '(plan, step) ← mark_failed plan i step evaluation goal_id;
        plan ← replan_and_swap plan step evaluation exec_result goal_id;
        mret (plan, true)
      else
        '(plan, _) ← back_to_pending plan i step evaluation goal_id;
        mret (plan, false)
  end.

(** The parallel path.  [asyncio.gather] starts the coroutines in order and
    each runs to its first suspension, the first persistence call: every
    ready step is marked before any of the calls returns.  The coroutines
    are then resumed one after the other, one of the schedules the event
    loop may follow.  With [return_exceptions=True] the exception of a
    coroutine is its result. *)
Definition start_single_step (i : nat) (plan : Plan) : M Plan :=
  match steps plan !! i with
  | Some step => step ← mark_in_progress step; mret (put i step plan)
  | None => mret plan
  end.

Definition start_all (plan : Plan) (ready : list nat) : M Plan :=
  for_each ready start_single_step plan.

Definition resume_single_step (plan : Plan) (goal_id goal_raw_input : string)
    (i : nat) (parallel_results : list (Exn + (nat * Payload)))
  : M (list (Exn + (nat * Payload))) :=
  match steps plan !! i with
  | Some step =>
      r ← try_except
            (exec_result ← announce_and_execute plan step goal_id goal_raw_input;
             mret (inr (i, exec_result)))
            (λ e, mret (inl e));
      mret (parallel_results ++ [r])
  | None => mret parallel_results
  end.

Definition gather (plan : Plan) (ready : list nat) (goal_id goal_raw_input : string)
  : M (list (Exn + (nat * Payload))) :=
  for_each ready (resume_single_step plan goal_id goal_raw_input) [].

(** Loop state of [for result in parallel_results]: the plan, the flag
    [needs_replan], and the [evaluation] and [exec_result] last assigned. *)
Definition settle_result (goal_id : string) (r : Exn + (nat * Payload))
    (acc : Plan * bool * option (StepEvaluation * Payload))
  : M (Plan * bool * option (StepEvaluation * Payload)) :=
  let '(plan, needs_replan, last) := acc in
  match r with
  | inl e => log "error" "parallel_step_exception" (exn_str e);; mret acc
  | inr (i, exec_result) =>
      match steps plan !! i with
      | None => mret acc
      | Some step =>
          '(plan, step, evaluation) ← evaluate_step plan i step exec_result goal_id;
          match result evaluation with
          | SUCCESS =>
              '(plan, _) ← on_success plan i step exec_result goal_id;
              mret (plan, needs_replan, Some (evaluation, exec_result))
          | FAILURE | PARTIAL =>
              let '(plan, step) := count_retry plan i step in
              if retry_count step >=? max_retries step then
                '(plan, _) ← mark_failed plan i step evaluation goal_id;
                mret (plan, true, Some (evaluation, exec_result))
              else
                '(plan, _) ← back_to_pending plan i step evaluation goal_id;
                mret (plan, needs_replan, Some (evaluation, exec_result))
          end
      end
  end.

(** [next((s for s in ready_steps if s.status == FAILED), None)] *)
Definition first_failed (plan : Plan) (ready : list nat) : option Step :=
  head (omap (λ i, match steps plan !! i with
                   | Some s => if bool_decide (status s = FAILED) then Some s else None
                   | None => None
                   end) ready).

Definition run_parallel (plan : Plan) (ready : list nat)
    (goal_id goal_raw_input : string) : M Plan :=
  log "info" "parallel_execution" goal_id;;
  plan ← start_all plan ready;
  parallel_results ← gather plan ready goal_id goal_raw_input;
  '(plan, needs_replan, last) ←
     for_each parallel_results (settle_result goal_id)
       (plan, false, @None (StepEvaluation * Payload));
  if needs_replan : bool then
    match first_failed plan ready, last with
    | Some failed_step, Some (evaluation, exec_result) =>
        replan_and_swap plan failed_step evaluation exec_result goal_id
    | _, _ => mret plan
    end
  else mret plan.

Definition max_plan_iterations : nat := 5.

(** The [while] loop of [_execute_plan], with the iterations it may still
    start. *)
Fixpoint execute_loop (remaining : nat) (plan : Plan)
    (goal_id goal_raw_input : string) : M Plan :=
  match remaining with
  | O => mret plan
  | S remaining' =>
      if is_complete plan then mret plan
      else
        match ready_positions plan with
        | [] =>
            (if has_failed_steps plan
             then log "warning" "no_ready_steps_with_failures" goal_id
             else log "warning" "no_ready_steps" goal_id);;
            mret plan
        | [i] =>
            match steps plan !! i with
            | None => mret plan
            | Some step =>
                '(plan, stop) ← run_sequential plan i step goal_id goal_raw_input;
                if stop : bool then mret plan
                else execute_loop remaining' plan goal_id goal_raw_input
            end
        | ready =>
            plan ← run_parallel plan ready goal_id goal_raw_input;
            execute_loop remaining' plan goal_id goal_raw_input
        end
  end.

Definition _execute_plan (plan : Plan) (goal_id goal_raw_input : string) : M Plan :=
  execute_loop max_plan_iterations plan goal_id goal_raw_input.

(** *** Goal processing *)

(** The branch taken when the goal text holds the demo marker. *)
Definition demo_safe_mode (goal : Goal) : M Goal :=
  log "warning" "DEMO_SAFE_MODE_ACTIVATED" (goal_id_of goal);;
  goal ← (row ← update_status (goal_id_of goal) PLANNING None; attr row);
  broadcast_event "goal_status" (goal_id_of goal) [("status", VStr "planning")];;
  safe_1 ← lift (Step_init
    {| arg_step_id := "safe_1"; arg_title := Some "Simulated Fetch";
       arg_description := None; arg_expected_outcome := None;
       arg_thought_process := None; arg_priority := None;
       arg_depends_on := None; arg_required_tools := None;
       arg_status := Some PENDING |});
  safe_2 ← lift (Step_init
    {| arg_step_id := "safe_2"; arg_title := Some "Simulated Schedule";
       arg_description := None; arg_expected_outcome := None;
       arg_thought_process := None; arg_priority := None;
       arg_depends_on := None; arg_required_tools := None;
       arg_status := Some PENDING |});
  plan ← Plan_init env (goal_id_of goal) 1 true [safe_1; safe_2];
  plan ← PlanRepository_create plan;
  broadcast_event "plan_created" (goal_id_of goal)
    [("plan_id", VStr (plan_id plan)); ("version", VInt (version plan));
     ("steps", VSteps (steps plan))];;
  sleep 1;;
  plan ← for_each (seq 0 (length (steps plan)))
    (λ i plan,
       match steps plan !! i with
       | None => mret plan
       | Some s =>
           let s := set_status IN_PROGRESS s in
           let plan := put i s plan in
           broadcast_event "step_update" (goal_id_of goal)
             [("step_id", VStr (step_id s)); ("status", VStr "in_progress")];;
           sleep 1;;
           let s := set_status COMPLETED s in
           let plan := put i s plan in
           broadcast_event "step_update" (goal_id_of goal)
             [("step_id", VStr (step_id s)); ("status", VStr "completed")];;
           mret plan
       end)
    plan;
  goal ← (row ← update_status (goal_id_of goal) GOAL_COMPLETED None; attr row);
  broadcast_event "goal_completed" (goal_id_of goal) [("status", VStr "completed")];;
  mret goal.

(** Phase 1. *)
Definition planning_phase (goal : Goal) : M (Goal * Plan) :=
  goal ← (row ← update_status (goal_id_of goal) PLANNING None; attr row);
  broadcast_event "goal_status" (goal_id_of goal)
    [("status", VStr "planning");
     ("message", VStr "Decomposing goal into execution plan...")];;
  n ← tick;
  emit (PlannerCall (goal_id_of goal));;
  plan ← lift (create_plan env n (goal_id_of goal) (raw_input goal));
  plan ← PlanRepository_create plan;
  goal ← (row ← update_status (goal_id_of goal) EXECUTING (Some (plan_id plan));
          attr row);
  broadcast_event "plan_created" (goal_id_of goal)
    [("plan_id", VStr (plan_id plan)); ("version", VInt (version plan));
     ("steps", VSteps (steps plan))];;
  mret (goal, plan).

(** Phase 3. *)
Definition completion_phase (goal : Goal) (plan : Plan) : M Goal :=
  if is_complete plan then
    goal ← (row ← update_status (goal_id_of goal) GOAL_COMPLETED None; attr row);
    broadcast_event "goal_completed" (goal_id_of goal)
      [("status", VStr "completed");
       ("message", VStr "All steps completed successfully")];;
    db (MemoryStore (goal_id_of goal) (raw_input goal) (version plan)
          (length (steps plan)));;
    mret goal
  else
    goal ← (row ← update_status (goal_id_of goal) GOAL_FAILED None; attr row);
    broadcast_event "goal_failed" (goal_id_of goal)
      [("status", VStr "failed");
       ("message", VStr "Goal could not be completed after all retries")];;
    mret goal.

(** The [except Exception] clause of [process_goal].  The name [goal] is
    bound to [None] there exactly when the goal has no row. *)
Definition on_error (goal : Goal) (e : Exn) : M Goal :=
  rows ← get_goals;
  _bound ← attr (select_goal (goal_id_of goal) rows);
  log "error" "orchestrator_error" (exn_str e);;
  goal ← (row ← update_status (goal_id_of goal) GOAL_FAILED None; attr row);
  broadcast_event "error" (goal_id_of goal)
    [("error", VStr (exn_str e)); ("component", VStr "orchestrator")];;
  mret goal.

Definition process_goal (goal : Goal) : M Goal :=
  log "info" "orchestrator_start" (goal_id_of goal);;
  try_except
    (if contains "DEMO-SAFE-001" (upper (raw_input goal)) then demo_safe_mode goal
     else
       '(goal, plan) ← planning_phase goal;
       plan ← _execute_plan plan (goal_id_of goal) (raw_input goal);
       goal ← completion_phase goal plan;
       log "info" "orchestrator_complete" (GoalStatus_value (goal_status goal));;
       mret goal)
    (on_error goal).

End WithEnv.
End Engine.

(* ================================================================= *)
(** ** Observations used to state the properties *)

Section Observations.

(** [m] run from [w] returns a value and a state that satisfy [Q], or
    raises an exception and leaves a state that satisfy [E]. *)
Definition post {A} (m : M A) (Q : A → World → Prop) (E : Exn → World → Prop)
    (w : World) : Prop :=
  match m w with
  | (inr a, w') => Q a w'
  | (inl e, w') => E e w'
  end.

(** [m] returns, and [Q] holds of what it returns. *)
Definition returns {A} (m : M A) (Q : A → World → Prop) (w : World) : Prop :=
  post m Q (λ _ _, False) w.

(** [m] leaves the component [f] of the state as it found it, however it
    ends. *)
Definition keeps {X A} (f : World → X) (m : M A) : Prop :=
  ∀ w, f (snd (m w)) = f w.

(** The event types broadcast, the deliveries made and the agents called in
    a stretch of history. *)
Definition broadcasts_of (h : list Effect) : list string :=
  omap (λ e, match e with Broadcast ev => Some (event_type ev) | _ => None end) h.

Definition deliveries_of (h : list Effect) : list (nat * StreamEvent) :=
  omap (λ e, match e with Deliver l ev => Some (l, ev) | _ => None end) h.

Definition is_agent_call (e : Effect) : bool :=
  match e with
  | LLMInvoke _ _ | PlannerCall _ | ExecutorCall _ | EvaluatorCall _ => true
  | _ => false
  end.

Definition is_log_append (e : Effect) : bool :=
  match e with Db (AgentLogAppend _) => true | _ => false end.

(** Everything in the state but the listener registry and the history. *)
Definition quiet_part (w : World)
  : list AgentLog * list Goal * list LLMProvider * nat * nat * nat :=
  (agent_logs w, goals w, providers w, clock w, uuids w, ticks w).

(** The state [broadcast_event] leaves. *)
Definition published (env : Env) (event_type goal_id : string)
    (data : list (string * EventValue)) (w : World) : World :=
  snd (Engine.broadcast_event env event_type goal_id data w).

(** The state after [update_status] on a goal that has the row [row]. *)
Definition status_written (goal_id : string) (s : GoalStatus)
    (active_plan : option string) (row : Goal) (w : World) : World :=
  {| history := history w ++ [Db (GoalUpdateStatus goal_id s active_plan)];
     agent_logs := agent_logs w;
     goals := Engine.write_goal goal_id (Engine.with_status s active_plan row) (goals w);
     event_listeners := event_listeners w; providers := providers w;
     clock := clock w; uuids := uuids w; ticks := ticks w |}.

(** What [_broadcast] does for one listener of its snapshot. *)
Definition delivery (env : Env) (event : StreamEvent) (listener : nat) : list Effect :=
  Deliver listener event
  :: match fault (listener_run env listener event) with
     | Some e => [Log "warning" "broadcast_error" (exn_str e)]
     | None => []
     end.

(** The [Sleep] delays and the [LLMInvoke] attempts of a stretch of history. *)
Definition sleeps_of (h : list Effect) : list Z :=
  omap (λ e, match e with Sleep s => Some s | _ => None end) h.

Definition invokes_of (h : list Effect) : list (LLMProvider * Z) :=
  omap (λ e, match e with LLMInvoke p a => Some (p, a) | _ => None end) h.

(** Backoff before attempt [k], for [k = 1 .. n-1]: [5 * k] seconds. *)
Definition backoff_schedule (n : nat) : list Z :=
  (λ k, 5 * Z.of_nat k) <$> seq 1 (n - 1).

(** The state after the effects [effs] and [k] consultations. *)
Definition after (effs : list Effect) (k : nat) (w : World) : World :=
  {| history := history w ++ effs; agent_logs := agent_logs w;
     goals := goals w; event_listeners := event_listeners w;
     providers := providers w; clock := clock w; uuids := uuids w;
     ticks := k + ticks w |}.

(** The states [datetime.utcnow()], a consultation and [uuid4()] leave. *)
Definition later (w : World) : World :=
  {| history := history w; agent_logs := agent_logs w; goals := goals w;
     event_listeners := event_listeners w; providers := providers w;
     clock := S (clock w); uuids := uuids w; ticks := ticks w |}.

Definition ticked (w : World) : World :=
  {| history := history w; agent_logs := agent_logs w; goals := goals w;
     event_listeners := event_listeners w; providers := providers w;
     clock := clock w; uuids := uuids w; ticks := S (ticks w) |}.

Definition drawn (w : World) : World :=
  {| history := history w; agent_logs := agent_logs w; goals := goals w;
     event_listeners := event_listeners w; providers := providers w;
     clock := clock w; uuids := S (uuids w); ticks := ticks w |}.

(** The delay taken before the first attempt: four seconds ahead of Gemini. *)
Definition proactive_delay (p : LLMProvider) : list Z :=
  if bool_decide (p = GEMINI) then [4] else [].

(** The text [generate] keeps of the error that made the last provider fail. *)
Definition error_detail (e : Exn) : string :=
  if nonempty (exn_str e) then exn_str e else exn_repr e.

(** A registry with one capability whose handler never returns in time. *)
Definition slow_registry : Registry.ToolRegistry :=
  Registry.register_tool "fetch_study_resources" "Query the reference API"
    (λ _, Registry.Hangs) None [].

(** The state in which the executor's result arrives. *)
Definition executed (env : Env) (plan : Plan) (step : Step) (goal_id : string)
    (w : World) : World :=
  after [ExecutorCall (step_id step)] 0
    (ticked
       (published env "step_update" goal_id
          [("step_id", VStr (step_id step)); ("status", VStr "in_progress");
           ("title", VStr (title step))]
          (after [Db (PlanUpdate plan)] 0
             (after [Db (StepUpdateInPlan (plan_id plan) (step_id step)
                           [UStatus IN_PROGRESS; UStartedAt (started_at step)])]
                0 w)))).

(** The state in which the evaluator's verdict arrives. *)
Definition evaluated (env : Env) (step : Step) (goal_id : string) (w : World)
  : World :=
  after [EvaluatorCall (step_id step)] 0
    (ticked
       (published env "step_update" goal_id
          [("step_id", VStr (step_id step)); ("status", VStr "evaluating")] w)).

(** The step as the executor sees it, and as it stands once its failed
    evaluation has been counted. *)
Definition started (step : Step) (w : World) : Step :=
  set_started_at (Some (clock w)) (set_status IN_PROGRESS step).

Definition counted (step : Step) (w : World) : Step :=
  set_retry_count (retry_count step + 1) (set_status EVALUATING (started step w)).

(** Positions named by the results of a batch. *)
Definition result_positions (results : list (Exn + (nat * Payload))) : list nat :=
  omap (λ r, match r with inr (i, _) => Some i | inl _ => None end) results.

(** What holds of the loop state while the results of a batch are settled:
    no ready step is [FAILED] unless [needs_replan] is set; once it is set,
    a ready step that is no longer to be settled is [FAILED] and an
    evaluation has been kept. *)
Definition settled (plan0 : Plan) (ready remaining : list nat)
    (acc : Plan * bool * option (StepEvaluation * Payload)) : Prop :=
  let '(plan, needs_replan, last) := acc in
  version plan = version plan0
  ∧ (needs_replan = false →
       ∀ i s, i ∈ ready → steps plan !! i = Some s → status s ≠ FAILED)
  ∧ (needs_replan = true →
       is_Some last
       ∧ ∃ i s, i ∈ ready ∧ (i ∉ remaining) ∧ steps plan !! i = Some s
                ∧ status s = FAILED).

(** A scripted environment: the model calls, the JSON decoder, the planner,
    the evaluator's verdicts and the listeners are given; identifiers are
    numbered, the executor returns a one-item payload. *)
Definition scripted_env
    (llm : nat → LLMProvider → Exn + LLMResponse)
    (decode : string → option ReplanData)
    (planner : Exn + Plan)
    (verdict : nat → Step → EvalResult)
    (listeners : nat → StreamEvent → ListenerRun) : Env :=
  {| settings := default_settings;
     uuid4 := λ n, "uuid-" +:+ pretty n;
     _create_provider := λ _, None;
     ainvoke := λ n p _ _, llm n p;
     perf_counter_ms := λ _, 0;
     json_loads := decode;
     replanner_prompt := λ _ failed _ _, "FAILED STEP: " +:+ title failed;
     create_plan := λ _ _ _, planner;
     execute_step := λ _ step _ _ _ _, inr [("result_summary", title step)];
     evaluate := λ n step _ _ _,
       inr {| eval_step_id := step_id step; result := verdict n step;
              reasoning := "verdict"; suggestions := [] |};
     listener_run := listeners |}.

(** No provider can be reached. *)
Definition offline (_ : nat) (_ : LLMProvider) : Exn + LLMResponse :=
  inl (new_exn "ConnectError" "All connection attempts failed").

(** Listeners that take the event and do nothing else. *)
Definition passive (_ : nat) (_ : StreamEvent) : ListenerRun :=
  {| registry_ops := []; fault := None |}.

(** A step as the planner builds it from a title and its dependencies. *)
Definition planned_step (id : string) (deps : list string) : Step :=
  {| step_id := id; title := id; description := EmptyString;
     expected_outcome := EmptyString; thought_process := EmptyString;
     priority := MEDIUM; depends_on := deps; required_tools := [];
     status := PENDING; result_payload := None; error_message := None;
     retry_count := 0; max_retries := 3; started_at := None;
     completed_at := None |}.

Definition planned (steps : list Step) : Plan :=
  {| plan_id := "plan-1"; goal_id := "goal-1"; version := 1; is_active := true;
     steps := steps; created_at := 0%nat |}.

(** A goal as [create_goal] stores it, and the state with its row. *)
Definition received (text : string) : Goal :=
  {| goal_id_of := "goal-1"; user_id := "user-1"; raw_input := text;
     goal_status := RECEIVED; active_plan_id := None |}.

Definition world_with (g : Goal) (listeners : list nat) : World :=
  {| history := []; agent_logs := []; goals := [g];
     event_listeners := listeners; providers := []; clock := 0%nat;
     uuids := 0%nat; ticks := 0%nat |}.

(** The value a run returned, [d] if it raised. *)
Definition returned {A} (d : A) (r : (Exn + A) * World) : A :=
  match fst r with inr a => a | inl _ => d end.

(** Two scripted runs: every model call fails and the evaluator rejects
    every result; every model call fails and the evaluator accepts. *)
Definition one_step_plan : Plan := planned [planned_step "a" []].

Definition rejecting_env : Env :=
  scripted_env offline (λ _, None) (inr one_step_plan) (λ _ _, FAILURE) passive.

Definition study_plan : Plan :=
  planned [planned_step "a" []; planned_step "b" []; planned_step "c" ["a"; "b"]].

Definition accepting_env : Env :=
  scripted_env offline (λ _, None) (inr study_plan) (λ _ _, SUCCESS) passive.

Definition study_goal : Goal := received "prepare for GATE in 4 weeks".

Definition demo_goal : Goal := received "run demo-safe-001 now".

(** A plan in mid-run: [a] is done, [b] has just failed for the third time. *)
Definition done_a : Step :=
  set_completed_at (Some 4%nat)
    (set_result_payload (Some [("result_summary", "a")])
       (set_status COMPLETED (planned_step "a" []))).

Definition failed_b : Step :=
  set_error_message (Some "verdict")
    (set_status FAILED (set_retry_count 3 (planned_step "b" ["a"]))).

Definition stuck_plan : Plan := planned [done_a; failed_b].

Definition rejection : StepEvaluation :=
  {| eval_step_id := "b"; result := FAILURE; reasoning := "verdict";
     suggestions := [] |}.

End Observations.

(* ================================================================= *)
(** ** Further observations *)

(** [bool(payload)]: the payload if it is a non-empty dict. *)
Definition truthy_payload (r : option Payload) : option Payload :=
  match r with Some (item :: items) => Some (item :: items) | _ => None end.

(** The result payload of the last step of [l] that carries the id [d] and
    a non-empty payload. *)
Definition last_result (d : string) (l : list Step) : option Payload :=
  last (omap (λ s, if String.eqb (step_id s) d
                   then truthy_payload (result_payload s) else None) l).

(** Body of the inner loop of [_gather_previous_results] for one step. *)
Definition gather_step (dep_id : string) (results : list (string * Payload))
    (s : Step) : list (string * Payload) :=
  match result_payload s with
  | Some (item :: items) =>
      if String.eqb (step_id s) dep_id
      then dict_set dep_id (item :: items) results
      else results
  | _ => results
  end.

(** The [AttributeError] of reading [goal.id] when [goal] is [None]. *)
Definition no_goal : Exn :=
  new_exn "AttributeError" "'NoneType' object has no attribute 'id'".

(** A chain of pending steps: the first one waits for nothing, every other
    one for the step just before it. *)
Fixpoint is_chain_from (previous : list string) (l : list Step) : bool :=
  match l with
  | [] => true
  | s :: l' =>
      bool_decide (depends_on s = previous) && bool_decide (status s = PENDING)
      && is_chain_from [step_id s] l'
  end.

Definition is_chain (l : list Step) : bool := is_chain_from [] l.

(** The steps of [l0] after [k] passes that each completed one step. *)
Definition progressed (k : nat) (l0 l : list Step) : Prop :=
  length l = length l0
  ∧ ∀ i s0, l0 !! i = Some s0 →
      ∃ s, l !! i = Some s ∧ step_id s = step_id s0
           ∧ depends_on s = depends_on s0
           ∧ status s = if (i <? k)%nat then COMPLETED else PENDING.




(** Seconds slept in all. *)
Definition total_sleep (h : list Effect) : Z := foldr Z.add 0 (sleeps_of h).

(** The steps of [l0] once those at the positions [ready] have been started
    and nothing else has happened to them. *)
Definition left_in_progress (ready : list nat) (l0 l : list Step) : Prop :=
  length l = length l0
  ∧ ∀ i s0, l0 !! i = Some s0 →
      ∃ s, l !! i = Some s
           ∧ if bool_decide (i ∈ ready)
             then ∃ t, s = set_started_at (Some t) (set_status IN_PROGRESS s0)
             else s = s0.

(* ================================================================= *)
(** ** Structured generation ([LLMGateway.generate_structured]) and the
    summariser ([app/cognitive/memory/manager.py]) *)

Module Structured.

(** The line feed of the prompt templates. *)
Definition nl : string := String (ascii_of_nat 10) EmptyString.

(** [len(s)] *)
Definition len (s : string) : Z := Z.of_nat (String.length s).


Section WithEnv.
Context (env : Env).

(** [parse] stands for [parser.parse(self._sanitize_json_response(text))]:
    the parsed object, or the exception raised on the way;
    [format_instructions] for [parser.get_format_instructions()]. *)
Context {J : Type} (parse : string → Exn + J) (format_instructions : string).

Definition first_prompt (prompt : string) : string :=
  prompt +:+ nl +:+ nl +:+ format_instructions.

Definition retry_prompt (prompt : string) (parse_err : Exn) (text : string) : string :=
  prompt +:+ nl +:+ nl +:+ format_instructions +:+ nl +:+ nl
  +:+ "Your previous response was invalid JSON. Error: " +:+ exn_str parse_err +:+ nl
  +:+ "Previous response: " +:+ take_str 500 text +:+ nl
  +:+ "Please fix and respond with ONLY valid JSON.".

(** [for attempt in range(retries + 1)], over the attempts still to run.
    The [log.error] set before the last [raise] is set on an object that
    nothing holds any more. *)
Fixpoint structured_attempts (attempts : list Z) (retries : Z)
    (prompt full_prompt system goal_id agent_type : string) : M (J * AgentLog) :=
  match attempts with
  | [] => raise (new_exn "RuntimeError" "Unreachable")
  | attempt :: rest =>
      '(text, l) ← Gateway.generate env full_prompt system goal_id agent_type;
      match parse text with
      | inr parsed => mret (parsed, l)
      | inl parse_err =>
          if attempt <? retries then
            let full_prompt := retry_prompt prompt parse_err text in
            log "warning" "structured_parse_retry" (exn_str parse_err);;
            structured_attempts rest retries prompt full_prompt system goal_id
              agent_type
          else raise parse_err
      end
  end.

Definition generate_structured (prompt system goal_id agent_type : string)
    (retries : Z) : M (J * AgentLog) :=
  structured_attempts (Gateway.range (retries + 1)) retries prompt
    (first_prompt prompt) system goal_id agent_type.


End WithEnv.
End Structured.

(* ================================================================= *)
(** ** Working memory ([ShortTermMemory], [app/cognitive/memory/manager.py]) *)

Module Memory.
Import Structured.

(** The object: its items, oldest first, each a key and a datum, and its
    capacity.  [D] is the type of the data, [str] their rendering. *)
Record ShortTermMemory (D : Type) := mkShortTermMemory {
  _items : list (string * D);
  _max_items : Z;
}.
Arguments mkShortTermMemory {D} _ _.
Arguments _items {D} _.
Arguments _max_items {D} _.

Section WithData.
Context {D : Type} (str : D → string).

(** [ShortTermMemory(max_items)] *)
Definition ShortTermMemory_init (max_items : Z) : ShortTermMemory D :=
  {| _items := []; _max_items := max_items |}.

(** [add]: append, then [pop(0)] once if the capacity is exceeded. *)
Definition add (key : string) (data : D) (m : ShortTermMemory D) : ShortTermMemory D :=
  let items := _items m ++ [(key, data)] in
  {| _items := if Z.of_nat (length items) >? _max_items m then tail items else items;
     _max_items := _max_items m |}.

(** [get]: the datum of the latest item with the key. *)
Definition get (key : string) (m : ShortTermMemory D) : option D :=
  snd <$> List.find (λ item, String.eqb (fst item) key) (rev (_items m)).

(** [get_recent]: the slice [self._items[-n:]]. *)
Definition get_recent (n : Z) (m : ShortTermMemory D) : list (string * D) :=
  if 0 <? n then drop (Z.to_nat (Z.of_nat (length (_items m)) - n)) (_items m)
  else drop (Z.to_nat (- n)) (_items m).

(** [f"[{item['key']}]: {str(item['data'])[:300]}"] *)
Definition entry_of (item : string * D) : string :=
  "[" +:+ fst item +:+ "]: " +:+ take_str 300 (str (snd item)).

(** The loop of [to_context_string] over the items, latest first: it stops
    at the first entry that does not fit. *)
Fixpoint context_parts (max_chars total : Z) (items : list (string * D))
  : list string :=
  match items with
  | [] => []
  | item :: rest =>
      let entry := entry_of item in
      if total + len entry >? max_chars then []
      else entry :: context_parts max_chars (total + len entry) rest
  end.

Definition to_context_string (max_chars : Z) (m : ShortTermMemory D) : string :=
  join nl (rev (context_parts max_chars 0 (rev (_items m)))).

(** [clear] *)
Definition clear (m : ShortTermMemory D) : ShortTermMemory D :=
  {| _items := []; _max_items := _max_items m |}.

End WithData.
End Memory.

(** Further scripted inputs: a plan that is complete, a chain of six steps,
    a ranking of the steps of [study_plan], a reply that skips the failed
    step, and a model whose first provider is out of reach while the others
    answer. *)
Definition finished_plan : Plan := planned [done_a].

Definition six_step_chain : Plan :=
  planned [planned_step "s1" []; planned_step "s2" ["s1"]; planned_step "s3" ["s2"];
           planned_step "s4" ["s3"]; planned_step "s5" ["s4"];
           planned_step "s6" ["s5"]].

Definition study_rank (id : string) : nat := if String.eqb id "c" then 1 else 0.

Definition skip_reply : ReplanData :=
  {| strategy := Some "skip"; modified_steps := None |}.

Definition primary_down (_ : nat) (p : LLMProvider) : Exn + LLMResponse :=
  match p with
  | OLLAMA => inl (new_exn "ConnectError" "All connection attempts failed")
  | _ => inr {| content := "{}"; usage_metadata := None |}
  end.

Definition fallback_env : Env :=
  scripted_env primary_down (λ _, None) (inr study_plan) (λ _ _, SUCCESS) passive.

(** More scripted inputs: an executor that is down; an executor and an
    evaluator that go by the id of the step, the evaluator rejecting the
    step [a]; a plan whose step [a] has one attempt left; a working memory
    of two items that is full. *)
Definition executor_down : Exn := new_exn "RuntimeError" "executor is down".

Definition broken_executor_env : Env :=
  {| settings := settings accepting_env; uuid4 := uuid4 accepting_env;
     _create_provider := _create_provider accepting_env;
     ainvoke := ainvoke accepting_env;
     perf_counter_ms := perf_counter_ms accepting_env;
     json_loads := json_loads accepting_env;
     replanner_prompt := replanner_prompt accepting_env;
     create_plan := create_plan accepting_env;
     execute_step := λ _ _ _ _ _ _, inl executor_down;
     evaluate := evaluate accepting_env;
     listener_run := listener_run accepting_env |}.

Definition output_of (id : string) : Payload := [("result_summary", id)].

Definition verdict_of (id : string) (_ : Payload) : StepEvaluation :=
  {| eval_step_id := id;
     result := if String.eqb id "a" then FAILURE else SUCCESS;
     reasoning := "verdict"; suggestions := [] |}.

Definition keyed_env : Env :=
  {| settings := settings accepting_env; uuid4 := uuid4 accepting_env;
     _create_provider := _create_provider accepting_env;
     ainvoke := ainvoke accepting_env;
     perf_counter_ms := perf_counter_ms accepting_env;
     json_loads := json_loads accepting_env;
     replanner_prompt := replanner_prompt accepting_env;
     create_plan := create_plan accepting_env;
     execute_step := λ _ s _ _ _ _, inr (output_of (step_id s));
     evaluate := λ _ s r _ _, inr (verdict_of (step_id s) r);
     listener_run := listener_run accepting_env |}.

Definition last_attempt_a : Step := set_retry_count 2 (planned_step "a" []).

Definition last_attempt_plan : Plan := planned [last_attempt_a; planned_step "b" []].

Definition full_memory : Memory.ShortTermMemory string :=
  {| Memory._items := [("syllabus", "12 topics"); ("schedule", "4 weeks")];
     Memory._max_items := 2 |}.
(* ================================================================= *)
(** ** Properties of the plan graph model *)

Section ReadySteps.

Lemma elem_of_completed_ids (p : Plan) (dep : string) :
  dep ∈ completed_ids p ↔
  ∃ t, t ∈ steps p ∧ step_id t = dep ∧ (status t = COMPLETED ∨ status t = SKIPPED).
Proof.
  unfold completed_ids. rewrite elem_of_list_to_set, list_elem_of_fmap.
  split.
  - intros (t & -> & Ht). apply list_elem_of_filter in Ht as [Hs Ht].
    exists t. repeat split; auto.
    destruct (status t); simpl in Hs; try discriminate; auto.
  - intros (t & Ht & <- & Hs). exists t. split; [done|].
    apply list_elem_of_filter. split; [|done].
    destruct Hs as [-> | ->]; reflexivity.
Qed.

Lemma is_ready_true (ids : gset string) (s : Step) :
  is_ready ids s = true ↔
  status s = PENDING ∧ ∀ dep, dep ∈ depends_on s → dep ∈ ids.
Proof.
  unfold is_ready. rewrite andb_true_iff, bool_decide_eq_true, forallb_forall.
  split; intros [Hs Hd]; split; auto; intros dep Hin.
  - apply list_elem_of_In in Hin. specialize (Hd _ Hin).
    by apply bool_decide_eq_true in Hd.
  - apply bool_decide_eq_true, Hd, list_elem_of_In, Hin.
Qed.

Lemma ready_step_is_pending (p : Plan) (s : Step) :
  s ∈ get_ready_steps p → status s = PENDING.
Proof.
  unfold get_ready_steps. cbv zeta. rewrite list_elem_of_filter, is_ready_true.
  tauto.
Qed.

(** C1.  [get_ready_steps] keeps, in plan order, exactly the steps that are
    [PENDING] and whose every dependency id is the id of some step of the same
    plan that is [COMPLETED] or [SKIPPED]; a step with a dependency id that no
    step of the plan carries is never returned. *)
Theorem get_ready_steps_exact (p : Plan) (s : Step) :
  (s ∈ get_ready_steps p ↔
     s ∈ steps p ∧ status s = PENDING ∧
     ∀ dep, dep ∈ depends_on s →
       ∃ t, t ∈ steps p ∧ step_id t = dep ∧
            (status t = COMPLETED ∨ status t = SKIPPED))
  ∧ (∀ dep, dep ∈ depends_on s → (∀ t, t ∈ steps p → step_id t ≠ dep) →
       s ∉ get_ready_steps p)
  ∧ get_ready_steps p `sublist_of` steps p.
Proof.
  assert (Hchar : s ∈ get_ready_steps p ↔
     s ∈ steps p ∧ status s = PENDING ∧
     ∀ dep, dep ∈ depends_on s →
       ∃ t, t ∈ steps p ∧ step_id t = dep ∧
            (status t = COMPLETED ∨ status t = SKIPPED)).
  { unfold get_ready_steps. cbv zeta.
    rewrite list_elem_of_filter, is_ready_true.
    setoid_rewrite elem_of_completed_ids. tauto. }
  split; [exact Hchar|]. split.
  - intros dep Hdep Hnone Hin. apply Hchar in Hin as (_ & _ & Hall).
    destruct (Hall dep Hdep) as (t & Ht & Hid & _). by apply (Hnone t).
  - apply sublist_filter.
Qed.

End ReadySteps.

(** [is_complete] holds exactly when every step of the plan is [COMPLETED]
    or [SKIPPED]. *)
Lemma is_complete_iff (p : Plan) :
  is_complete p = true ↔
  ∀ s, s ∈ steps p → status s = COMPLETED ∨ status s = SKIPPED.
Proof.
  unfold is_complete. rewrite forallb_forall. split.
  - intros H s Hs. apply list_elem_of_In, H in Hs.
    destruct (status s); simpl in Hs; try discriminate; auto.
  - intros H s Hs. apply list_elem_of_In, H in Hs as [-> | ->]; reflexivity.
Qed.

Lemma is_complete_false_of (p : Plan) (s : Step) :
  s ∈ steps p → status_settled (status s) = false → is_complete p = false.
Proof.
  intros Hs Hst. apply not_true_is_false. intros Hc.
  destruct (proj1 (is_complete_iff p) Hc s Hs) as [E | E];
    rewrite E in Hst; discriminate.
Qed.


(* ================================================================= *)
(** ** Reasoning about coroutines *)

Section Calculus.

Lemma post_bind {A B} (m : M A) (k : A → M B) Q E w :
  post m (λ a w', post (k a) Q E w') E w → post (m ≫= k) Q E w.
Proof.
  unfold post, mbind, M_bind, bind. destruct (m w) as [[e | a] w']; done.
Qed.

Lemma post_try_except {A} (m : M A) (h : Exn → M A) Q E w :
  post m Q (λ e w', post (h e) Q E w') w → post (try_except m h) Q E w.
Proof.
  unfold post, try_except. destruct (m w) as [[e | a] w']; done.
Qed.

Lemma post_mono {A} (m : M A) (Q Q' : A → World → Prop) (E E' : Exn → World → Prop) w :
  post m Q E w → (∀ a w', Q a w' → Q' a w') → (∀ e w', E e w' → E' e w') →
  post m Q' E' w.
Proof.
  unfold post. destruct (m w) as [[e | a] w']; auto.
Qed.

Lemma post_for_each {A S} (I : S → World → Prop) (E : Exn → World → Prop)
    (body : A → S → M S) (xs : list A) (acc : S) (w : World) :
  (∀ x acc w, x ∈ xs → I acc w → post (body x acc) I E w) →
  I acc w → post (for_each xs body acc) I E w.
Proof.
  revert acc w. induction xs as [|x xs IH]; intros acc w Hbody HI.
  - exact HI.
  - cbn [for_each]. apply post_bind.
    eapply post_mono; [apply Hbody; [left|exact HI] | | done].
    intros acc' w' HI'. apply IH; [|exact HI'].
    intros y acc'' w'' Hy. apply Hbody. by right.
Qed.

Lemma post_run {A B} (m : M A) (k : A → M B) Q E w a w' :
  m w = (inr a, w') → post (k a) Q E w' → post (m ≫= k) Q E w.
Proof. intros Hm Hk. apply post_bind. unfold post at 1. by rewrite Hm. Qed.

Lemma returns_elim {A} (m : M A) Q w :
  returns m Q w → ∃ a w', m w = (inr a, w') ∧ Q a w'.
Proof.
  unfold returns, post. destruct (m w) as [[e | a] w']; [done | eauto].
Qed.

(** Running a sequence one call at a time. *)
Lemma run_bind {A B} (m : M A) (k : A → M B) w a w' :
  m w = (inr a, w') → (m ≫= k) w = k a w'.
Proof. unfold mbind, M_bind, bind. by intros ->. Qed.

Lemma run_bind_raise {A B} (m : M A) (k : A → M B) w e w' :
  m w = (inl e, w') → (m ≫= k) w = (inl e, w').
Proof. unfold mbind, M_bind, bind. by intros ->. Qed.

Lemma run_try_returns {A} (m : M A) (h : Exn → M A) w a w' :
  m w = (inr a, w') → try_except m h w = (inr a, w').
Proof. unfold try_except. by intros ->. Qed.

Lemma run_try_raises {A} (m : M A) (h : Exn → M A) w e w' :
  m w = (inl e, w') → try_except m h w = h e w'.
Proof. unfold try_except. by intros ->. Qed.

Lemma bind_returns_inv {A B} (m : M A) (k : A → M B) w b w' :
  (m ≫= k) w = (inr b, w') → ∃ a w1, m w = (inr a, w1) ∧ k a w1 = (inr b, w').
Proof.
  unfold mbind, M_bind, bind. destruct (m w) as [[e | a] w1]; [done | eauto].
Qed.

Lemma after_cons (e : Effect) (effs : list Effect) (w : World) :
  after effs 0 (after [e] 0 w) = after (e :: effs) 0 w.
Proof. unfold after. cbn. f_equal. by rewrite <- app_assoc. Qed.

Lemma for_each_log {A} (level event : string) (detail : A → string)
    (xs : list A) (w : World) :
  for_each xs (λ x _, log level event (detail x)) tt w
  = (inr tt, after ((λ x, Log level event (detail x)) <$> xs) 0 w).
Proof.
  revert w. induction xs as [|x xs IH]; intros w.
  - cbn. unfold after, mret, M_ret, ret. cbn. rewrite app_nil_r. by destruct w.
  - cbn [for_each]. erewrite run_bind; [|apply (eq_refl : log _ _ _ w = (inr tt, after [_] 0 w))].
    rewrite IH, after_cons. reflexivity.
Qed.

(** Frame rules. *)
Context {X : Type} (f : World → X).

Lemma keeps_ret {A} (a : A) : keeps f (mret a).
Proof. done. Qed.

Lemma keeps_raise {A} (e : Exn) : keeps f (@raise A e).
Proof. done. Qed.

Lemma keeps_bind {A B} (m : M A) (k : A → M B) :
  keeps f m → (∀ a, keeps f (k a)) → keeps f (m ≫= k).
Proof.
  intros Hm Hk w. unfold mbind, M_bind, bind.
  specialize (Hm w). destruct (m w) as [[e | a] w']; [exact Hm|].
  rewrite Hk. exact Hm.
Qed.

Lemma keeps_try_except {A} (m : M A) (h : Exn → M A) :
  keeps f m → (∀ e, keeps f (h e)) → keeps f (try_except m h).
Proof.
  intros Hm Hh w. unfold try_except.
  specialize (Hm w). destruct (m w) as [[e | a] w']; [|exact Hm].
  rewrite Hh. exact Hm.
Qed.

Lemma keeps_lift {A} (r : Exn + A) : keeps f (lift r).
Proof. by destruct r. Qed.

Lemma keeps_for_each {A S} (body : A → S → M S) (xs : list A) (acc : S) :
  (∀ x acc, keeps f (body x acc)) → keeps f (for_each xs body acc).
Proof.
  intros Hbody. revert acc. induction xs as [|x xs IH]; intros acc.
  - done.
  - cbn [for_each]. apply keeps_bind; auto.
Qed.

Lemma keeps_eq {A} (m : M A) w r w' : keeps f m → m w = (r, w') → f w' = f w.
Proof. intros Hm Hrun. specialize (Hm w). by rewrite Hrun in Hm. Qed.

End Calculus.

(** One step of a frame proof: split a sequence, a handler, a loop or a
    case distinction by the shape of the program, and close the leaves with
    the frame facts at hand. *)
Ltac frame_step :=
  first
    [ lazymatch goal with
      | |- keeps _ (mret _) => apply keeps_ret
      | |- keeps _ (raise _) => apply keeps_raise
      | |- keeps _ (lift _) => apply keeps_lift
      | |- keeps _ (_ ≫= _) => apply keeps_bind; [|intros ?]
      | |- keeps _ (try_except _ _) => apply keeps_try_except; [|intros ?]
      | |- keeps _ (for_each _ _ _) => apply keeps_for_each; intros ? ?
      | |- keeps _ (match ?x with _ => _ end) => destruct x
      end
    | solve [auto]
    | progress unfold log, sleep, db
    | (intros ?; reflexivity) ].

Ltac frame := repeat frame_step.

(** [run tac]: run the first call of a sequence, [tac] giving its result. *)
Ltac run tac :=
  lazymatch goal with
  | |- (?m ≫= ?k) ?w = _ =>
      erewrite (run_bind m k w); [| tac]; cbv beta iota
  end.

Ltac run_raise tac :=
  lazymatch goal with
  | |- (?m ≫= ?k) ?w = _ =>
      erewrite (run_bind_raise m k w); [| tac]; cbv beta iota
  end.

(** [prun tac]: the same on a goal [post (m ≫= k) Q E w]. *)
Ltac prun tac :=
  lazymatch goal with
  | |- post (?m ≫= ?k) _ _ ?w =>
      eapply (post_run m k); [tac |]; cbv beta iota
  end.

(* ================================================================= *)
(** ** What the agents and the loop leave alone *)

Section Frames.
Context (env : Env) {X : Type} (f : World → X).

(** The component [f] of the state is one that the history, the clock, the
    identifier source, the consultation counter and the provider cache do
    not reach. *)
Hypothesis f_emit : ∀ e, keeps f (emit e).
Hypothesis f_utcnow : keeps f utcnow.
Hypothesis f_tick : keeps f tick.
Hypothesis f_draw_uuid : keeps f draw_uuid.
Hypothesis f_cache_provider : ∀ p, keeps f (cache_provider p).

Lemma invoke_with_retry_keeps p s pr attempts :
  keeps f (Gateway.invoke_with_retry env p s pr attempts).
Proof. induction attempts; cbn [Gateway.invoke_with_retry]; frame. Qed.

Lemma new_agent_log_keeps a b c d e g h i j k :
  keeps f (new_agent_log env a b c d e g h i j k).
Proof. unfold new_agent_log. frame. Qed.

#[local] Hint Resolve invoke_with_retry_keeps new_agent_log_keeps : core.

Lemma try_provider_keeps p a b c d : keeps f (Gateway.try_provider env p a b c d).
Proof. unfold Gateway.try_provider, Gateway._get_or_create. frame. Qed.

#[local] Hint Resolve try_provider_keeps : core.

Lemma generate_from_keeps chain last a b c d :
  keeps f (Gateway.generate_from env chain last a b c d).
Proof.
  revert last. induction chain; intros last; cbn [Gateway.generate_from].
  - unfold Gateway.all_providers_failed. frame.
  - frame.
Qed.

Lemma generate_keeps a b c d : keeps f (Gateway.generate env a b c d).
Proof. apply generate_from_keeps. Qed.

(** From here on, [f] is also out of reach of the listener registry and
    of the [agent_logs] table. *)
Hypothesis f_set_event_listeners : ∀ ls, keeps f (set_event_listeners ls).
Hypothesis f_agent_log_append : ∀ l, keeps f (agent_log_append l).

Lemma Plan_init_keeps g v a l : keeps f (Plan_init env g v a l).
Proof. unfold Plan_init. frame. Qed.

#[local] Hint Resolve generate_keeps Plan_init_keeps : core.

Lemma _apply_modifications_keeps plan failed_step data :
  keeps f (Replanner._apply_modifications env plan failed_step data).
Proof.
  unfold Replanner._apply_modifications, Replanner.insert_new. frame.
Qed.

Lemma _simple_retry_keeps plan failed_step :
  keeps f (Replanner._simple_retry env plan failed_step).
Proof. unfold Replanner._simple_retry. frame. Qed.

#[local] Hint Resolve _apply_modifications_keeps _simple_retry_keeps : core.

Lemma replan_keeps plan failed_step evaluation execution_result goal_id :
  keeps f (Replanner.replan env plan failed_step evaluation execution_result goal_id).
Proof. unfold Replanner.replan, Replanner.replan_attempt. frame. Qed.

Import Engine.

Lemma registry_op_keeps op : keeps f (registry_op op).
Proof.
  unfold registry_op, add_event_listener, remove_event_listener. frame.
Qed.

#[local] Hint Resolve registry_op_keeps : core.

Lemma broadcast_event_keeps t g d : keeps f (broadcast_event env t g d).
Proof.
  unfold broadcast_event, StreamEvent_init, _broadcast, call_listener. frame.
Qed.

#[local] Hint Resolve broadcast_event_keeps replan_keeps : core.

Lemma announce_and_execute_keeps plan step goal_id goal_raw_input :
  keeps f (announce_and_execute env plan step goal_id goal_raw_input).
Proof. unfold announce_and_execute. frame. Qed.

Lemma evaluate_step_keeps plan i step exec_result goal_id :
  keeps f (evaluate_step env plan i step exec_result goal_id).
Proof. unfold evaluate_step. frame. Qed.

Lemma on_success_keeps plan i step exec_result goal_id :
  keeps f (on_success env plan i step exec_result goal_id).
Proof. unfold on_success. frame. Qed.

Lemma mark_failed_keeps plan i step evaluation goal_id :
  keeps f (mark_failed env plan i step evaluation goal_id).
Proof. unfold mark_failed. frame. Qed.

Lemma back_to_pending_keeps plan i step evaluation goal_id :
  keeps f (back_to_pending env plan i step evaluation goal_id).
Proof. unfold back_to_pending. frame. Qed.

Lemma replan_and_swap_keeps plan failed_step evaluation exec_result goal_id :
  keeps f (replan_and_swap env plan failed_step evaluation exec_result goal_id).
Proof. unfold replan_and_swap, PlanRepository_create. frame. Qed.

Lemma mark_in_progress_keeps step : keeps f (mark_in_progress step).
Proof. unfold mark_in_progress. frame. Qed.

#[local] Hint Resolve announce_and_execute_keeps evaluate_step_keeps on_success_keeps
  mark_failed_keeps back_to_pending_keeps replan_and_swap_keeps
  mark_in_progress_keeps : core.

Lemma run_sequential_keeps plan i step goal_id goal_raw_input :
  keeps f (run_sequential env plan i step goal_id goal_raw_input).
Proof. unfold run_sequential, count_retry. frame. Qed.

Lemma run_parallel_keeps plan ready goal_id goal_raw_input :
  keeps f (run_parallel env plan ready goal_id goal_raw_input).
Proof.
  unfold run_parallel, start_all, start_single_step, gather, resume_single_step,
    settle_result, count_retry.
  frame.
Qed.

#[local] Hint Resolve run_sequential_keeps run_parallel_keeps : core.

Lemma execute_loop_keeps remaining plan goal_id goal_raw_input :
  keeps f (execute_loop env remaining plan goal_id goal_raw_input).
Proof.
  revert plan. induction remaining as [|n IH]; intros plan; cbn [execute_loop]; frame.
Qed.

End Frames.

(** The execution loop never writes the [goals] table. *)
Lemma _execute_plan_keeps_goals env plan goal_id goal_raw_input :
  keeps goals (Engine._execute_plan env plan goal_id goal_raw_input).
Proof. unfold Engine._execute_plan. apply execute_loop_keeps; done. Qed.

(** [generate] never writes the [agent_logs] table, however it ends. *)
Lemma generate_keeps_agent_logs env a b c d :
  keeps agent_logs (Gateway.generate env a b c d).
Proof. apply generate_keeps; done. Qed.
Section CapabilityGateway.
Import Registry.

(** C6, as the code has it.  A failure of [execute_tool] is one of three
    kinds.  A name that is not registered raises a plain [ValueError]: it
    carries a message and no payload, and the executor's normaliser gives it
    the code [TOOL_EXECUTION_ERROR] of an execution failure.  A registered
    handler that outlives the deadline (or raises [TimeoutError]) raises
    [ToolExecutionError] with the payload [TOOL_TIMEOUT], the component
    [Tool_<name>], the message as trace and a recovery action.  Any other
    fault of a registered handler raises [ToolExecutionError] with a payload
    of the same four fields and the code [TOOL_EXECUTION_ERROR]. *)
Theorem execute_tool_failure_kinds (reg : ToolRegistry) (name : string)
    (params : Payload) (f : ToolFailure) :
  execute_tool reg name params = inl f →
    (dict_get name reg = None ∧
     f = ValueError ("Tool '" +:+ name +:+ "' not found in registry. Available: "
                     +:+ repr_names (list_tool_names reg)) ∧
     failure_payload f = None ∧
     error_code (_normalize_tool_error f) = "TOOL_EXECUTION_ERROR")
    ∨ (∃ tool, dict_get name reg = Some tool ∧
         (handler tool params = Hangs ∨
          ∃ e, handler tool params = Raises e ∧ is_TimeoutError e = true) ∧
         ∃ msg, f = ToolExecutionError msg
                  {| error_code := "TOOL_TIMEOUT"; component := "Tool_" +:+ name;
                     trace := msg;
                     agent_recovery_action := "Switch to alternative tool or replan" |})
    ∨ (∃ tool e, dict_get name reg = Some tool ∧
         handler tool params = Raises e ∧ is_TimeoutError e = false ∧
         f = ToolExecutionError (exn_str e)
               {| error_code := "TOOL_EXECUTION_ERROR"; component := "Tool_" +:+ name;
                  trace := exn_traceback e;
                  agent_recovery_action := "Replanner must generate alternative action." |}).
Proof.
  unfold execute_tool.
  destruct (dict_get name reg) as [tool|] eqn:Hget.
  - destruct (handler tool params) as [v | | e] eqn:Hh; [discriminate | |].
    + intros [= <-]. right; left. exists tool. split; [done|].
      split; [by left|]. eexists. reflexivity.
    + destruct (is_TimeoutError e) eqn:Ht; intros [= <-].
      * right; left. exists tool. split; [done|]. split; [right; eauto|].
        eexists. reflexivity.
      * right; right. exists tool, e. auto.
  - intros [= <-]. left. auto.
Qed.

Lemma execute_tool_failure_kinds_witness :
  ∃ f, execute_tool slow_registry "fetch_study_resources" [] = inl f ∧
       (error_code <$> failure_payload f) = Some "TOOL_TIMEOUT".
Proof.
  eexists. split; [reflexivity|].
  destruct (execute_tool_failure_kinds slow_registry "fetch_study_resources" []
              _ eq_refl) as [(H & _) | [_ | (tool & e & Hg & H & _)]].
  - vm_compute in H. discriminate H.
  - reflexivity.
  - vm_compute in Hg. injection Hg as <-. discriminate H.
Defined.

(** C6 as stated fails: looking up a name that was never registered raises
    a plain [ValueError].  It has no payload, hence no [NOT_FOUND] code, and
    once normalised by the executor it reads [TOOL_EXECUTION_ERROR], the code
    of an execution failure. *)
Lemma execute_tool_unregistered_not_structured :
  execute_tool slow_registry "create_schedule" []
    = inl (ValueError
        "Tool 'create_schedule' not found in registry. Available: ['fetch_study_resources']")
  ∧ failure_payload
      (ValueError
        "Tool 'create_schedule' not found in registry. Available: ['fetch_study_resources']")
    = None
  ∧ error_code (_normalize_tool_error
      (ValueError
        "Tool 'create_schedule' not found in registry. Available: ['fetch_study_resources']"))
    = error_code (_normalize_tool_error
        (execution_failure "create_schedule" (new_exn "KeyError" "subjects"))).
Proof. repeat split. Qed.

End CapabilityGateway.


(* ================================================================= *)
(** ** The named states, component by component *)

Section States.
Context (env : Env).

Lemma emit_eq (e : Effect) (w : World) : emit e w = (inr tt, after [e] 0 w).
Proof. reflexivity. Qed.

Lemma log_eq (level event detail : string) (w : World) :
  log level event detail w = (inr tt, after [Log level event detail] 0 w).
Proof. reflexivity. Qed.

Lemma sleep_eq (seconds : Z) (w : World) :
  sleep seconds w = (inr tt, after [Sleep seconds] 0 w).
Proof. reflexivity. Qed.

Lemma db_eq (op : DbOp) (w : World) : db op w = (inr tt, after [Db op] 0 w).
Proof. reflexivity. Qed.

Lemma utcnow_eq (w : World) : utcnow w = (inr (clock w), later w).
Proof. reflexivity. Qed.

Lemma tick_eq (w : World) : tick w = (inr (ticks w), ticked w).
Proof. reflexivity. Qed.

Lemma draw_uuid_eq (w : World) : draw_uuid w = (inr (uuids w), drawn w).
Proof. reflexivity. Qed.

Lemma history_after (effs : list Effect) (k : nat) (w : World) :
  history (after effs k w) = history w ++ effs.
Proof. reflexivity. Qed.

Lemma history_later (w : World) :
  history (later w) = history w.
Proof. reflexivity. Qed.

Lemma history_ticked (w : World) :
  history (ticked w) = history w.
Proof. reflexivity. Qed.

Lemma history_drawn (w : World) :
  history (drawn w) = history w.
Proof. reflexivity. Qed.

Lemma history_status_written (g : string) (s : GoalStatus) (a : option string)
    (row : Goal) (w : World) :
  history (status_written g s a row w) = history w ++ [Db (GoalUpdateStatus g s a)].
Proof. reflexivity. Qed.

Lemma agent_logs_after (effs : list Effect) (k : nat) (w : World) :
  agent_logs (after effs k w) = agent_logs w.
Proof. reflexivity. Qed.

Lemma agent_logs_later (w : World) :
  agent_logs (later w) = agent_logs w.
Proof. reflexivity. Qed.

Lemma agent_logs_ticked (w : World) :
  agent_logs (ticked w) = agent_logs w.
Proof. reflexivity. Qed.

Lemma agent_logs_drawn (w : World) :
  agent_logs (drawn w) = agent_logs w.
Proof. reflexivity. Qed.

Lemma agent_logs_status_written (g : string) (s : GoalStatus) (a : option string)
    (row : Goal) (w : World) :
  agent_logs (status_written g s a row w) = agent_logs w.
Proof. reflexivity. Qed.

Lemma goals_after (effs : list Effect) (k : nat) (w : World) :
  goals (after effs k w) = goals w.
Proof. reflexivity. Qed.

Lemma goals_later (w : World) :
  goals (later w) = goals w.
Proof. reflexivity. Qed.

Lemma goals_ticked (w : World) :
  goals (ticked w) = goals w.
Proof. reflexivity. Qed.

Lemma goals_drawn (w : World) :
  goals (drawn w) = goals w.
Proof. reflexivity. Qed.

Lemma goals_status_written (g : string) (s : GoalStatus) (a : option string)
    (row : Goal) (w : World) :
  goals (status_written g s a row w)
  = Engine.write_goal g (Engine.with_status s a row) (goals w).
Proof. reflexivity. Qed.

Lemma event_listeners_after (effs : list Effect) (k : nat) (w : World) :
  event_listeners (after effs k w) = event_listeners w.
Proof. reflexivity. Qed.

Lemma event_listeners_later (w : World) :
  event_listeners (later w) = event_listeners w.
Proof. reflexivity. Qed.

Lemma event_listeners_ticked (w : World) :
  event_listeners (ticked w) = event_listeners w.
Proof. reflexivity. Qed.

Lemma event_listeners_drawn (w : World) :
  event_listeners (drawn w) = event_listeners w.
Proof. reflexivity. Qed.

Lemma event_listeners_status_written (g : string) (s : GoalStatus) (a : option string)
    (row : Goal) (w : World) :
  event_listeners (status_written g s a row w) = event_listeners w.
Proof. reflexivity. Qed.

Lemma providers_after (effs : list Effect) (k : nat) (w : World) :
  providers (after effs k w) = providers w.
Proof. reflexivity. Qed.

Lemma providers_later (w : World) :
  providers (later w) = providers w.
Proof. reflexivity. Qed.

Lemma providers_ticked (w : World) :
  providers (ticked w) = providers w.
Proof. reflexivity. Qed.

Lemma providers_drawn (w : World) :
  providers (drawn w) = providers w.
Proof. reflexivity. Qed.

Lemma providers_status_written (g : string) (s : GoalStatus) (a : option string)
    (row : Goal) (w : World) :
  providers (status_written g s a row w) = providers w.
Proof. reflexivity. Qed.

Lemma clock_after (effs : list Effect) (k : nat) (w : World) :
  clock (after effs k w) = clock w.
Proof. reflexivity. Qed.

Lemma clock_later (w : World) :
  clock (later w) = S (clock w).
Proof. reflexivity. Qed.

Lemma clock_ticked (w : World) :
  clock (ticked w) = clock w.
Proof. reflexivity. Qed.

Lemma clock_drawn (w : World) :
  clock (drawn w) = clock w.
Proof. reflexivity. Qed.

Lemma clock_status_written (g : string) (s : GoalStatus) (a : option string)
    (row : Goal) (w : World) :
  clock (status_written g s a row w) = clock w.
Proof. reflexivity. Qed.

Lemma uuids_after (effs : list Effect) (k : nat) (w : World) :
  uuids (after effs k w) = uuids w.
Proof. reflexivity. Qed.

Lemma uuids_later (w : World) :
  uuids (later w) = uuids w.
Proof. reflexivity. Qed.

Lemma uuids_ticked (w : World) :
  uuids (ticked w) = uuids w.
Proof. reflexivity. Qed.

Lemma uuids_drawn (w : World) :
  uuids (drawn w) = S (uuids w).
Proof. reflexivity. Qed.

Lemma uuids_status_written (g : string) (s : GoalStatus) (a : option string)
    (row : Goal) (w : World) :
  uuids (status_written g s a row w) = uuids w.
Proof. reflexivity. Qed.

Lemma ticks_after (effs : list Effect) (k : nat) (w : World) :
  ticks (after effs k w) = (k + ticks w)%nat.
Proof. reflexivity. Qed.

Lemma ticks_later (w : World) :
  ticks (later w) = ticks w.
Proof. reflexivity. Qed.

Lemma ticks_ticked (w : World) :
  ticks (ticked w) = S (ticks w).
Proof. reflexivity. Qed.

Lemma ticks_drawn (w : World) :
  ticks (drawn w) = ticks w.
Proof. reflexivity. Qed.

Lemma ticks_status_written (g : string) (s : GoalStatus) (a : option string)
    (row : Goal) (w : World) :
  ticks (status_written g s a row w) = ticks w.
Proof. reflexivity. Qed.

End States.

Create Rewrite HintDb world.
#[global] Hint Rewrite
  history_after history_later history_ticked history_drawn
  history_status_written agent_logs_after agent_logs_later agent_logs_ticked
  agent_logs_drawn agent_logs_status_written goals_after goals_later
  goals_ticked goals_drawn goals_status_written event_listeners_after
  event_listeners_later event_listeners_ticked event_listeners_drawn event_listeners_status_written
  providers_after providers_later providers_ticked providers_drawn
  providers_status_written clock_after clock_later clock_ticked
  clock_drawn clock_status_written uuids_after uuids_later
  uuids_ticked uuids_drawn uuids_status_written ticks_after
  ticks_later ticks_ticked ticks_drawn ticks_status_written
  : world.
(* ================================================================= *)
(** ** Properties of the generation gateway *)

Section GatewayProperties.
Import Gateway.
Context (env : Env).

Lemma invoke_with_retry_step (p : LLMProvider) (system prompt : string)
    (attempt : Z) (rest : list Z) (w : World) :
  invoke_with_retry env p system prompt (attempt :: rest) w =
  let w1 := after [LLMInvoke p attempt] 1 w in
  match ainvoke env (ticks w) p system prompt with
  | inr response => (inr (Some response), w1)
  | inl e =>
      if rate_limited e && (attempt <? 2) then
        invoke_with_retry env p system prompt rest
          (after [Sleep (5 * (attempt + 1))] 0
             (after [Log "warning" "rate_limit_hit" (LLMProvider_value p)] 0 w1))
      else (inl e, w1)
  end.
Proof.
  cbn [invoke_with_retry].
  unfold mbind, M_bind, bind, tick, emit. cbn.
  destruct (ainvoke env (ticks w) p system prompt) as [e | r]; [|reflexivity].
  destruct (rate_limited e); [|reflexivity].
  change (invoke_max_retries - 1) with 2.
  destruct (attempt <? 2); reflexivity.
Qed.

Lemma invoke_with_retry_shape (p : LLMProvider) (system prompt : string) (w : World) :
  ∃ (n : nat) (δ : list Effect) (w' : World) r,
    invoke_with_retry env p system prompt (range invoke_max_retries) w = (r, w')
    ∧ history w' = history w ++ δ
    ∧ agent_logs w' = agent_logs w
    ∧ (1 ≤ n ≤ 3)%nat
    ∧ invokes_of δ = (λ k, (p, Z.of_nat k)) <$> seq 0 n
    ∧ sleeps_of δ = backoff_schedule n
    ∧ (∀ k, (k < n - 1)%nat →
         ∃ e, ainvoke env (k + ticks w)%nat p system prompt = inl e
              ∧ rate_limited e = true)
    ∧ match ainvoke env ((n - 1) + ticks w)%nat p system prompt with
      | inr response => r = inr (Some response)
      | inl e => r = inl e ∧ (rate_limited e = false ∨ n = 3%nat)
      end.
Proof.
  change (range invoke_max_retries) with [0; 1; 2].
  rewrite invoke_with_retry_step. cbv zeta.
  destruct (ainvoke env (0 + ticks w)%nat p system prompt) as [e0 | r0] eqn:H0;
    cbn [Nat.add] in H0; rewrite H0.
  2:{ exists 1%nat, [LLMInvoke p 0]. do 2 eexists. split; [reflexivity|].
      cbn. rewrite H0. repeat split; (lia || auto). }
  destruct (rate_limited e0) eqn:R0; cbn [andb Z.ltb Z.compare].
  2:{ exists 1%nat, [LLMInvoke p 0]. do 2 eexists. split; [reflexivity|].
      cbn. rewrite H0. repeat split; (lia || auto). }
  rewrite invoke_with_retry_step. cbv zeta. cbn [after ticks Nat.add].
  destruct (ainvoke env (1 + ticks w)%nat p system prompt) as [e1 | r1] eqn:H1;
    cbn [Nat.add] in H1; rewrite H1.
  2:{ exists 2%nat. do 3 eexists. split; [reflexivity|].
      cbn. rewrite H1, <- !app_assoc. split; [reflexivity|].
      repeat split; try (lia || auto).
      intros k Hk. assert (k = 0)%nat as -> by lia. eauto. }
  destruct (rate_limited e1) eqn:R1; cbn [andb Z.ltb Z.compare].
  2:{ exists 2%nat. do 3 eexists. split; [reflexivity|].
      cbn. rewrite H1, <- !app_assoc. split; [reflexivity|].
      repeat split; try (lia || auto).
      intros k Hk. assert (k = 0)%nat as -> by lia. eauto. }
  rewrite invoke_with_retry_step. cbv zeta. cbn [after ticks Nat.add].
  exists 3%nat.
  destruct (ainvoke env (2 + ticks w)%nat p system prompt) as [e2 | r2] eqn:H2;
    cbn [Nat.add] in H2; rewrite H2.
  - assert (rate_limited e2 && (2 <? 2) = false) as -> by apply andb_false_r.
    do 3 eexists. split; [reflexivity|].
    cbn. rewrite H2, <- !app_assoc. split; [reflexivity|].
    repeat split; try (lia || auto).
    intros k Hk. assert (k = 0 ∨ k = 1)%nat as [-> | ->] by lia; eauto.
  - do 3 eexists. split; [reflexivity|].
    cbn. rewrite H2, <- !app_assoc. split; [reflexivity|].
    repeat split; try (lia || auto).
    intros k Hk. assert (k = 0 ∨ k = 1)%nat as [-> | ->] by lia; eauto.
Qed.

Lemma invokes_of_app h1 h2 : invokes_of (h1 ++ h2) = invokes_of h1 ++ invokes_of h2.
Proof. apply omap_app. Qed.

Lemma sleeps_of_app h1 h2 : sleeps_of (h1 ++ h2) = sleeps_of h1 ++ sleeps_of h2.
Proof. apply omap_app. Qed.

Lemma _get_or_create_cases (p : LLMProvider) (w : World) :
  (∃ e, _get_or_create env p w = (inl e, w))
  ∨ (∃ w0, _get_or_create env p w = (inr tt, w0)
           ∧ history w0 = history w ∧ agent_logs w0 = agent_logs w
           ∧ ticks w0 = ticks w).
Proof.
  unfold _get_or_create, mbind, M_bind, bind, get_providers.
  destruct (bool_decide (p ∈ providers w)).
  - right. exists w. auto.
  - destruct (_create_provider env p) as [e|].
    + left. exists e. reflexivity.
    + right. eexists. split; [reflexivity|]. auto.
Qed.

Lemma try_provider_shape (p : LLMProvider) (prompt system goal_id agent_type : string)
    (w : World) :
  ∃ (n : nat) (δ : list Effect) (w' : World) r,
    try_provider env p prompt system goal_id agent_type w = (r, w')
    ∧ history w' = history w ++ δ
    ∧ agent_logs w' = agent_logs w
    ∧ (n ≤ 3)%nat
    ∧ invokes_of δ = (λ k, (p, Z.of_nat k)) <$> seq 0 n
    ∧ sleeps_of δ = (if decide (n = 0%nat) then [] else proactive_delay p ++ backoff_schedule n)
    ∧ (∀ k, (k < n - 1)%nat →
         ∃ e, ainvoke env (k + ticks w)%nat p system prompt = inl e
              ∧ rate_limited e = true)
    ∧ (n ≠ 0%nat →
       match ainvoke env ((n - 1) + ticks w)%nat p system prompt with
       | inr response => ∃ l, r = inr (content response, l)
       | inl e => r = inl e ∧ (rate_limited e = false ∨ n = 3%nat)
       end)
    ∧ (n = 0%nat → ∃ e, _create_provider env p = Some e ∧ r = inl e).
Proof.
  unfold try_provider.
  unfold mbind at 1. unfold M_bind at 1. unfold bind at 1.
  destruct (_get_or_create_cases p w) as [[e He] | (w0 & Hw0 & Hh & Hl & Ht)].
  { exists 0%nat, [], w, (inl e). rewrite He.
    split; [reflexivity|]. rewrite app_nil_r.
    repeat split; try (lia || auto); try (intros; lia).
    intros _. exists e. split; [|reflexivity].
    revert He. unfold _get_or_create, mbind, M_bind, bind, get_providers.
    destruct (bool_decide (p ∈ providers w)); [discriminate|].
    destruct (_create_provider env p); [|discriminate].
    by intros [= ->]. }
  rewrite Hw0.
  set (w1 := snd ((if bool_decide (p = GEMINI) then sleep 4 else mret tt) w0)).
  assert (Hw1 : history w1 = history w ++ (Sleep <$> proactive_delay p)
                ∧ agent_logs w1 = agent_logs w ∧ ticks w1 = ticks w).
  { subst w1. unfold proactive_delay, sleep, emit, mret, M_ret, ret.
    destruct (bool_decide (p = GEMINI)); cbn; rewrite ?app_nil_r, Hh, Hl, Ht; auto. }
  destruct Hw1 as (Hh1 & Hl1 & Ht1).
  destruct (invoke_with_retry_shape p system prompt w1)
    as (n & δ & w2 & r & Hrun & Hh2 & Hl2 & Hn & Hinv & Hsl & Hrl & Hfin).
  rewrite Ht1 in Hrl, Hfin.
  assert (Hsleep : sleeps_of ((Sleep <$> proactive_delay p) ++ δ)
                   = proactive_delay p ++ backoff_schedule n).
  { rewrite sleeps_of_app, Hsl. f_equal. unfold proactive_delay.
    by destruct (bool_decide (p = GEMINI)). }
  assert (Hinvk : invokes_of ((Sleep <$> proactive_delay p) ++ δ)
                  = (λ k, (p, Z.of_nat k)) <$> seq 0 n).
  { rewrite invokes_of_app, Hinv. unfold proactive_delay.
    by destruct (bool_decide (p = GEMINI)). }
  exists n.
  destruct r as [e | response].
  - exists ((Sleep <$> proactive_delay p) ++ δ), w2, (inl e).
    split.
    { unfold mbind, M_bind, bind.
      assert (E : ∀ w, (if bool_decide (p = GEMINI) then sleep 4 else mret tt) w
                  = (inr tt, snd ((if bool_decide (p = GEMINI) then sleep 4 else mret tt) w))).
      { intros w3. by destruct (bool_decide (p = GEMINI)). }
      rewrite E. fold w1. rewrite Hrun. reflexivity. }
    rewrite Hh2, Hh1, Hl2, Hl1, <- app_assoc.
    repeat split; try (lia || auto).
    + destruct (decide (n = 0%nat)); [lia | done].
    + intros _. destruct (ainvoke env (n - 1 + ticks w)%nat p system prompt);
        [destruct Hfin as [[= ->] ?]; auto|discriminate Hfin].
  - eexists ((Sleep <$> proactive_delay p) ++ δ ++ [_]), _, _.
    split.
    { unfold mbind, M_bind, bind.
      assert (E : ∀ w, (if bool_decide (p = GEMINI) then sleep 4 else mret tt) w
                  = (inr tt, snd ((if bool_decide (p = GEMINI) then sleep 4 else mret tt) w))).
      { intros w3. by destruct (bool_decide (p = GEMINI)). }
      rewrite E. fold w1. rewrite Hrun.
      unfold new_agent_log, mbind, M_bind, bind, get_ticks, draw_uuid, utcnow, log,
        emit, mret, M_ret, ret.
      cbn. reflexivity. }
    cbn [history agent_logs]. rewrite Hh2, Hh1, Hl2, Hl1, <- !app_assoc.
    split; [reflexivity|].
    rewrite app_assoc, invokes_of_app, sleeps_of_app, Hinvk, Hsleep.
    cbn [invokes_of sleeps_of omap]. rewrite !app_nil_r.
    repeat split; try (lia || auto).
    + destruct (decide (n = 0%nat)); [lia | done].
    + intros _. destruct (ainvoke env (n - 1 + ticks w)%nat p system prompt);
        [destruct Hfin; discriminate|].
      injection Hfin as ->. eauto.
Qed.


(** When [generate] fails, its error is the aggregate [RuntimeError] whose
    message ends in the detail of the error of the last provider tried. *)
Lemma generate_from_failure_detail (front : list LLMProvider) (p : LLMProvider)
    (last_error : option Exn) (prompt system goal_id agent_type : string)
    (w w' : World) (e : Exn) :
  generate_from env (front ++ [p]) last_error prompt system goal_id agent_type w
    = (inl e, w') →
  ∃ w1 w2 e_last,
    try_provider env p prompt system goal_id agent_type w1 = (inl e_last, w2)
    ∧ e = new_exn "RuntimeError"
            ("All LLM providers failed. Last error: " +:+ error_detail e_last).
Proof.
  revert last_error w. induction front as [|q front IH]; intros last_error w.
  - cbn [app generate_from]. unfold try_except.
    destruct (try_provider env p prompt system goal_id agent_type w)
      as [[e1 | res] w1] eqn:Hrun; [|discriminate].
    unfold all_providers_failed, new_agent_log, mbind, M_bind, bind, log, emit,
      draw_uuid, utcnow, mret, M_ret, ret, raise.
    cbn beta iota. intros [= <- _]. eauto.
  - cbn [app generate_from]. unfold try_except.
    destruct (try_provider env q prompt system goal_id agent_type w)
      as [[e1 | res] w1] eqn:Hrun; [|discriminate].
    unfold mbind, M_bind, bind, log, emit. cbn beta iota. apply IH.
Qed.

(** C5, as the code behaves.  When [generate] fails, every provider of the
    chain has failed: the error raised is the aggregate [RuntimeError], and
    its message ends in the detail of the error of the last provider of the
    chain.  The [agent_logs] table is then as it was before the call: the
    [AgentLog] that [generate] builds with the error is not recorded. *)
Theorem generate_failure_drops_agent_log (prompt system goal_id agent_type : string)
    (w w' : World) (e : Exn) :
  generate env prompt system goal_id agent_type w = (inl e, w') →
  (∃ w1 w2 e_last,
     try_provider env (llm_tertiary_provider (settings env)) prompt system goal_id
       agent_type w1 = (inl e_last, w2)
     ∧ e = new_exn "RuntimeError"
             ("All LLM providers failed. Last error: " +:+ error_detail e_last))
  ∧ agent_logs w' = agent_logs w.
Proof.
  intros Hrun. split.
  - exact (generate_from_failure_detail
             [llm_primary_provider (settings env);
              llm_fallback_provider (settings env)]
             (llm_tertiary_provider (settings env)) None prompt system goal_id
             agent_type w w' e Hrun).
  - exact (keeps_eq agent_logs _ w (inl e) w'
             (generate_keeps_agent_logs env prompt system goal_id agent_type) Hrun).
Qed.

End GatewayProperties.

(* ================================================================= *)
(** ** Properties of the event bus *)

Section EventBus.
Import Engine.
Context (env : Env).

Lemma registry_ops_quiet (ops : list RegistryOp) (w : World) :
  ∃ w', for_each ops (λ op _, registry_op op) tt w = (inr tt, w')
        ∧ history w' = history w ∧ quiet_part w' = quiet_part w.
Proof.
  revert w. induction ops as [|op ops IH]; intros w.
  - exists w. done.
  - cbn [for_each]. unfold mbind, M_bind, bind.
    assert (∃ w1, registry_op op w = (inr tt, w1)
                  ∧ history w1 = history w ∧ quiet_part w1 = quiet_part w)
      as (w1 & -> & Hh & Hq).
    { destruct op as [l | l]; cbn [registry_op].
      - eexists. split; [reflexivity|]. done.
      - unfold remove_event_listener, mbind, M_bind, bind, get_event_listeners.
        destruct (bool_decide (l ∈ event_listeners w)); eexists;
          (split; [reflexivity|]); done. }
    destruct (IH w1) as (w' & -> & Hh' & Hq').
    exists w'. split; [done|]. split; congruence.
Qed.

Lemma guarded_listener (event : StreamEvent) (listener : nat) (w : World) :
  ∃ w', try_except (call_listener env listener event)
          (λ e, log "warning" "broadcast_error" (exn_str e)) w = (inr tt, w')
        ∧ history w' = history w ++ delivery env event listener
        ∧ quiet_part w' = quiet_part w.
Proof.
  unfold try_except, call_listener, delivery.
  unfold mbind at 1. unfold M_bind at 1. unfold bind at 1. cbn [emit].
  unfold mbind at 1. unfold M_bind at 1. unfold bind at 1.
  match goal with
  | |- context [for_each ?ops _ tt ?w0] =>
      destruct (registry_ops_quiet ops w0) as (w1 & -> & Hh & Hq)
  end.
  cbn [history] in Hh.
  destruct (fault (listener_run env listener event)) as [e|].
  - eexists. split; [reflexivity|]. cbn. rewrite Hh, <- app_assoc. done.
  - eexists. split; [reflexivity|]. rewrite Hh. done.
Qed.

Lemma broadcast_loop (event : StreamEvent) (listeners : list nat) (w : World) :
  ∃ w', for_each listeners
          (λ listener _,
             try_except (call_listener env listener event)
               (λ e, log "warning" "broadcast_error" (exn_str e))) tt w
        = (inr tt, w')
        ∧ history w' = history w ++ (listeners ≫= delivery env event)
        ∧ quiet_part w' = quiet_part w.
Proof.
  revert w. induction listeners as [|l ls IH]; intros w.
  - exists w. cbn. by rewrite app_nil_r.
  - cbn [for_each]. unfold mbind at 1. unfold M_bind at 1. unfold bind at 1.
    destruct (guarded_listener event l w) as (w1 & -> & Hh & Hq).
    destruct (IH w1) as (w' & -> & Hh' & Hq').
    exists w'. split; [done|]. split; [|congruence].
    rewrite Hh', Hh, <- app_assoc. done.
Qed.

Lemma _broadcast_spec (event : StreamEvent) (w : World) :
  ∃ w', _broadcast env event w = (inr tt, w')
        ∧ history w' = history w ++ Broadcast event
                         :: (event_listeners w ≫= delivery env event)
        ∧ quiet_part w' = quiet_part w.
Proof.
  unfold _broadcast, mbind, M_bind, bind. cbn [emit get_event_listeners].
  match goal with
  | |- context [for_each ?ls _ tt ?w0] =>
      destruct (broadcast_loop event ls w0) as (w' & -> & Hh & Hq)
  end.
  exists w'. split; [done|]. split; [|exact Hq].
  rewrite Hh. cbn [history event_listeners]. by rewrite <- app_assoc.
Qed.

Lemma deliveries_of_delivery (event : StreamEvent) (listeners : list nat) :
  deliveries_of (listeners ≫= delivery env event) = (λ l, (l, event)) <$> listeners.
Proof.
  induction listeners as [|l ls IH]; [done|].
  cbn. unfold delivery at 1.
  destruct (fault (listener_run env l event)); cbn; by rewrite <- IH.
Qed.

(** C10.  [_broadcast] returns without raising.  It hands the event, once
    and in order, to the listeners that were registered when it was called,
    and to no other: what a listener (or anyone else) registers or removes
    during the broadcast does not change who receives the event.  A listener
    that raises leaves a [broadcast_error] warning, and the listeners after
    it still receive the event. *)
Theorem broadcast_delivers_to_snapshot (event : StreamEvent) (w : World) :
  ∃ w' δ,
    _broadcast env event w = (inr tt, w')
    ∧ history w' = history w ++ δ
    ∧ δ = Broadcast event :: (event_listeners w ≫= delivery env event)
    ∧ deliveries_of δ = (λ l, (l, event)) <$> event_listeners w
    ∧ (∀ l, Deliver l event ∈ δ ↔ l ∈ event_listeners w)
    ∧ (∀ l e, l ∈ event_listeners w →
         fault (listener_run env l event) = Some e →
         Log "warning" "broadcast_error" (exn_str e) ∈ δ).
Proof.
  destruct (_broadcast_spec event w) as (w' & Hrun & Hh & _).
  exists w', (Broadcast event :: (event_listeners w ≫= delivery env event)).
  split; [exact Hrun|]. split; [exact Hh|]. split; [done|].
  split; [apply (deliveries_of_delivery event)|]. split.
  - intros l. rewrite elem_of_cons, list_elem_of_bind. split.
    + intros [[=] | (l' & Hin & Hl')]. unfold delivery in Hin.
      apply elem_of_cons in Hin as [[= -> ] | Hin]; [done|].
      destruct (fault (listener_run env l' event)); [|by apply elem_of_nil in Hin].
      apply list_elem_of_singleton in Hin. discriminate.
    + intros Hl. right. exists l. split; [left|done].
  - intros l e Hl Hf. right. apply list_elem_of_bind. exists l. split; [|done].
    unfold delivery. rewrite Hf. right. left.
Qed.

Lemma broadcast_event_eq (event_type goal_id : string)
    (data : list (string * EventValue)) (w : World) :
  broadcast_event env event_type goal_id data w
  = (inr tt, published env event_type goal_id data w).
Proof.
  unfold published, broadcast_event, StreamEvent_init, mbind, M_bind, bind,
    mret, M_ret, ret.
  cbn [utcnow].
  match goal with
  | |- context [_broadcast env ?ev ?w0] =>
      destruct (_broadcast_spec ev w0) as (w' & -> & _)
  end.
  reflexivity.
Qed.

Lemma published_history (event_type goal_id : string)
    (data : list (string * EventValue)) (w : World) :
  history (published env event_type goal_id data w)
  = history w
      ++ Broadcast (mkStreamEvent event_type goal_id data (clock w))
      :: (event_listeners w
          ≫= delivery env (mkStreamEvent event_type goal_id data (clock w))).
Proof.
  unfold published, broadcast_event, StreamEvent_init, mbind, M_bind, bind,
    mret, M_ret, ret.
  cbn [utcnow].
  match goal with
  | |- context [_broadcast env ?ev ?w0] =>
      destruct (_broadcast_spec ev w0) as (w' & -> & Hh & _)
  end.
  exact Hh.
Qed.

Lemma published_quiet (event_type goal_id : string)
    (data : list (string * EventValue)) (w : World) :
  agent_logs (published env event_type goal_id data w) = agent_logs w
  ∧ goals (published env event_type goal_id data w) = goals w
  ∧ providers (published env event_type goal_id data w) = providers w
  ∧ clock (published env event_type goal_id data w) = S (clock w)
  ∧ uuids (published env event_type goal_id data w) = uuids w
  ∧ ticks (published env event_type goal_id data w) = ticks w.
Proof.
  unfold published, broadcast_event, StreamEvent_init, mbind, M_bind, bind,
    mret, M_ret, ret.
  cbn [utcnow].
  match goal with
  | |- context [_broadcast env ?ev ?w0] =>
      destruct (_broadcast_spec ev w0) as (w' & -> & _ & Hq)
  end.
  cbn [snd]. unfold quiet_part in Hq. cbn in Hq.
  injection Hq as E1 E2 E3 E4 E5 E6. repeat split; assumption.
Qed.

Lemma published_goals t g d w : goals (published env t g d w) = goals w.
Proof. apply published_quiet. Qed.
Lemma published_agent_logs t g d w :
  agent_logs (published env t g d w) = agent_logs w.
Proof. apply published_quiet. Qed.
Lemma published_clock t g d w : clock (published env t g d w) = S (clock w).
Proof. apply published_quiet. Qed.
Lemma published_uuids t g d w : uuids (published env t g d w) = uuids w.
Proof. apply published_quiet. Qed.
Lemma published_ticks t g d w : ticks (published env t g d w) = ticks w.
Proof. apply published_quiet. Qed.

End EventBus.

#[global] Hint Rewrite published_history published_goals published_agent_logs
  published_clock published_uuids published_ticks : world.

(* ================================================================= *)
(** ** Properties of goal processing *)

Section GoalProcessing.
Import Engine.
Context (env : Env).

Lemma select_goal_id (goal_id : string) (rows : list Goal) (row : Goal) :
  select_goal goal_id rows = Some row → goal_id_of row = goal_id.
Proof.
  intros H. apply find_some in H as [_ H]. by apply String.eqb_eq.
Qed.

Lemma select_write_goal (goal_id : string) (rows : list Goal) (row row' : Goal) :
  select_goal goal_id rows = Some row →
  goal_id_of row' = goal_id →
  select_goal goal_id (write_goal goal_id row' rows) = Some row'.
Proof.
  intros Hrow Hid. unfold select_goal, write_goal in *.
  induction rows as [|g rows IH]; [done|].
  cbn in *. destruct (String.eqb (goal_id_of g) goal_id) eqn:E.
  - by rewrite Hid, String.eqb_refl.
  - rewrite E. auto.
Qed.

Lemma select_with_status (goal_id : string) (rows : list Goal) (row : Goal)
    (s : GoalStatus) (a : option string) :
  select_goal goal_id rows = Some row →
  select_goal goal_id (write_goal goal_id (with_status s a row) rows)
  = Some (with_status s a row).
Proof.
  intros Hrow. eapply select_write_goal; [exact Hrow|].
  cbn. by eapply select_goal_id.
Qed.

Lemma update_status_found (goal_id : string) (s : GoalStatus)
    (active_plan : option string) (row : Goal) (w : World) :
  select_goal goal_id (goals w) = Some row →
  (update_status goal_id s active_plan ≫= attr) w
  = (inr (with_status s active_plan row),
     status_written goal_id s active_plan row w).
Proof.
  intros Hrow. unfold update_status, mbind, M_bind, bind, db, emit, get_goals.
  cbn -[select_goal write_goal]. rewrite Hrow. reflexivity.
Qed.

Lemma broadcasts_of_app h1 h2 :
  broadcasts_of (h1 ++ h2) = broadcasts_of h1 ++ broadcasts_of h2.
Proof. apply omap_app. Qed.

Lemma broadcasts_of_delivery (event : StreamEvent) (listeners : list nat) :
  broadcasts_of (listeners ≫= delivery env event) = [].
Proof.
  induction listeners as [|l ls IH]; [done|].
  rewrite bind_cons, broadcasts_of_app, IH. unfold delivery.
  by destruct (fault (listener_run env l event)).
Qed.

Lemma no_agent_call_delivery (event : StreamEvent) (listeners : list nat) :
  filter (λ e, is_agent_call e = true) (listeners ≫= delivery env event) = [].
Proof.
  induction listeners as [|l ls IH]; [done|].
  rewrite bind_cons, filter_app, IH. unfold delivery.
  by destruct (fault (listener_run env l event)).
Qed.

Lemma broadcasts_of_cons_event ev h :
  broadcasts_of (Broadcast ev :: h) = event_type ev :: broadcasts_of h.
Proof. reflexivity. Qed.

(** C4, as the code behaves.  A goal whose text holds [DEMO-SAFE-001] in
    any letter case takes the demo branch, which calls no planner, executor,
    evaluator or model.  The branch does not reach its mock plan: the
    first [Step(...)] lacks the required [description] and
    [expected_outcome], the validation error lands in the [except] clause,
    and the goal ends [failed] with an [error] event. *)
Theorem demo_safe_mode_ends_failed (goal row : Goal) (w : World) :
  contains "DEMO-SAFE-001" (upper (raw_input goal)) = true →
  select_goal (goal_id_of goal) (goals w) = Some row →
  ∃ w' δ,
    process_goal env goal w = (inr (with_status GOAL_FAILED None row), w')
    ∧ history w' = history w ++ δ
    ∧ broadcasts_of δ = ["goal_status"; "error"]
    ∧ filter (λ e, is_agent_call e = true) δ = []
    ∧ select_goal (goal_id_of goal) (goals w')
      = Some (with_status GOAL_FAILED None row).
Proof.
  intros Hdemo Hrow. eexists. eexists. split.
  { unfold process_goal. rewrite Hdemo.
    run ltac:(apply log_eq).
    erewrite run_try_raises.
    2:{ unfold demo_safe_mode.
        run ltac:(apply log_eq).
        run ltac:(apply update_status_found; exact Hrow).
        run ltac:(apply broadcast_event_eq).
        apply run_bind_raise. reflexivity. }
    unfold on_error.
    run ltac:(reflexivity).
    run ltac:(autorewrite with world;
              rewrite (select_with_status _ _ _ _ _ Hrow); reflexivity).
    run ltac:(apply log_eq).
    run ltac:(apply update_status_found; autorewrite with world;
              apply select_with_status; exact Hrow).
    run ltac:(apply broadcast_event_eq).
    reflexivity. }
  autorewrite with world. rewrite <- !app_assoc.
  split; [reflexivity|].
  split; [|split];
    [| |apply (select_with_status _ _ (with_status PLANNING None row));
        by apply select_with_status].
  - repeat (rewrite broadcasts_of_app || rewrite broadcasts_of_cons_event
            || rewrite broadcasts_of_delivery).
    reflexivity.
  - repeat (rewrite filter_app || rewrite filter_cons
            || rewrite no_agent_call_delivery).
    reflexivity.
Qed.

End GoalProcessing.

(* ================================================================= *)
(** ** Properties of the replanner *)

Section ReplannerProperties.
Import Replanner.
Context (env : Env).

Lemma Plan_init_eq (goal_id : string) (version : Z) (is_active : bool)
    (steps : list Step) (w : World) :
  Plan_init env goal_id version is_active steps w
  = (inr (mkPlan (uuid4 env (uuids w)) goal_id version is_active steps (clock w)),
     later (drawn w)).
Proof. reflexivity. Qed.

Lemma _simple_retry_eq (plan : Plan) (failed_step : Step) (w : World) :
  _simple_retry env plan failed_step w
  = (inr (mkPlan (uuid4 env (uuids w)) (goal_id plan) (version plan + 1) true
            (retry_or_cap failed_step <$> steps plan) (clock w)),
     later (drawn (after ((λ s, Log "warning" "replanner_hard_cap_reached" (step_id s))
                            <$> filter (λ s, hard_capped failed_step s = true)
                                  (steps plan)) 0 w))).
Proof.
  unfold _simple_retry.
  erewrite run_bind; [|apply for_each_log]. cbv beta.
  rewrite Plan_init_eq. reflexivity.
Qed.

Lemma copy_steps_Forall2 (f : Step → Exn + Step) (l l' : list Step) :
  copy_steps f l = inr l' → Forall2 (λ s s', f s = inr s') l l'.
Proof.
  revert l'. induction l as [|s l IH]; intros l'; cbn.
  - intros [= <-]. constructor.
  - destruct (f s) as [e | s'] eqn:Hs; [discriminate|].
    destruct (copy_steps f l) as [e | r]; [discriminate|].
    intros [= <-]. constructor; auto.
Qed.

Lemma copy_existing_untouched by_id (strategy : string) (failed_step s s' : Step) :
  status s = COMPLETED → step_id s ≠ step_id failed_step →
  copy_existing by_id strategy failed_step s = inr s' → s' = s.
Proof.
  intros Hst Hid. unfold copy_existing.
  assert (String.eqb (step_id s) (step_id failed_step) = false) as ->
    by by apply String.eqb_neq.
  rewrite Hst. cbn.
  destruct (dict_get (step_id s) by_id); by intros [= <-].
Qed.

Lemma reset_failed_other (failed_step : Step) (ids : list string) (s : Step) :
  step_id s ≠ step_id failed_step → reset_failed failed_step ids s = s.
Proof.
  intros Hid. unfold reset_failed.
  by rewrite (proj2 (String.eqb_neq _ _) Hid).
Qed.


(** The insert loop only appends to the copied steps. *)
Lemma insert_loop_appends (strategy : string) (failed_step : Step)
    (modified_steps : list ModifiedStep) (base : list Step) (ids : list string)
    (w : World) :
  post (for_each modified_steps (insert_new env strategy failed_step) (base, ids))
    (λ acc _, ∃ added, fst acc = base ++ added) (λ _ _, True) w.
Proof.
  eapply post_mono.
  - apply (post_for_each (λ acc _, ∃ added, fst acc = base ++ added) (λ _ _, True)).
    + intros ms [new_steps inserted] w0 _ [added Hadd]. cbn in Hadd. subst new_steps.
      unfold insert_new.
      destruct (default false (ms_is_new ms)).
      * apply post_bind. cbn [post draw_uuid].
        destruct (StepPriority_call _) as [e | prio]; [done|].
        destruct (Step_init _) as [e | new_step]; [done|].
        cbn. exists (added ++ [new_step]). by rewrite app_assoc.
      * cbn. eauto.
    + exists []. by rewrite app_nil_r.
  - auto.
  - auto.
Qed.

Lemma _apply_modifications_returns (old_plan : Plan) (failed_step : Step)
    (replan_data : ReplanData) (w w' : World) (new : Plan) :
  _apply_modifications env old_plan failed_step replan_data w = (inr new, w') →
  version new = version old_plan + 1 ∧ is_active new = true
  ∧ goal_id new = goal_id old_plan
  ∧ ∀ i s, steps old_plan !! i = Some s → status s = COMPLETED →
           step_id s ≠ step_id failed_step → steps new !! i = Some s.
Proof.
  unfold _apply_modifications.
  destruct (copy_steps _ (steps old_plan)) as [e | copied] eqn:Hcopy; [discriminate|].
  apply copy_steps_Forall2 in Hcopy.
  intros Hrun. apply bind_returns_inv in Hrun as (new_steps & w1 & Hsteps & Hinit).
  rewrite Plan_init_eq in Hinit. injection Hinit as <- _.
  cbn. repeat split.
  intros i s Hi Hst Hid.
  destruct (Forall2_lookup_l _ _ _ _ _ Hcopy Hi) as (s' & Hi' & Hs').
  apply copy_existing_untouched in Hs' as ->; [|done..].
  destruct (String.eqb (default "retry" (strategy replan_data)) "insert").
  - apply bind_returns_inv in Hsteps as ([l ids] & w2 & Hloop & Hret).
    injection Hret as <- _.
    pose proof (insert_loop_appends (default "retry" (strategy replan_data))
                  failed_step (default [] (modified_steps replan_data)) copied [] w)
      as Hpost.
    unfold post in Hpost. rewrite Hloop in Hpost. destruct Hpost as [added Hl].
    cbn in Hl. subst l.
    rewrite list_lookup_fmap, lookup_app_l by (by eapply lookup_lt_Some).
    rewrite Hi'. cbn. by rewrite reset_failed_other.
  - injection Hsteps as <- _. exact Hi'.
Qed.

(** [replan] always returns a plan: the one its edit of the old plan built,
    or the one [_simple_retry] built after an exception. *)
Lemma replan_cases (plan : Plan) (failed_step : Step) (evaluation : StepEvaluation)
    (execution_result : Payload) (goal_id : string) (w : World) :
  ∃ new w',
    replan env plan failed_step evaluation execution_result goal_id w = (inr new, w')
    ∧ ((∃ data w0 w1,
          _apply_modifications env plan failed_step data w0 = (inr new, w1))
       ∨ (∃ w0, _simple_retry env plan failed_step w0 = (inr new, w'))).
Proof.
  unfold replan.
  destruct (replan_attempt env plan failed_step evaluation execution_result goal_id
              (after [Log "info" "replanner_start" (step_id failed_step)] 0 w))
    as [[e | p] w1] eqn:Hrun.
  - eexists. eexists. split.
    + run ltac:(apply log_eq).
      erewrite run_try_raises; [|exact Hrun].
      run ltac:(apply log_eq).
      apply _simple_retry_eq.
    + right. eexists. apply _simple_retry_eq.
  - exists p, w1. split.
    + run ltac:(apply log_eq).
      erewrite run_try_returns; [reflexivity|exact Hrun].
    + left. unfold replan_attempt in Hrun.
      apply bind_returns_inv in Hrun as ([text l] & w2 & _ & Hrun).
      apply bind_returns_inv in Hrun as ([] & w3 & _ & Hrun).
      apply bind_returns_inv in Hrun as (p' & w4 & Happly & Hrun).
      apply bind_returns_inv in Hrun as ([] & w5 & _ & Hrun).
      injection Hrun as -> _. eauto.
Qed.

Lemma replan_returns (plan : Plan) (failed_step : Step) (evaluation : StepEvaluation)
    (execution_result : Payload) (goal_id : string) (w : World) :
  ∃ new w',
    replan env plan failed_step evaluation execution_result goal_id w = (inr new, w')
    ∧ version new = version plan + 1 ∧ is_active new = true.
Proof.
  destruct (replan_cases plan failed_step evaluation execution_result goal_id w)
    as (new & w' & Hrun & [(data & w0 & w1 & Happly) | (w0 & Hretry)]).
  - exists new, w'. split; [exact Hrun|].
    apply _apply_modifications_returns in Happly as (? & ? & _). auto.
  - exists new, w'. split; [exact Hrun|].
    rewrite _simple_retry_eq in Hretry. by injection Hretry as <- _.
Qed.






End ReplannerProperties.

(* ================================================================= *)
(** ** Properties of the execution loop *)

Section ExecutionLoop.
Import Engine.
Context (env : Env).

Lemma lift_eq {A} (r : Exn + A) (w : World) : lift r w = (r, w).
Proof. by destruct r. Qed.

Lemma mark_in_progress_eq (step : Step) (w : World) :
  mark_in_progress step w
  = (inr (set_started_at (Some (clock w)) (set_status IN_PROGRESS step)), later w).
Proof. reflexivity. Qed.

Lemma announce_and_execute_eq (plan : Plan) (step : Step)
    (goal_id goal_raw_input : string) (w : World) :
  announce_and_execute env plan step goal_id goal_raw_input w
  = (execute_step env (ticks w) step goal_id (plan_id plan)
       (_gather_previous_results plan step) goal_raw_input,
     executed env plan step goal_id w).
Proof.
  unfold announce_and_execute, executed.
  run ltac:(apply db_eq).
  run ltac:(apply db_eq).
  run ltac:(apply broadcast_event_eq).
  run ltac:(apply tick_eq).
  run ltac:(apply emit_eq).
  autorewrite with world. apply lift_eq.
Qed.

Lemma evaluate_step_eq (plan : Plan) (i : nat) (step : Step) (exec_result : Payload)
    (goal_id : string) (w : World) :
  evaluate_step env plan i step exec_result goal_id w
  = (match evaluate env (ticks w) (set_status EVALUATING step) exec_result goal_id
             (plan_id plan) with
     | inl e => inl e
     | inr evaluation =>
         inr (put i (set_status EVALUATING step) plan,
              set_status EVALUATING step, evaluation)
     end,
     evaluated env step goal_id w).
Proof.
  unfold evaluate_step, evaluated.
  run ltac:(apply broadcast_event_eq).
  run ltac:(apply tick_eq).
  run ltac:(apply emit_eq).
  autorewrite with world. cbn [plan_id put].
  destruct (evaluate env (ticks w) (set_status EVALUATING step) exec_result goal_id
              (plan_id plan)) as [e | evaluation]; reflexivity.
Qed.

Lemma mark_failed_returns (plan : Plan) (i : nat) (step : Step)
    (evaluation : StepEvaluation) (goal_id : string) (w : World) :
  ∃ w', mark_failed env plan i step evaluation goal_id w
        = (inr (put i (set_error_message (Some (reasoning evaluation))
                         (set_status FAILED step)) plan,
                set_error_message (Some (reasoning evaluation))
                  (set_status FAILED step)), w').
Proof.
  eexists. unfold mark_failed.
  run ltac:(apply db_eq).
  run ltac:(apply broadcast_event_eq).
  reflexivity.
Qed.

Lemma back_to_pending_returns (plan : Plan) (i : nat) (step : Step)
    (evaluation : StepEvaluation) (goal_id : string) (w : World) :
  ∃ w', back_to_pending env plan i step evaluation goal_id w
        = (inr (put i (set_error_message (Some (reasoning evaluation))
                         (set_status PENDING step)) plan,
                set_error_message (Some (reasoning evaluation))
                  (set_status PENDING step)), w')
        ∧ Db (StepUpdateInPlan (plan_id plan) (step_id step)
                [UStatus PENDING; UErrorMessage (reasoning evaluation);
                 URetryCount (retry_count step)]) ∈ history w'.
Proof.
  eexists. split.
  - unfold back_to_pending.
    run ltac:(apply db_eq).
    run ltac:(apply db_eq).
    run ltac:(apply broadcast_event_eq).
    reflexivity.
  - autorewrite with world. cbn [plan_id put step_id set_error_message set_status
      retry_count].
    rewrite !elem_of_app. left. left. right. left.
Qed.

Lemma replan_and_swap_returns (plan : Plan) (failed_step : Step)
    (evaluation : StepEvaluation) (exec_result : Payload) (goal_id : string)
    (w : World) :
  ∃ new w' w0 w1,
    replan_and_swap env plan failed_step evaluation exec_result goal_id w
    = (inr new, w')
    ∧ Replanner.replan env plan failed_step evaluation exec_result goal_id w0
      = (inr new, w1)
    ∧ version new = version plan + 1 ∧ is_active new = true
    ∧ Db (PlanCreate new) ∈ history w'.
Proof.
  unfold replan_and_swap.
  match goal with
  | |- context [Replanner.replan env ?p ?f ?ev ?er ?g] =>
      destruct (replan_returns env p f ev er g
                  (after [Db (PlanDeactivateForGoal goal_id)] 0
                     (published env "replanning" goal_id
                        [("message",
                          VStr ("Replanning after step '" +:+ title failed_step
                                +:+ "' failed"))] w)))
        as (new & w1 & Hrun & Hv & Ha)
  end.
  exists new. eexists. eexists. exists w1. split.
  { run ltac:(apply broadcast_event_eq).
    run ltac:(apply db_eq).
    run ltac:(exact Hrun).
    run ltac:(unfold PlanRepository_create; run ltac:(apply db_eq); reflexivity).
    run ltac:(apply broadcast_event_eq).
    reflexivity. }
  split; [exact Hrun|]. split; [exact Hv|]. split; [exact Ha|].
  autorewrite with world. rewrite !elem_of_app. left. right. left.
Qed.

Lemma on_success_returns (plan : Plan) (i : nat) (step : Step)
    (exec_result : Payload) (goal_id : string) (w : World) :
  ∃ w', on_success env plan i step exec_result goal_id w
        = (inr (put i (set_completed_at (Some (clock w))
                         (set_result_payload (Some exec_result)
                            (set_status COMPLETED step))) plan,
                set_completed_at (Some (clock w))
                  (set_result_payload (Some exec_result)
                     (set_status COMPLETED step))), w').
Proof.
  eexists. unfold on_success.
  run ltac:(apply utcnow_eq).
  run ltac:(apply db_eq).
  run ltac:(apply db_eq).
  run ltac:(apply broadcast_event_eq).
  reflexivity.
Qed.

Lemma steps_put (i : nat) (step : Step) (plan : Plan) :
  steps (put i step plan) = <[i := step]> (steps plan).
Proof. reflexivity. Qed.

Lemma plan_id_put (i : nat) (step : Step) (plan : Plan) :
  plan_id (put i step plan) = plan_id plan.
Proof. reflexivity. Qed.

Lemma put_put (i : nat) (s1 s2 : Step) (plan : Plan) :
  put i s2 (put i s1 plan) = put i s2 plan.
Proof. unfold put. cbn. by rewrite list_insert_insert_eq. Qed.

(** C2.  On the sequential path, when the executor has returned and the
    evaluator's verdict is [FAILURE] or [PARTIAL], the step's counter goes
    up by one.  Below the ceiling, the step is back at its place in the same
    plan, [PENDING], with the raised counter, which is also written to the
    store, and the loop goes on.  At the ceiling, the step is [FAILED], the
    replanner is called with the plan that holds it, and the loop is left
    with the plan the replanner returned: its version is the old one plus
    one, it is active, and it is written to the store. *)
Theorem failed_evaluation_retries_then_replans (plan : Plan) (i : nat)
    (step : Step) (goal_id goal_raw_input : string) (w : World)
    (exec_result : Payload) (evaluation : StepEvaluation) :
  steps plan !! i = Some step →
  execute_step env (ticks w) (started step w) goal_id (plan_id plan)
    (_gather_previous_results (put i (started step w) plan) (started step w))
    goal_raw_input = inr exec_result →
  evaluate env (S (ticks w)) (set_status EVALUATING (started step w)) exec_result
    goal_id (plan_id plan) = inr evaluation →
  result evaluation ≠ SUCCESS →
  ∃ plan' stop w',
    run_sequential env plan i step goal_id goal_raw_input w = (inr (plan', stop), w')
    ∧ retry_count (counted step w) = retry_count step + 1
    ∧ if retry_count step + 1 <? max_retries step then
        let retried := set_error_message (Some (reasoning evaluation))
                         (set_status PENDING (counted step w)) in
        stop = false
        ∧ plan' = put i retried plan
        ∧ steps plan' !! i = Some retried
        ∧ status retried = PENDING
        ∧ retry_count retried = retry_count step + 1
        ∧ version plan' = version plan
        ∧ Db (StepUpdateInPlan (plan_id plan) (step_id step)
                [UStatus PENDING; UErrorMessage (reasoning evaluation);
                 URetryCount (retry_count step + 1)]) ∈ history w'
      else
        let failed := set_error_message (Some (reasoning evaluation))
                        (set_status FAILED (counted step w)) in
        stop = true
        ∧ status failed = FAILED
        ∧ retry_count failed = retry_count step + 1
        ∧ (∃ w0 w1,
             Replanner.replan env (put i failed plan) failed evaluation exec_result
               goal_id w0 = (inr plan', w1))
        ∧ version plan' = version plan + 1
        ∧ is_active plan' = true
        ∧ Db (PlanCreate plan') ∈ history w'.
Proof.
  intros Hi Hexec Heval Hres.
  assert (Hbranch : (retry_count (counted step w) >=? max_retries (counted step w))
                    = negb (retry_count step + 1 <? max_retries step)).
  { cbn. rewrite Z.geb_leb. apply Z.leb_antisym. }
  set (Q := λ (r : Plan * bool) (w' : World),
    retry_count (counted step w) = retry_count step + 1
    ∧ if retry_count step + 1 <? max_retries step then
        let retried := set_error_message (Some (reasoning evaluation))
                         (set_status PENDING (counted step w)) in
        r.2 = false
        ∧ r.1 = put i retried plan
        ∧ steps r.1 !! i = Some retried
        ∧ status retried = PENDING
        ∧ retry_count retried = retry_count step + 1
        ∧ version r.1 = version plan
        ∧ Db (StepUpdateInPlan (plan_id plan) (step_id step)
                [UStatus PENDING; UErrorMessage (reasoning evaluation);
                 URetryCount (retry_count step + 1)]) ∈ history w'
      else
        let failed := set_error_message (Some (reasoning evaluation))
                        (set_status FAILED (counted step w)) in
        r.2 = true
        ∧ status failed = FAILED
        ∧ retry_count failed = retry_count step + 1
        ∧ (∃ w0 w1,
             Replanner.replan env (put i failed plan) failed evaluation exec_result
               goal_id w0 = (inr r.1, w1))
        ∧ version r.1 = version plan + 1
        ∧ is_active r.1 = true
        ∧ Db (PlanCreate r.1) ∈ history w').
  cut (returns (run_sequential env plan i step goal_id goal_raw_input) Q w).
  { intros Hret. apply returns_elim in Hret as ([plan' stop] & w' & Hrun & HQ).
    exists plan', stop, w'. split; [exact Hrun|]. exact HQ. }
  unfold returns, run_sequential.
  prun ltac:(apply mark_in_progress_eq). fold (started step w).
  prun ltac:(rewrite announce_and_execute_eq; autorewrite with world;
             rewrite plan_id_put, Hexec; reflexivity).
  prun ltac:(rewrite evaluate_step_eq; unfold executed; autorewrite with world;
             cbn [Nat.add]; rewrite plan_id_put, Heval; reflexivity).
  rewrite put_put.
  assert (Hfail : post
    (let '(plan0, step0) :=
       count_retry (put i (set_status EVALUATING (started step w)) plan) i
         (set_status EVALUATING (started step w)) in
     log "warning" "step_failed" (step_id step0);;
     if retry_count step0 >=? max_retries step0 then
       '(plan1, step1) ← mark_failed env plan0 i step0 evaluation goal_id;
       plan2 ← replan_and_swap env plan1 step1 evaluation exec_result goal_id;
       mret (plan2, true)
     else
       '(plan1, _) ← back_to_pending env plan0 i step0 evaluation goal_id;
       mret (plan1, false)) Q (λ _ _, False)
    (evaluated env (started step w) goal_id
       (executed env (put i (started step w) plan) (started step w) goal_id (later w)))).
  { cbn [count_retry].
    change (set_retry_count _ (set_status EVALUATING (started step w)))
      with (counted step w).
    rewrite put_put.
    prun ltac:(apply log_eq). rewrite Hbranch. subst Q.
    destruct (retry_count step + 1 <? max_retries step) eqn:Hlt; cbn [negb].
    - match goal with
      | |- post (back_to_pending env ?p ?j ?s ?e ?g ≫= _) _ _ ?w0 =>
          destruct (back_to_pending_returns p j s e g w0) as (w' & Hback & Hdb)
      end.
      prun ltac:(exact Hback). rewrite put_put. cbn [post mret M_ret ret fst snd].
      split; [reflexivity|]. split; [reflexivity|]. split; [reflexivity|].
      split; [rewrite steps_put; apply list_lookup_insert_eq;
              by eapply lookup_lt_Some|].
      repeat split. exact Hdb.
    - match goal with
      | |- post (mark_failed env ?p ?j ?s ?e ?g ≫= _) _ _ ?w0 =>
          destruct (mark_failed_returns p j s e g w0) as (w1 & Hmark)
      end.
      prun ltac:(exact Hmark). rewrite put_put.
      match goal with
      | |- post (replan_and_swap env ?p ?s ?e ?r ?g ≫= _) _ _ ?w0 =>
          destruct (replan_and_swap_returns p s e r g w0)
            as (new & w' & w0' & w2 & Hswap & Hreplan & Hv & Ha & Hdb)
      end.
      prun ltac:(exact Hswap). cbn [post mret M_ret ret fst snd].
      split; [reflexivity|]. split; [reflexivity|]. split; [reflexivity|].
      split; [reflexivity|]. split; [eauto|]. auto. }
  destruct (result evaluation) eqn:Hr; [done | exact Hfail | exact Hfail].
Qed.

(** *** The parallel path *)

Lemma lookup_put_eq (i : nat) (step s0 : Step) (plan : Plan) :
  steps plan !! i = Some s0 → steps (put i step plan) !! i = Some step.
Proof.
  intros Hi. rewrite steps_put. apply list_lookup_insert_eq. by eapply lookup_lt_Some.
Qed.

Lemma lookup_put_ne (i j : nat) (step : Step) (plan : Plan) :
  i ≠ j → steps (put i step plan) !! j = steps plan !! j.
Proof. intros Hne. rewrite steps_put. by apply list_lookup_insert_ne. Qed.

Lemma result_positions_inr (i : nat) (er : Payload)
    (results : list (Exn + (nat * Payload))) :
  result_positions (inr (i, er) :: results) = i :: result_positions results.
Proof. reflexivity. Qed.

Lemma result_positions_inl (e : Exn) (results : list (Exn + (nat * Payload))) :
  result_positions (inl e :: results) = result_positions results.
Proof. reflexivity. Qed.

Lemma settled_put (plan0 plan : Plan) (ready remaining : list nat) (j : nat)
    (s0 step : Step) (needs : bool) (last : option (StepEvaluation * Payload))
    (ev : StepEvaluation) (er : Payload) :
  steps plan !! j = Some s0 → j ∉ remaining → status step ≠ FAILED →
  settled plan0 ready (j :: remaining) (plan, needs, last) →
  settled plan0 ready remaining (put j step plan, needs, Some (ev, er)).
Proof.
  intros Hj Hnot Hst (Hv & Hclean & Hdirty). split; [exact Hv|]. split.
  - intros Hn i s Hi Hs. destruct (decide (j = i)) as [<- | Hne].
    + rewrite (lookup_put_eq _ _ _ _ Hj) in Hs. by injection Hs as <-.
    + rewrite lookup_put_ne in Hs by done. by eapply Hclean.
  - intros Hn. destruct (Hdirty Hn) as (_ & i & s & Hi & Hrem & Hs & Hf).
    split; [eauto|]. exists i, s. rewrite not_elem_of_cons in Hrem.
    destruct Hrem as [Hne Hrem]. rewrite lookup_put_ne by done. auto.
Qed.

Lemma settled_put_failed (plan0 plan : Plan) (ready remaining : list nat) (j : nat)
    (s0 step : Step) (needs : bool) (last : option (StepEvaluation * Payload))
    (ev : StepEvaluation) (er : Payload) :
  steps plan !! j = Some s0 → j ∈ ready → j ∉ remaining → status step = FAILED →
  settled plan0 ready (j :: remaining) (plan, needs, last) →
  settled plan0 ready remaining (put j step plan, true, Some (ev, er)).
Proof.
  intros Hj Hr Hnot Hst (Hv & _ & _). split; [exact Hv|]. split; [done|].
  intros _. split; [eauto|]. exists j, step.
  rewrite (lookup_put_eq _ _ _ _ Hj). auto.
Qed.

Lemma settle_loop (plan0 : Plan) (ready : list nat) (goal_id : string)
    (results : list (Exn + (nat * Payload)))
    (acc : Plan * bool * option (StepEvaluation * Payload)) (w : World) :
  NoDup (result_positions results) →
  result_positions results ⊆ ready →
  settled plan0 ready (result_positions results) acc →
  post (for_each results (settle_result env goal_id) acc)
    (λ acc' _, settled plan0 ready [] acc') (λ _ _, True) w.
Proof.
  revert acc w. induction results as [|r results IH]; intros acc w Hnd Hsub Hacc.
  - exact Hacc.
  - cbn [for_each]. apply post_bind.
    destruct acc as [[plan needs] last]. destruct r as [e | [j er]].
    + rewrite result_positions_inl in Hnd, Hsub, Hacc.
      cbn [settle_result]. prun ltac:(apply log_eq). cbn [post mret M_ret ret].
      apply IH; auto.
    + rewrite result_positions_inr in Hnd, Hsub, Hacc.
      apply NoDup_cons in Hnd as [Hj Hnd].
      assert (Hjr : j ∈ ready) by (apply Hsub; left).
      assert (Hsub' : result_positions results ⊆ ready)
        by (intros x Hx; apply Hsub; by right).
      cbn [settle_result].
      destruct (steps plan !! j) as [step|] eqn:Hstep.
      2:{ cbn [post mret M_ret ret]. apply IH; auto.
          destruct Hacc as (Hv & Hclean & Hdirty). split; [exact Hv|].
          split; [exact Hclean|]. intros Hn.
          destruct (Hdirty Hn) as (Hl & i & s & Hi & Hrem & Hs).
          split; [exact Hl|]. exists i, s. rewrite not_elem_of_cons in Hrem.
          tauto. }
      apply post_bind. unfold post at 1. rewrite evaluate_step_eq.
      destruct (evaluate env (ticks w) (set_status EVALUATING step) er goal_id
                  (plan_id plan)) as [e | evaluation]; [done|].
      assert (Hstep' : steps (put j (set_status EVALUATING step) plan) !! j
                       = Some (set_status EVALUATING step))
        by by eapply lookup_put_eq.
      assert (Hfailure : post
        (let '(plan1, step1) :=
           count_retry (put j (set_status EVALUATING step) plan) j
             (set_status EVALUATING step) in
         if retry_count step1 >=? max_retries step1 then
           '(plan2, _) ← mark_failed env plan1 j step1 evaluation goal_id;
           mret (plan2, true, Some (evaluation, er))
         else
           '(plan2, _) ← back_to_pending env plan1 j step1 evaluation goal_id;
           mret (plan2, needs, Some (evaluation, er)))
        (λ acc' w', post (for_each results (settle_result env goal_id) acc')
                      (λ acc'' _, settled plan0 ready [] acc'') (λ _ _, True) w')
        (λ _ _, True) (evaluated env step goal_id w)).
      { cbn [count_retry]. rewrite put_put.
        destruct (_ >=? _).
        - match goal with
          | |- post (mark_failed env ?p ?k ?s ?e ?g ≫= _) _ _ ?w0 =>
              destruct (mark_failed_returns p k s e g w0) as (w1 & Hmark)
          end.
          prun ltac:(exact Hmark). rewrite put_put. cbn [post mret M_ret ret].
          apply IH; auto. eapply settled_put_failed; eauto.
        - match goal with
          | |- post (back_to_pending env ?p ?k ?s ?e ?g ≫= _) _ _ ?w0 =>
              destruct (back_to_pending_returns p k s e g w0) as (w1 & Hback & _)
          end.
          prun ltac:(exact Hback). rewrite put_put. cbn [post mret M_ret ret].
          apply IH; auto. eapply settled_put; eauto. }
      destruct (result evaluation); [|exact Hfailure|exact Hfailure].
      match goal with
      | |- post (on_success env ?p ?k ?s ?r ?g ≫= _) _ _ ?w0 =>
          destruct (on_success_returns p k s r g w0) as (w1 & Hok)
      end.
      prun ltac:(exact Hok). rewrite put_put. cbn [post mret M_ret ret].
      apply IH; auto. eapply settled_put; eauto.
Qed.

Lemma start_loop (plan0 : Plan) (ready done : list nat) (plan : Plan) (w : World) :
  version plan = version plan0 →
  (∀ i s, i ∈ done → steps plan !! i = Some s → status s = IN_PROGRESS) →
  post (for_each ready start_single_step plan)
    (λ plan' _,
       version plan' = version plan0
       ∧ ∀ i s, i ∈ done ++ ready → steps plan' !! i = Some s →
                status s = IN_PROGRESS)
    (λ _ _, False) w.
Proof.
  revert done plan w. induction ready as [|i ready IH]; intros done plan w Hv Hdone.
  - cbn. rewrite app_nil_r. auto.
  - cbn [for_each]. apply post_bind. unfold start_single_step at 1.
    replace (done ++ i :: ready) with ((done ++ [i]) ++ ready)
      by by rewrite <- app_assoc.
    destruct (steps plan !! i) as [step|] eqn:Hi.
    + prun ltac:(apply mark_in_progress_eq). cbn [post mret M_ret ret].
      apply IH; [exact Hv|].
      intros j s Hj Hs. destruct (decide (i = j)) as [<- | Hne].
      * rewrite (lookup_put_eq _ _ _ _ Hi) in Hs. by injection Hs as <-.
      * rewrite lookup_put_ne in Hs by done.
        apply elem_of_app in Hj as [Hj | Hj]; [by eapply Hdone|].
        apply list_elem_of_singleton in Hj. congruence.
    + cbn [post mret M_ret ret]. apply IH; [exact Hv|].
      intros j s Hj Hs.
      apply elem_of_app in Hj as [Hj | Hj]; [by eapply Hdone|].
      apply list_elem_of_singleton in Hj. congruence.
Qed.

Lemma gather_loop (plan : Plan) (goal_id goal_raw_input : string)
    (ready : list nat) (acc : list (Exn + (nat * Payload))) (w : World) :
  post (for_each ready (resume_single_step env plan goal_id goal_raw_input) acc)
    (λ results _,
       ∃ added, results = acc ++ added
                ∧ result_positions added `sublist_of` ready)
    (λ _ _, False) w.
Proof.
  revert acc w. induction ready as [|i ready IH]; intros acc w.
  - exists []. by rewrite app_nil_r.
  - cbn [for_each]. apply post_bind. unfold resume_single_step at 1.
    destruct (steps plan !! i) as [step|] eqn:Hi.
    + apply post_bind, post_try_except. apply post_bind.
      unfold post at 1. rewrite announce_and_execute_eq.
      destruct (execute_step env (ticks w) step goal_id (plan_id plan)
                  (_gather_previous_results plan step) goal_raw_input)
        as [e | exec_result]; cbn [post mret M_ret ret].
      * eapply post_mono; [apply IH | | done].
        intros results _ (added & -> & Hsub). exists (inl e :: added).
        rewrite <- app_assoc. split; [done|].
        rewrite result_positions_inl. by apply sublist_cons.
      * eapply post_mono; [apply IH | | done].
        intros results _ (added & -> & Hsub). exists (inr (i, exec_result) :: added).
        rewrite <- app_assoc. split; [done|].
        rewrite result_positions_inr. by apply sublist_skip.
    + cbn [post mret M_ret ret]. eapply post_mono; [apply IH | | done].
      intros results _ (added & -> & Hsub). exists added. split; [done|].
      by apply sublist_cons.
Qed.

Lemma first_failed_found (plan : Plan) (ready : list nat) (i : nat) (s : Step) :
  i ∈ ready → steps plan !! i = Some s → status s = FAILED →
  is_Some (first_failed plan ready).
Proof.
  intros Hi Hs Hst. unfold first_failed.
  match goal with |- is_Some (head ?l) => assert (Hin : s ∈ l) end.
  { apply list_elem_of_omap. exists i. split; [exact Hi|].
    rewrite Hs. by rewrite bool_decide_eq_true_2. }
  match goal with |- is_Some (head ?l) => destruct l end;
    [by apply elem_of_nil in Hin | by eexists].
Qed.

Lemma positions_from_sublist (ids : gset string) (k : nat) (l : list Step) :
  positions_from ids k l `sublist_of` seq k (length l).
Proof.
  revert k. induction l as [|s l IH]; intros k; cbn; [constructor|].
  destruct (is_ready ids s); [apply sublist_skip | apply sublist_cons]; apply IH.
Qed.

Lemma ready_positions_NoDup (plan : Plan) : NoDup (ready_positions plan).
Proof.
  unfold ready_positions.
  eapply sublist_NoDup; [apply NoDup_seq | apply positions_from_sublist].
Qed.

(** The parallel path.  With the ready positions distinct, a batch ends in
    one of two ways: the plan keeps its version and none of the ready steps
    is [FAILED]; or a ready step reached its ceiling, the replanner was
    called after the batch, and the plan returned is the next version,
    active. *)
Lemma run_parallel_replans_on_failure (plan : Plan) (ready : list nat)
    (goal_id goal_raw_input : string) (w : World) :
  NoDup ready →
  post (run_parallel env plan ready goal_id goal_raw_input)
    (λ plan' _,
       (version plan' = version plan
        ∧ ∀ i s, i ∈ ready → steps plan' !! i = Some s → status s ≠ FAILED)
       ∨ (version plan' = version plan + 1 ∧ is_active plan' = true))
    (λ _ _, True) w.
Proof.
  intros Hnd. unfold run_parallel.
  prun ltac:(apply log_eq).
  unfold start_all, gather.
  apply post_bind. eapply post_mono;
    [apply (start_loop plan ready []);
       [done | intros ? ? Hin; by apply elem_of_nil in Hin]
    | | cbv beta; tauto].
  intros plan1 w1 (Hv1 & Hstarted). cbn [app] in Hstarted.
  apply post_bind. eapply post_mono; [apply gather_loop | | cbv beta; tauto].
  intros results w2 (added & -> & Hsub). cbn [app].
  apply post_bind.
  eapply post_mono; [apply (settle_loop plan1 ready) | | cbv beta; tauto].
  - eapply sublist_NoDup; eauto.
  - by apply sublist_subseteq.
  - split; [done|]. split; [|done].
    intros _ i s Hi Hs. rewrite (Hstarted i s Hi Hs). done.
  - intros [[plan2 needs] last] w3 (Hv2 & Hclean & Hdirty).
    destruct needs.
    + destruct (Hdirty eq_refl) as ([[ev er] ->] & i & s & Hi & _ & Hs & Hst).
      destruct (first_failed_found plan2 ready i s Hi Hs Hst) as [f ->].
      destruct (replan_and_swap_returns plan2 f ev er goal_id w3)
        as (new & w' & w0 & w4 & Hswap & _ & Hv & Ha & _).
      unfold post. rewrite Hswap. right. split; [|exact Ha]. congruence.
    + cbn [post mret M_ret ret]. left. split; [congruence|]. by apply Hclean.
Qed.

(** As the loop runs it, on the positions of the ready steps. *)
Lemma run_parallel_on_ready_steps (plan : Plan) (goal_id goal_raw_input : string)
    (w : World) :
  post (run_parallel env plan (ready_positions plan) goal_id goal_raw_input)
    (λ plan' _,
       (version plan' = version plan
        ∧ ∀ i s, i ∈ ready_positions plan → steps plan' !! i = Some s →
                 status s ≠ FAILED)
       ∨ (version plan' = version plan + 1 ∧ is_active plan' = true))
    (λ _ _, True) w.
Proof. apply run_parallel_replans_on_failure, ready_positions_NoDup. Qed.

Lemma omap_cons_unfold {A B} (f : A → option B) (x : A) (l : list A) :
  omap f (x :: l) = match f x with Some y => y :: omap f l | None => omap f l end.
Proof. reflexivity. Qed.

(** The positions are those of the steps [get_ready_steps] returns. *)
Lemma positions_from_lookup (ids : gset string) (k : nat) (pre l : list Step) :
  length pre = k →
  omap (λ i, (pre ++ l) !! i) (positions_from ids k l)
  = filter (λ s, is_ready ids s = true) l.
Proof.
  revert k pre. induction l as [|s l IH]; intros k pre Hk; [done|].
  cbn [positions_from]. rewrite filter_cons.
  assert (Hl : (pre ++ s :: l) !! k = Some s)
    by (rewrite lookup_app_r by lia; by replace (k - length pre)%nat with 0%nat by lia).
  specialize (IH (S k) (pre ++ [s])). rewrite <- app_assoc in IH. cbn in IH.
  destruct (is_ready ids s) eqn:Hr.
  - rewrite decide_True by done. rewrite omap_cons_unfold, Hl.
    f_equal. apply IH. rewrite length_app. cbn. lia.
  - rewrite decide_False by done. apply IH. rewrite length_app. cbn. lia.
Qed.

Lemma ready_positions_steps (plan : Plan) :
  omap (λ i, steps plan !! i) (ready_positions plan) = get_ready_steps plan.
Proof. apply (positions_from_lookup _ 0 []). reflexivity. Qed.

End ExecutionLoop.

(* ================================================================= *)
(** ** The outcome of a goal *)

Section GoalOutcome.
Import Engine.
Context (env : Env).

Lemma attr_update_status_missing (goal_id : string) (s : GoalStatus)
    (active_plan : option string) (w : World) :
  select_goal goal_id (goals w) = None →
  ∃ e w', (update_status goal_id s active_plan ≫= attr) w = (inl e, w').
Proof.
  intros Hrow. unfold update_status, mbind, M_bind, bind, db, emit, get_goals.
  cbn -[select_goal write_goal]. rewrite Hrow. cbn. eauto.
Qed.

Lemma PlanRepository_create_eq (plan : Plan) (w : World) :
  PlanRepository_create plan w = (inr plan, after [Db (PlanCreate plan)] 0 w).
Proof. unfold PlanRepository_create. run ltac:(apply db_eq). reflexivity. Qed.

Lemma goal_id_of_with_status (s : GoalStatus) (a : option string) (g : Goal) :
  goal_id_of (with_status s a g) = goal_id_of g.
Proof. reflexivity. Qed.

(** When the planning phase returns, the goal it returns is the row the
    [goals] table holds for it. *)
Lemma planning_phase_row (goal g1 : Goal) (p1 : Plan) (w w1 : World) :
  planning_phase env goal w = (inr (g1, p1), w1) →
  select_goal (goal_id_of g1) (goals w1) = Some g1
  ∧ goal_id_of g1 = goal_id_of goal.
Proof.
  intros Hrun. unfold planning_phase in Hrun.
  destruct (select_goal (goal_id_of goal) (goals w)) as [row|] eqn:Hrow.
  2:{ destruct (attr_update_status_missing (goal_id_of goal) PLANNING None w Hrow)
        as (e & w' & Hraise).
      erewrite run_bind_raise in Hrun; [discriminate | exact Hraise]. }
  pose proof (select_goal_id _ _ _ Hrow) as Hid.
  erewrite run_bind in Hrun; [|apply update_status_found; exact Hrow].
  cbv beta iota in Hrun. rewrite !goal_id_of_with_status, !Hid in Hrun.
  erewrite run_bind in Hrun; [|apply broadcast_event_eq].
  erewrite run_bind in Hrun; [|apply tick_eq].
  erewrite run_bind in Hrun; [|apply emit_eq].
  cbv beta iota in Hrun.
  match type of Hrun with
  | context [lift ?r] => destruct r as [e | plan] eqn:Hplan
  end.
  { erewrite run_bind_raise in Hrun; [discriminate | reflexivity]. }
  erewrite run_bind in Hrun; [|apply lift_eq].
  erewrite run_bind in Hrun; [|apply PlanRepository_create_eq].
  cbv beta iota in Hrun.
  erewrite run_bind in Hrun.
  2:{ apply update_status_found. autorewrite with world.
      apply select_with_status. exact Hrow. }
  cbv beta iota in Hrun. rewrite !goal_id_of_with_status, !Hid in Hrun.
  erewrite run_bind in Hrun; [|apply broadcast_event_eq].
  injection Hrun as <- <- <-.
  autorewrite with world. rewrite !goal_id_of_with_status, Hid.
  split; [|reflexivity].
  apply (select_with_status _ _ (with_status PLANNING None row)).
  by apply select_with_status.
Qed.


(** C3.  [is_complete] holds exactly when every step is [COMPLETED] or
    [SKIPPED] (so one step in any other status makes it false).  When the
    execution loop has returned its final plan, [process_goal] moves the goal
    to [completed] and broadcasts [goal_completed] if [is_complete] holds of
    that plan, and moves it to [failed] and broadcasts [goal_failed] if
    not; nothing else is broadcast after the loop, and the goal returned is
    the row the [goals] table then holds. *)
Theorem goal_outcome_follows_is_complete (goal g1 : Goal) (p1 plan : Plan)
    (w w1 w2 : World) :
  contains "DEMO-SAFE-001" (upper (raw_input goal)) = false →
  planning_phase env goal
    (after [Log "info" "orchestrator_start" (goal_id_of goal)] 0 w)
    = (inr (g1, p1), w1) →
  _execute_plan env p1 (goal_id_of g1) (raw_input g1) w1 = (inr plan, w2) →
  (is_complete plan = true ↔
     ∀ s, s ∈ steps plan → status s = COMPLETED ∨ status s = SKIPPED)
  ∧ (∀ s, s ∈ steps plan → status_settled (status s) = false →
       is_complete plan = false)
  ∧ ∃ w' δ,
      process_goal env goal w
      = (inr (with_status (if is_complete plan then GOAL_COMPLETED else GOAL_FAILED)
                None g1), w')
      ∧ history w' = history w2 ++ δ
      ∧ broadcasts_of δ
        = [if is_complete plan then "goal_completed" else "goal_failed"]
      ∧ select_goal (goal_id_of goal) (goals w')
        = Some (with_status (if is_complete plan then GOAL_COMPLETED else GOAL_FAILED)
                  None g1).
Proof.
  intros Hdemo Hplan Hexec.
  split; [apply is_complete_iff|]. split; [apply is_complete_false_of|].
  destruct (planning_phase_row _ _ _ _ _ Hplan) as [Hrow1 Hid].
  assert (Hrow : select_goal (goal_id_of g1) (goals w2) = Some g1).
  { rewrite (keeps_eq goals _ _ _ _ (_execute_plan_keeps_goals env _ _ _) Hexec).
    exact Hrow1. }
  rewrite <- Hid.
  unfold process_goal. rewrite Hdemo.
  destruct (is_complete plan) eqn:Hc.
  - eexists. eexists. split.
    { run ltac:(apply log_eq).
      apply run_try_returns.
      run ltac:(exact Hplan).
      run ltac:(exact Hexec).
      unfold completion_phase. rewrite Hc.
      run ltac:(run ltac:(apply update_status_found; exact Hrow);
                run ltac:(apply broadcast_event_eq);
                run ltac:(apply db_eq);
                reflexivity).
      run ltac:(apply log_eq).
      reflexivity. }
    autorewrite with world. rewrite <- !app_assoc.
    split; [reflexivity|]. split; [|by apply select_with_status].
    repeat (rewrite broadcasts_of_app || rewrite broadcasts_of_cons_event
            || rewrite broadcasts_of_delivery).
    reflexivity.
  - eexists. eexists. split.
    { run ltac:(apply log_eq).
      apply run_try_returns.
      run ltac:(exact Hplan).
      run ltac:(exact Hexec).
      unfold completion_phase. rewrite Hc.
      run ltac:(run ltac:(apply update_status_found; exact Hrow);
                run ltac:(apply broadcast_event_eq);
                reflexivity).
      run ltac:(apply log_eq).
      reflexivity. }
    autorewrite with world. rewrite <- !app_assoc.
    split; [reflexivity|]. split; [|by apply select_with_status].
    repeat (rewrite broadcasts_of_app || rewrite broadcasts_of_cons_event
            || rewrite broadcasts_of_delivery).
    reflexivity.
Qed.

End GoalOutcome.

(* ================================================================= *)
(** ** The properties at work on scripted runs *)

Section Scenarios.
Import Engine.

(** The failing input of C5: with every provider of the chain out of reach,
    [generate] raises the aggregate error with the detail of the last one.
    It has built an [AgentLog] by then (one identifier is drawn), but
    nothing was appended to [agent_logs], and the caller, here [replan],
    falling back to simple retry, appends nothing either. *)
Lemma generate_failure_drops_agent_log_witness :
  let run := Gateway.generate rejecting_env "Modify the plan to recover from this failure."
               Replanner.REPLANNER_SYSTEM_PROMPT "goal-1" "replanner" initial_world in
  fst run = inl (new_exn "RuntimeError"
                   "All LLM providers failed. Last error: All connection attempts failed")
  ∧ agent_logs (snd run) = []
  ∧ invokes_of (history (snd run)) = [(OLLAMA, 0); (GEMINI, 0); (OPENAI, 0)]
  ∧ uuids (snd run) = 1%nat
  ∧ filter (λ e, is_log_append e = true) (history (snd run)) = []
  ∧ agent_logs (snd (Replanner.replan rejecting_env stuck_plan failed_b rejection
                       [("result_summary", "b")] "goal-1" initial_world)) = [].
Proof.
  intros run.
  assert (Hrun : run = (inl (new_exn "RuntimeError"
                   "All LLM providers failed. Last error: All connection attempts failed"),
                        snd run)) by (vm_compute; reflexivity).
  destruct (generate_failure_drops_agent_log rejecting_env _ _ _ _ _ _ _ Hrun)
    as (_ & Hlogs).
  split; [by rewrite Hrun|]. split; [exact Hlogs|].
  vm_compute. repeat split.
Defined.

Lemma failed_evaluation_retries_then_replans_witness :
  ∃ plan' stop w',
    run_sequential rejecting_env one_step_plan 0 (planned_step "a" []) "goal-1"
      "prepare for GATE in 4 weeks" (world_with study_goal []) = (inr (plan', stop), w')
    ∧ stop = false
    ∧ (status <$> steps plan' !! 0%nat) = Some PENDING
    ∧ (retry_count <$> steps plan' !! 0%nat) = Some 1.
Proof.
  destruct (failed_evaluation_retries_then_replans rejecting_env one_step_plan 0
              (planned_step "a" []) "goal-1" "prepare for GATE in 4 weeks"
              (world_with study_goal []) [("result_summary", "a")]
              {| eval_step_id := "a"; result := FAILURE; reasoning := "verdict";
                 suggestions := [] |}
              eq_refl eq_refl eq_refl ltac:(discriminate))
    as (plan' & stop & w' & Hrun & _ & Hcase).
  change (retry_count (planned_step "a" []) + 1 <? max_retries (planned_step "a" []))
    with true in Hcase.
  cbv zeta in Hcase. destruct Hcase as (Hstop & _ & Hi & _).
  exists plan', stop, w'. split; [exact Hrun|]. split; [exact Hstop|].
  rewrite Hi. split; reflexivity.
Defined.

Lemma goal_outcome_follows_is_complete_witness :
  ∃ g w',
    process_goal accepting_env study_goal (world_with study_goal [7%nat]) = (inr g, w')
    ∧ goal_status g = GOAL_COMPLETED.
Proof.
  pose (w := world_with study_goal [7%nat]).
  pose (g1 := with_status EXECUTING (Some "plan-1") study_goal).
  pose (planning := planning_phase accepting_env study_goal
                      (after [Log "info" "orchestrator_start" "goal-1"] 0 w)).
  pose (run := _execute_plan accepting_env study_plan "goal-1"
                 "prepare for GATE in 4 weeks" (snd planning)).
  assert (Hdemo : contains "DEMO-SAFE-001" (upper (raw_input study_goal)) = false)
    by (vm_compute; reflexivity).
  assert (Hplan : planning = (inr (g1, study_plan), snd planning))
    by (vm_compute; reflexivity).
  assert (Hexec : run = (inr (returned study_plan run), snd run))
    by (vm_compute; reflexivity).
  destruct (goal_outcome_follows_is_complete accepting_env study_goal g1
              study_plan (returned study_plan run) w (snd planning) (snd run)
              Hdemo Hplan Hexec)
    as (_ & _ & w' & δ & Hrun & _).
  assert (Hc : is_complete (returned study_plan run) = true)
    by (vm_compute; reflexivity).
  rewrite Hc in Hrun.
  eexists. exists w'. split; [exact Hrun|]. reflexivity.
Defined.

Lemma demo_safe_mode_ends_failed_witness :
  ∃ w', process_goal accepting_env demo_goal (world_with demo_goal [7%nat])
        = (inr (with_status GOAL_FAILED None demo_goal), w').
Proof.
  destruct (demo_safe_mode_ends_failed accepting_env demo_goal demo_goal
              (world_with demo_goal [7%nat]) eq_refl eq_refl)
    as (w' & δ & Hrun & _).
  exists w'. exact Hrun.
Defined.



End Scenarios.

(* ================================================================= *)
(** ** Dictionaries in insertion order *)

Section Dicts.
Context {V : Type}.

Lemma dict_get_set_eq (k : string) (v : V) (d : list (string * V)) :
  dict_get k (dict_set k v d) = Some v.
Proof.
  induction d as [|[k' v'] d IH]; cbn.
  - by rewrite String.eqb_refl.
  - destruct (String.eqb k k') eqn:E; cbn; rewrite ?String.eqb_refl, ?E; auto.
Qed.

Lemma dict_get_set_ne (k k0 : string) (v : V) (d : list (string * V)) :
  k ≠ k0 → dict_get k (dict_set k0 v d) = dict_get k d.
Proof.
  intros Hne. apply String.eqb_neq in Hne.
  induction d as [|[k' v'] d IH]; cbn.
  - by rewrite Hne.
  - destruct (String.eqb k0 k') eqn:E; cbn.
    + apply String.eqb_eq in E as <-. by rewrite Hne.
    + by rewrite IH.
Qed.

Lemma dict_keys_set (k : string) (v : V) (d : list (string * V)) :
  dict_keys (dict_set k v d)
  = if bool_decide (k ∈ dict_keys d) then dict_keys d else dict_keys d ++ [k].
Proof.
  unfold dict_keys. induction d as [|[k' v'] d IH]; [done|]. cbn.
  destruct (String.eqb k k') eqn:E.
  - apply String.eqb_eq in E as <-. cbn.
    by rewrite (bool_decide_eq_true_2 (k ∈ k :: (fst <$> d))) by left.
  - apply String.eqb_neq in E. cbn. rewrite IH.
    destruct (bool_decide (k ∈ fst <$> d)) eqn:Hin.
    + apply bool_decide_eq_true_1 in Hin.
      by rewrite (bool_decide_eq_true_2 (k ∈ k' :: (fst <$> d))) by by right.
    + apply bool_decide_eq_false_1 in Hin.
      rewrite (bool_decide_eq_false_2 (k ∈ k' :: (fst <$> d))); [done|].
      intros [-> | H]%elem_of_cons; done.
Qed.

Lemma dict_get_keys (k : string) (d : list (string * V)) :
  k ∈ dict_keys d ↔ is_Some (dict_get k d).
Proof.
  unfold dict_keys. induction d as [|[k' v'] d IH]; cbn.
  - split; [by intros ?%elem_of_nil | by intros [? ?]].
  - destruct (String.eqb k k') eqn:E.
    + apply String.eqb_eq in E as <-. split; [eauto | left].
    + apply String.eqb_neq in E. rewrite <- IH. split.
      * by intros [-> | H]%elem_of_cons.
      * by right.
Qed.

End Dicts.

(* ================================================================= *)
(** ** Further properties of the plan graph model *)

Section PlanGraph.

Lemma has_failed_steps_iff (p : Plan) :
  has_failed_steps p = true ↔ ∃ s, s ∈ steps p ∧ status s = FAILED.
Proof.
  unfold has_failed_steps. rewrite existsb_exists. split.
  - intros (s & Hs & Hst). exists s. split; [by apply list_elem_of_In|].
    by apply bool_decide_eq_true_1 in Hst.
  - intros (s & Hs & Hst). exists s. split; [by apply list_elem_of_In|].
    by apply bool_decide_eq_true_2.
Qed.

(** X1.  A complete plan is idle: it has no ready step and no failed
    step. *)
Theorem complete_plan_is_idle (p : Plan) :
  is_complete p = true → get_ready_steps p = [] ∧ has_failed_steps p = false.
Proof.
  intros Hc. pose proof (proj1 (is_complete_iff p) Hc) as Hall. split.
  - destruct (get_ready_steps p) as [|s l] eqn:Hr; [done|].
    assert (Hs : s ∈ get_ready_steps p) by (rewrite Hr; left).
    pose proof (ready_step_is_pending _ _ Hs) as Hp.
    unfold get_ready_steps in Hs. apply list_elem_of_filter in Hs as [_ Hs].
    destruct (Hall s Hs) as [H | H]; congruence.
  - destruct (has_failed_steps p) eqn:Hf; [|done].
    apply has_failed_steps_iff in Hf as (s & Hs & Hst).
    destruct (Hall s Hs) as [H | H]; congruence.
Qed.


Lemma pending_step_leads_to_ready (p : Plan) (rank : string → nat) :
  (∀ s, s ∈ steps p →
     status s = PENDING ∨ status s = COMPLETED ∨ status s = SKIPPED) →
  (∀ s d, s ∈ steps p → d ∈ depends_on s →
     ∃ t, t ∈ steps p ∧ step_id t = d ∧ (rank d < rank (step_id s))%nat) →
  ∀ n s, s ∈ steps p → status s = PENDING → (rank (step_id s) < n)%nat →
    ∃ r, r ∈ get_ready_steps p.
Proof.
  intros Hst Hdeps n. induction n as [|n IH]; intros s Hs Hp Hr; [lia|].
  destruct (is_ready (completed_ids p) s) eqn:Hready.
  - exists s. unfold get_ready_steps. apply list_elem_of_filter. auto.
  - unfold is_ready in Hready. rewrite Hp, bool_decide_eq_true_2 in Hready by done.
    cbn in Hready.
    assert (∃ d, d ∈ depends_on s ∧ d ∉ completed_ids p) as (d & Hd & Hnot).
    { clear -Hready. induction (depends_on s) as [|d l IHl]; [discriminate|].
      cbn in Hready. destruct (bool_decide (d ∈ completed_ids p)) eqn:E.
      - destruct (IHl Hready) as (d' & Hd' & Hn). exists d'. split; [by right|done].
      - exists d. split; [left|]. by apply bool_decide_eq_false_1 in E. }
    destruct (Hdeps s d Hs Hd) as (t & Ht & Hid & Hlt).
    destruct (Hst t Ht) as [Hpt | Hset].
    + apply (IH t Ht Hpt). rewrite Hid. lia.
    + exfalso. apply Hnot. apply elem_of_completed_ids. eauto.
Qed.

Lemma is_complete_false_inv (p : Plan) :
  is_complete p = false → ∃ s, s ∈ steps p ∧ status_settled (status s) = false.
Proof.
  unfold is_complete. induction (steps p) as [|s l IH]; [discriminate|].
  cbn. destruct (status_settled (status s)) eqn:Hs.
  - intros Hc. destruct (IH Hc) as (s' & Hs' & Hn). exists s'. split; [by right|done].
  - intros _. exists s. split; [left | done].
Qed.

(** X2.  Progress on a well-formed graph.  In a plan whose steps are all
    pending, completed or skipped, whose dependencies all name steps of the
    plan and can be ranked (each dependency ranks below the step that
    waits for it: the graph has no cycle), some step is ready as long as
    the plan is not complete. *)
Theorem dag_has_ready_step (p : Plan) (rank : string → nat) :
  (∀ s, s ∈ steps p →
     status s = PENDING ∨ status s = COMPLETED ∨ status s = SKIPPED) →
  (∀ s d, s ∈ steps p → d ∈ depends_on s →
     ∃ t, t ∈ steps p ∧ step_id t = d ∧ (rank d < rank (step_id s))%nat) →
  is_complete p = false →
  get_ready_steps p ≠ [].
Proof.
  intros Hst Hdeps Hc.
  assert (∃ s, s ∈ steps p ∧ status s = PENDING) as (s & Hs & Hp).
  { destruct (is_complete_false_inv p Hc) as (s & Hs & Hn). exists s. split; [done|].
    destruct (Hst s Hs) as [H | [H | H]]; [done | |]; rewrite H in Hn; discriminate. }
  destruct (pending_step_leads_to_ready p rank Hst Hdeps _ s Hs Hp (Nat.lt_succ_diag_r _))
    as (r & Hr).
  intros Hnil. rewrite Hnil in Hr. by apply elem_of_nil in Hr.
Qed.

End PlanGraph.

(* ================================================================= *)
(** ** Dependency results and the listener registry *)

Section Gather.
Import Engine.

Lemma last_result_snoc (d : string) (l : list Step) (s : Step) :
  last_result d (l ++ [s])
  = match (if String.eqb (step_id s) d
           then truthy_payload (result_payload s) else None) with
    | Some p => Some p
    | None => last_result d l
    end.
Proof.
  unfold last_result. rewrite omap_app, omap_cons_unfold.
  destruct (if String.eqb (step_id s) d then truthy_payload (result_payload s)
            else None) as [p|].
  - apply last_snoc.
  - f_equal. apply app_nil_r.
Qed.

Lemma gather_inner (dep_id d : string) (l : list Step)
    (results : list (string * Payload)) :
  dict_get d (foldl (gather_step dep_id) results l)
  = if String.eqb d dep_id
    then match last_result dep_id l with
         | Some p => Some p
         | None => dict_get d results
         end
    else dict_get d results.
Proof.
  revert results. induction l as [|s l IH] using rev_ind; intros results.
  - cbn. by destruct (String.eqb d dep_id).
  - rewrite foldl_app, last_result_snoc. cbn [foldl]. unfold gather_step at 1.
    destruct (result_payload s) as [[|item items]|] eqn:Hp; cbn [truthy_payload].
    + rewrite IH. by destruct (String.eqb (step_id s) dep_id).
    + destruct (String.eqb (step_id s) dep_id) eqn:Hid.
      * destruct (String.eqb d dep_id) eqn:Hd.
        -- apply String.eqb_eq in Hd as ->. apply dict_get_set_eq.
        -- rewrite dict_get_set_ne by (by apply String.eqb_neq).
           apply IH.
      * apply IH.
    + rewrite IH. by destruct (String.eqb (step_id s) dep_id).
Qed.

Lemma gather_outer (d : string) (l : list Step) (deps : list string)
    (results : list (string * Payload)) :
  dict_get d (foldl (λ results dep_id, foldl (gather_step dep_id) results l)
                results deps)
  = if bool_decide (d ∈ deps)
    then match last_result d l with
         | Some p => Some p
         | None => dict_get d results
         end
    else dict_get d results.
Proof.
  revert results. induction deps as [|d0 deps IH]; intros results; [done|].
  cbn [foldl]. rewrite IH, gather_inner.
  destruct (String.eqb d d0) eqn:Hd.
  - apply String.eqb_eq in Hd as <-.
    rewrite (bool_decide_eq_true_2 (d ∈ d :: deps)) by left.
    destruct (bool_decide (d ∈ deps)); by destruct (last_result d l).
  - apply String.eqb_neq in Hd.
    destruct (bool_decide (d ∈ deps)) eqn:Hin.
    + apply bool_decide_eq_true_1 in Hin.
      by rewrite (bool_decide_eq_true_2 (d ∈ d0 :: deps)) by by right.
    + apply bool_decide_eq_false_1 in Hin.
      rewrite (bool_decide_eq_false_2 (d ∈ d0 :: deps)); [done|].
      intros [-> | H]%elem_of_cons; done.
Qed.

(** X3.  What [_gather_previous_results] hands to the executor: under each
    id that the step declares as a dependency, the result payload of the
    last step of the plan that carries this id and a non-empty payload; no
    entry for a dependency without such a step, and no entry for any id the
    step does not depend on. *)
Theorem gather_previous_results_exact (plan : Plan) (step : Step) (d : string) :
  dict_get d (_gather_previous_results plan step)
  = if bool_decide (d ∈ depends_on step) then last_result d (steps plan) else None.
Proof.
  etransitivity; [exact (gather_outer d (steps plan) (depends_on step) [])|].
  cbn [dict_get].
  destruct (bool_decide (d ∈ depends_on step)); [|done].
  by destruct (last_result d (steps plan)).
Qed.

End Gather.

Section Listeners.
Import Engine.

Lemma remove_first_absent (l : nat) (ls : list nat) :
  l ∉ ls → remove_first l ls = ls.
Proof.
  induction ls as [|x ls IH]; [done|]. intros Hn. cbn.
  apply not_elem_of_cons in Hn as [Hne Hn].
  rewrite bool_decide_eq_false_2 by done. by rewrite IH.
Qed.

Lemma remove_first_snoc (l : nat) (ls : list nat) :
  remove_first l (ls ++ [l]) ≡ₚ ls.
Proof.
  induction ls as [|x ls IH]; cbn.
  - by rewrite bool_decide_eq_true_2.
  - destruct (bool_decide (l = x)) eqn:E.
    + apply bool_decide_eq_true_1 in E as <-.
      symmetry. apply Permutation_cons_append.
    + by rewrite IH.
Qed.

Lemma remove_first_others (l : nat) (ls : list nat) :
  filter (λ x, x ≠ l) (remove_first l ls) = filter (λ x, x ≠ l) ls.
Proof.
  induction ls as [|x ls IH]; [done|]. cbn [remove_first].
  destruct (bool_decide (l = x)) eqn:E.
  - apply bool_decide_eq_true_1 in E as <-.
    by rewrite (filter_cons_False (λ x, x ≠ l)) by (intros H; by apply H).
  - rewrite !filter_cons. by rewrite IH.
Qed.

Lemma remove_first_length (l : nat) (ls : list nat) :
  l ∈ ls → S (length (remove_first l ls)) = length ls.
Proof.
  induction ls as [|x ls IH]; [by intros ?%elem_of_nil|]. cbn.
  destruct (bool_decide (l = x)) eqn:E; [done|].
  apply bool_decide_eq_false_1 in E.
  intros [-> | H]%elem_of_cons; [done|]. cbn. by rewrite IH.
Qed.

(** X4.  The listener registry.  Removing a listener that is not registered
    changes nothing.  Removing a registered one takes out exactly one of
    its registrations and keeps the other listeners in their order, so a
    listener registered twice stays registered once.  A registration
    followed by a removal restores the registry when the listener was not
    registered before; when it was, it is the earlier registration that
    goes, and the registry is restored up to the order. *)
Theorem listener_registry_round_trip (l : nat) (w : World) :
  let removed := snd (remove_event_listener l w) in
  let both := snd ((add_event_listener l;; remove_event_listener l) w) in
  (l ∉ event_listeners w → removed = w)
  ∧ (l ∈ event_listeners w →
       S (length (event_listeners removed)) = length (event_listeners w))
  ∧ filter (λ x, x ≠ l) (event_listeners removed)
    = filter (λ x, x ≠ l) (event_listeners w)
  ∧ event_listeners both ≡ₚ event_listeners w
  ∧ (l ∉ event_listeners w → event_listeners both = event_listeners w)
  ∧ history removed = history w ∧ history both = history w.
Proof.
  cbv zeta.
  assert (Hrem : ∀ w0, event_listeners (snd (remove_event_listener l w0))
                       = remove_first l (event_listeners w0)).
  { intros w0. unfold remove_event_listener, mbind, M_bind, bind. cbn.
    destruct (bool_decide (l ∈ event_listeners w0)) eqn:E; [done|].
    apply bool_decide_eq_false_1 in E. cbn. by rewrite remove_first_absent. }
  assert (Hboth : event_listeners
                    (snd ((add_event_listener l;; remove_event_listener l) w))
                  = remove_first l (event_listeners w ++ [l])).
  { unfold mbind at 1. unfold M_bind at 1. unfold bind at 1.
    unfold add_event_listener at 1. unfold mbind at 1. unfold M_bind at 1.
    unfold bind at 1. cbn [get_event_listeners set_event_listeners].
    rewrite Hrem. reflexivity. }
  assert (Hhist : ∀ w0, history (snd (remove_event_listener l w0)) = history w0).
  { intros w0. unfold remove_event_listener, mbind, M_bind, bind. cbn.
    by destruct (bool_decide (l ∈ event_listeners w0)). }
  repeat split.
  - intros Hn. unfold remove_event_listener, mbind, M_bind, bind. cbn.
    by rewrite bool_decide_eq_false_2.
  - intros Hin. rewrite Hrem. by apply remove_first_length.
  - rewrite Hrem. apply remove_first_others.
  - rewrite Hboth. apply remove_first_snoc.
  - intros Hn. rewrite Hboth. clear -Hn.
    induction (event_listeners w) as [|x ls IH]; cbn.
    + by rewrite bool_decide_eq_true_2.
    + apply not_elem_of_cons in Hn as [Hne Hn].
      rewrite bool_decide_eq_false_2 by done. by rewrite IH.
  - apply Hhist.
  - unfold mbind at 1. unfold M_bind at 1. unfold bind at 1.
    unfold add_event_listener at 1. unfold mbind at 1. unfold M_bind at 1.
    unfold bind at 1. cbn [get_event_listeners set_event_listeners].
    rewrite Hhist. reflexivity.
Qed.

End Listeners.

(* ================================================================= *)
(** ** The life of a goal *)

Section GoalLifecycle.
Import Engine.
Context (env : Env).

Lemma update_status_missing (goal_id : string) (s : GoalStatus)
    (active_plan : option string) (w : World) :
  select_goal goal_id (goals w) = None →
  (update_status goal_id s active_plan ≫= attr) w
  = (inl no_goal, after [Db (GoalUpdateStatus goal_id s active_plan)] 0 w).
Proof.
  intros Hrow. unfold update_status, mbind, M_bind, bind, db, emit, get_goals.
  cbn -[select_goal write_goal]. rewrite Hrow. reflexivity.
Qed.

Lemma last_broadcast_published (event_type goal_id : string)
    (data : list (string * EventValue)) (w : World) (logs : list Effect) :
  broadcasts_of logs = [] →
  last (broadcasts_of (history (published env event_type goal_id data w) ++ logs))
  = Some event_type.
Proof.
  intros Hlogs. autorewrite with world.
  rewrite !broadcasts_of_app, Hlogs, app_nil_r.
  change (Broadcast ?ev :: ?l) with ([Broadcast ev] ++ l).
  rewrite broadcasts_of_app, broadcasts_of_delivery, app_nil_r.
  apply last_snoc.
Qed.

(** The handler of [process_goal], run on a goal that has its row. *)
Lemma on_error_settles (goal row : Goal) (e : Exn) (w : World) :
  select_goal (goal_id_of goal) (goals w) = Some row →
  ∃ w', on_error env goal e w = (inr (with_status GOAL_FAILED None row), w')
        ∧ select_goal (goal_id_of goal) (goals w')
          = Some (with_status GOAL_FAILED None row)
        ∧ last (broadcasts_of (history w')) = Some "error".
Proof.
  intros Hrow. eexists. split; [|split].
  - unfold on_error.
    run ltac:(reflexivity).
    run ltac:(rewrite Hrow; reflexivity).
    run ltac:(apply log_eq).
    run ltac:(apply update_status_found; autorewrite with world; exact Hrow).
    run ltac:(apply broadcast_event_eq).
    reflexivity.
  - autorewrite with world. by apply select_with_status.
  - rewrite <- (app_nil_r (history _)). by apply last_broadcast_published.
Qed.

Lemma last_broadcast_after (effs : list Effect) (k : nat) (w : World) :
  broadcasts_of effs = [] →
  last (broadcasts_of (history (after effs k w))) = last (broadcasts_of (history w)).
Proof.
  intros H. by rewrite history_after, broadcasts_of_app, H, app_nil_r.
Qed.

(** Phase 3, run on a goal that has its row. *)
Lemma completion_phase_settles (goal row : Goal) (plan : Plan) (w : World) :
  select_goal (goal_id_of goal) (goals w) = Some row →
  ∃ w',
    completion_phase env goal plan w
    = (inr (with_status (if is_complete plan then GOAL_COMPLETED else GOAL_FAILED)
              None row), w')
    ∧ select_goal (goal_id_of goal) (goals w')
      = Some (with_status (if is_complete plan then GOAL_COMPLETED else GOAL_FAILED)
                None row)
    ∧ last (broadcasts_of (history w'))
      = Some (if is_complete plan then "goal_completed" else "goal_failed").
Proof.
  intros Hrow. unfold completion_phase. destruct (is_complete plan).
  - eexists. split; [|split].
    + run ltac:(apply update_status_found; exact Hrow).
      run ltac:(apply broadcast_event_eq).
      run ltac:(apply db_eq).
      reflexivity.
    + autorewrite with world. by apply select_with_status.
    + rewrite last_broadcast_after by done.
      rewrite <- (app_nil_r (history _)). by apply last_broadcast_published.
  - eexists. split; [|split].
    + run ltac:(apply update_status_found; exact Hrow).
      run ltac:(apply broadcast_event_eq).
      reflexivity.
    + autorewrite with world. by apply select_with_status.
    + rewrite <- (app_nil_r (history _)). by apply last_broadcast_published.
Qed.

(** The demo branch raises, the goal's row in place. *)
Lemma demo_safe_mode_raises (goal row : Goal) (w : World) :
  select_goal (goal_id_of goal) (goals w) = Some row →
  ∃ e w', demo_safe_mode env goal w = (inl e, w')
          ∧ select_goal (goal_id_of goal) (goals w')
            = Some (with_status PLANNING None row).
Proof.
  intros Hrow. eexists. eexists. split.
  - unfold demo_safe_mode.
    run ltac:(apply log_eq).
    run ltac:(apply update_status_found; exact Hrow).
    run ltac:(apply broadcast_event_eq).
    apply run_bind_raise. reflexivity.
  - autorewrite with world. by apply select_with_status.
Qed.

(** When the planning phase raises, the goal still has its row. *)
Lemma planning_phase_raises_row (goal row : Goal) (e : Exn) (w w1 : World) :
  select_goal (goal_id_of goal) (goals w) = Some row →
  planning_phase env goal w = (inl e, w1) →
  select_goal (goal_id_of goal) (goals w1) = Some (with_status PLANNING None row).
Proof.
  intros Hrow Hrun. unfold planning_phase in Hrun.
  pose proof (select_goal_id _ _ _ Hrow) as Hid.
  erewrite run_bind in Hrun; [|apply update_status_found; exact Hrow].
  cbv beta iota in Hrun. rewrite !goal_id_of_with_status, !Hid in Hrun.
  erewrite run_bind in Hrun; [|apply broadcast_event_eq].
  erewrite run_bind in Hrun; [|apply tick_eq].
  erewrite run_bind in Hrun; [|apply emit_eq].
  cbv beta iota in Hrun.
  match type of Hrun with
  | context [lift ?r] => destruct r as [e' | plan] eqn:Hplan
  end.
  - erewrite run_bind_raise in Hrun; [|reflexivity].
    injection Hrun as _ <-. autorewrite with world. by apply select_with_status.
  - erewrite run_bind in Hrun; [|apply lift_eq].
    erewrite run_bind in Hrun; [|apply PlanRepository_create_eq].
    cbv beta iota in Hrun.
    erewrite run_bind in Hrun.
    2:{ apply update_status_found. autorewrite with world.
        apply select_with_status. exact Hrow. }
    cbv beta iota in Hrun. rewrite !goal_id_of_with_status, !Hid in Hrun.
    erewrite run_bind in Hrun; [|apply broadcast_event_eq].
    discriminate Hrun.
Qed.

(** X5.  A goal that has its row in the [goals] table is always settled:
    whatever the planner, the executor, the evaluator, the model providers
    and the listeners do, [process_goal] returns (it does not raise), the
    goal it returns is [completed] or [failed] and is the row the table then
    holds, and the last event broadcast is the terminal one that goes with
    it: [goal_completed] for [completed]; [goal_failed] or [error] for
    [failed]. *)
Theorem process_goal_always_settles (goal row : Goal) (w : World) :
  select_goal (goal_id_of goal) (goals w) = Some row →
  ∃ g w' ev,
    process_goal env goal w = (inr g, w')
    ∧ select_goal (goal_id_of goal) (goals w') = Some g
    ∧ last (broadcasts_of (history w')) = Some ev
    ∧ ((goal_status g = GOAL_COMPLETED ∧ ev = "goal_completed")
       ∨ (goal_status g = GOAL_FAILED ∧ (ev = "goal_failed" ∨ ev = "error"))).
Proof.
  intros Hrow.
  set (w0 := after [Log "info" "orchestrator_start" (goal_id_of goal)] 0 w).
  assert (Hrow0 : select_goal (goal_id_of goal) (goals w0) = Some row) by exact Hrow.
  set (settled := λ (r : (Exn + Goal) * World),
         ∃ g w' ev,
           r = (inr g, w')
           ∧ select_goal (goal_id_of goal) (goals w') = Some g
           ∧ last (broadcasts_of (history w')) = Some ev
           ∧ ((goal_status g = GOAL_COMPLETED ∧ ev = "goal_completed")
              ∨ (goal_status g = GOAL_FAILED
                 ∧ (ev = "goal_failed" ∨ ev = "error")))).
  assert (Hfail : ∀ e w1 r,
            select_goal (goal_id_of goal) (goals w1) = Some r →
            settled (on_error env goal e w1)).
  { intros e w1 r Hr.
    destruct (on_error_settles goal r e w1 Hr) as (w' & Hrun & Hg & Hl).
    eexists. exists w', "error". repeat split; eauto. }
  change (settled (process_goal env goal w)).
  unfold process_goal. erewrite run_bind; [|apply log_eq]. fold w0.
  destruct (contains "DEMO-SAFE-001" (upper (raw_input goal))).
  - destruct (demo_safe_mode_raises goal row w0 Hrow0) as (e & w1 & Hrun & Hr).
    erewrite run_try_raises; [|exact Hrun]. eapply Hfail; eauto.
  - destruct (planning_phase env goal w0) as [[e | [g1 p1]] w1] eqn:Hplan.
    + erewrite run_try_raises; [|apply run_bind_raise; exact Hplan].
      eapply Hfail. eapply planning_phase_raises_row; eauto.
    + destruct (planning_phase_row env _ _ _ _ _ Hplan) as [Hrow1 Hid].
      destruct (_execute_plan env p1 (goal_id_of g1) (raw_input g1) w1)
        as [[e | plan] w2] eqn:Hexec.
      * erewrite run_try_raises.
        2:{ erewrite run_bind; [|exact Hplan]. apply run_bind_raise. exact Hexec. }
        eapply (Hfail _ _ g1). rewrite <- Hid.
        rewrite (keeps_eq goals _ _ _ _ (_execute_plan_keeps_goals env _ _ _) Hexec).
        exact Hrow1.
      * assert (Hrow2 : select_goal (goal_id_of g1) (goals w2) = Some g1).
        { rewrite (keeps_eq goals _ _ _ _ (_execute_plan_keeps_goals env _ _ _) Hexec).
          exact Hrow1. }
        destruct (completion_phase_settles g1 g1 plan w2 Hrow2)
          as (w3 & Hdone & Hg & Hlast).
        eexists. eexists.
        exists (if is_complete plan then "goal_completed" else "goal_failed").
        split; [|split; [|split]].
        -- apply run_try_returns.
           erewrite run_bind; [|exact Hplan]. cbv beta iota.
           erewrite run_bind; [|exact Hexec].
           erewrite run_bind; [|exact Hdone].
           erewrite run_bind; [|apply log_eq].
           reflexivity.
        -- rewrite goals_after, <- Hid. exact Hg.
        -- rewrite last_broadcast_after by done. exact Hlast.
        -- destruct (is_complete plan); cbn; auto.
Qed.

(** X6.  A goal that has no row in the [goals] table is not handled:
    [process_goal] raises [AttributeError] out of its own [except] clause.
    Nothing is broadcast, no agent is called, and the table is left as it
    was. *)
Theorem process_goal_without_row (goal : Goal) (w : World) :
  select_goal (goal_id_of goal) (goals w) = None →
  ∃ w' δ,
    process_goal env goal w = (inl no_goal, w')
    ∧ history w' = history w ++ δ
    ∧ broadcasts_of δ = []
    ∧ filter (λ e, is_agent_call e = true) δ = []
    ∧ goals w' = goals w.
Proof.
  intros Hrow. unfold process_goal.
  destruct (contains "DEMO-SAFE-001" (upper (raw_input goal))).
  - eexists. eexists. split.
    { run ltac:(apply log_eq).
      erewrite run_try_raises.
      2:{ unfold demo_safe_mode.
          run ltac:(apply log_eq).
          apply run_bind_raise. apply update_status_missing.
          autorewrite with world. exact Hrow. }
      unfold on_error.
      run ltac:(reflexivity).
      apply run_bind_raise. autorewrite with world. rewrite Hrow. reflexivity. }
    autorewrite with world. rewrite <- !app_assoc. repeat split.
  - eexists. eexists. split.
    { run ltac:(apply log_eq).
      erewrite run_try_raises.
      2:{ apply run_bind_raise. unfold planning_phase.
          apply run_bind_raise. apply update_status_missing.
          autorewrite with world. exact Hrow. }
      unfold on_error.
      run ltac:(reflexivity).
      apply run_bind_raise. autorewrite with world. rewrite Hrow. reflexivity. }
    autorewrite with world. rewrite <- !app_assoc. repeat split.
Qed.

End GoalLifecycle.

(* ================================================================= *)
(** ** Bounds of the execution loop *)

Section LoopBounds.
Import Engine.
Context (env : Env).

Lemma positions_from_nil (ids : gset string) (k : nat) (l : list Step) :
  filter (λ s, is_ready ids s = true) l = [] → positions_from ids k l = [].
Proof.
  revert k. induction l as [|s l IH]; intros k; [done|].
  rewrite filter_cons. cbn [positions_from].
  destruct (is_ready ids s) eqn:Hr.
  - rewrite decide_True by done. discriminate.
  - rewrite decide_False by (by intros ?). apply IH.
Qed.

(** X7.  When no step is ready (the plan is complete, or empty, or each of
    its pending steps waits for a step that is not completed or skipped),
    [_execute_plan] returns the plan as it is: no step is started, no agent
    is called, nothing is broadcast or written; at most one warning is
    logged. *)
Theorem execute_plan_without_ready_steps (plan : Plan) (goal_id goal_raw_input : string)
    (w : World) :
  get_ready_steps plan = [] →
  ∃ δ,
    _execute_plan env plan goal_id goal_raw_input w = (inr plan, after δ 0 w)
    ∧ δ = (if is_complete plan then []
           else if has_failed_steps plan
                then [Log "warning" "no_ready_steps_with_failures" goal_id]
                else [Log "warning" "no_ready_steps" goal_id]).
Proof.
  intros Hready. unfold _execute_plan, max_plan_iterations. cbn [execute_loop].
  assert (after [] 0 w = w) as Hw.
  { destruct w. unfold after. cbn. by rewrite app_nil_r. }
  destruct (is_complete plan).
  - exists []. split; [|done]. by rewrite Hw.
  - unfold ready_positions. rewrite positions_from_nil by exact Hready.
    destruct (has_failed_steps plan); eexists; (split; [|reflexivity]).
    + run ltac:(apply log_eq). reflexivity.
    + run ltac:(apply log_eq). reflexivity.
Qed.

Lemma version_put (i : nat) (step : Step) (plan : Plan) :
  version (put i step plan) = version plan.
Proof. reflexivity. Qed.

(** One sequential pass keeps the version or moves to the next one. *)
Lemma run_sequential_version (plan : Plan) (i : nat) (step : Step)
    (goal_id goal_raw_input : string) (w : World) :
  post (run_sequential env plan i step goal_id goal_raw_input)
    (λ r _, version (fst r) = version plan ∨ version (fst r) = version plan + 1)
    (λ _ _, True) w.
Proof.
  unfold run_sequential.
  prun ltac:(apply mark_in_progress_eq).
  apply post_bind. unfold post at 1. rewrite announce_and_execute_eq.
  match goal with
  | |- match ?r with _ => _ end => destruct r as [e | exec_result]; [done|]
  end.
  apply post_bind. unfold post at 1. rewrite evaluate_step_eq.
  match goal with
  | |- match match ?r with _ => _ end with _ => _ end =>
      destruct r as [e | evaluation]; [done|]
  end.
  cbv beta iota.
  destruct (result evaluation);
    [ match goal with
      | |- post (on_success env ?p ?i ?s ?er ?g ≫= _) _ _ ?w0 =>
          destruct (on_success_returns env p i s er g w0) as (w1 & Hok)
      end;
      prun ltac:(exact Hok); cbn [post mret M_ret ret fst]; by left
    | | ];
    (unfold count_retry; cbv beta iota zeta;
     prun ltac:(apply log_eq);
     match goal with |- context [if ?b then _ else _] => destruct b end;
     [ match goal with
       | |- post (mark_failed env ?p ?i ?s ?ev ?g ≫= _) _ _ ?w0 =>
           destruct (mark_failed_returns env p i s ev g w0) as (w1 & Hmark)
       end;
       prun ltac:(exact Hmark);
       match goal with
       | |- post (replan_and_swap env ?p ?f ?ev ?er ?g ≫= _) _ _ ?w0 =>
           destruct (replan_and_swap_returns env p f ev er g w0)
             as (new & w2 & ? & ? & Hswap & _ & Hv & _)
       end;
       prun ltac:(exact Hswap); cbn [post mret M_ret ret fst]; right;
       rewrite Hv; reflexivity
     | match goal with
       | |- post (back_to_pending env ?p ?i ?s ?ev ?g ≫= _) _ _ ?w0 =>
           destruct (back_to_pending_returns env p i s ev g w0) as (w1 & Hback & _)
       end;
       prun ltac:(exact Hback); cbn [post mret M_ret ret fst]; by left ]).
Qed.

Lemma execute_loop_version (remaining : nat) (plan : Plan)
    (goal_id goal_raw_input : string) (w : World) :
  post (execute_loop env remaining plan goal_id goal_raw_input)
    (λ plan' _, version plan <= version plan' <= version plan + Z.of_nat remaining)
    (λ _ _, True) w.
Proof.
  revert plan w. induction remaining as [|n IH]; intros plan w.
  - cbn. lia.
  - cbn [execute_loop].
    destruct (is_complete plan); [cbn; lia|].
    destruct (ready_positions plan) as [|i [|j ready]] eqn:Hready.
    + apply post_bind.
      destruct (has_failed_steps plan); cbn; lia.
    + destruct (steps plan !! i) as [step|]; [|cbn; lia].
      apply post_bind.
      eapply post_mono; [apply run_sequential_version | | done].
      intros [plan' stop] w' Hv. cbn [fst] in Hv. cbv beta iota.
      destruct stop; [cbn; lia|].
      eapply post_mono; [apply IH | | done].
      intros plan'' ? Hv'. cbv beta in Hv'. lia.
    + apply post_bind. rewrite <- Hready.
      eapply post_mono; [apply run_parallel_on_ready_steps | | done].
      intros plan' w' Hv. cbv beta.
      eapply post_mono; [apply IH | | done].
      intros plan'' ? Hv'. cbv beta in Hv'.
      destruct Hv as [[Hv _] | [Hv _]]; lia.
Qed.

(** X8.  One run of the execution loop makes at most five passes, and a
    pass replans at most once: the plan [_execute_plan] returns has a
    version that is at least the version of the plan it was given, and at
    most five more. *)
Theorem execute_plan_version_bound (plan plan' : Plan) (goal_id goal_raw_input : string)
    (w w' : World) :
  _execute_plan env plan goal_id goal_raw_input w = (inr plan', w') →
  version plan <= version plan' <= version plan + 5.
Proof.
  intros Hrun.
  pose proof (execute_loop_version max_plan_iterations plan goal_id goal_raw_input w)
    as Hpost.
  unfold post in Hpost. unfold _execute_plan in Hrun. rewrite Hrun in Hpost.
  exact Hpost.
Qed.

End LoopBounds.

(* ================================================================= *)
(** ** The execution loop on a chain of steps *)

Section Chain.
Import Engine.
Context (env : Env).

Lemma is_chain_from_lookup (previous : list string) (l : list Step) (i : nat)
    (s : Step) :
  is_chain_from previous l = true → l !! i = Some s →
  status s = PENDING
  ∧ depends_on s = match i with
                   | O => previous
                   | S j => from_option (λ t, [step_id t]) [] (l !! j)
                   end.
Proof.
  revert previous i. induction l as [|t l IH]; intros previous i Hc Hi; [done|].
  cbn in Hc. apply andb_true_iff in Hc as [Hc Hrest].
  apply andb_true_iff in Hc as [Hd Hp].
  apply bool_decide_eq_true_1 in Hd. apply bool_decide_eq_true_1 in Hp.
  destruct i as [|i].
  - injection Hi as <-. auto.
  - cbn in Hi. destruct (IH _ _ Hrest Hi) as [Hs Hdep]. split; [done|].
    rewrite Hdep. destruct i as [|i]; reflexivity.
Qed.

Lemma singleton_of_NoDup (k : nat) (l : list nat) :
  NoDup l → (∀ x, x ∈ l ↔ x = k) → l = [k].
Proof.
  intros Hnd Hl. destruct l as [|a l].
  - exfalso. eapply elem_of_nil. apply Hl. reflexivity.
  - assert (a = k) as -> by (apply Hl; left).
    destruct l as [|b l]; [done|].
    assert (b = k) by (apply Hl; right; left). subst b.
    apply NoDup_cons in Hnd as [Hn _]. exfalso. apply Hn. left.
Qed.

Lemma positions_from_spec (ids : gset string) (j : nat) (l : list Step) (i : nat) :
  i ∈ positions_from ids j l ↔
  (j ≤ i)%nat ∧ ∃ s, l !! (i - j)%nat = Some s ∧ is_ready ids s = true.
Proof.
  revert j. induction l as [|t l IH]; intros j.
  - cbn. split; [by intros ?%elem_of_nil | by intros (_ & s & Hs & _)].
  - cbn [positions_from].
    assert (Hrest : i ∈ positions_from ids (S j) l ↔
              (j < i)%nat ∧ ∃ s, (t :: l) !! (i - j)%nat = Some s
                                 ∧ is_ready ids s = true).
    { rewrite IH. split.
      - intros (Hle & s & Hs & Hr). split; [lia|]. exists s. split; [|done].
        replace (i - j)%nat with (S (i - S j)) by lia. exact Hs.
      - intros (Hlt & s & Hs & Hr). split; [lia|]. exists s. split; [|done].
        replace (i - j)%nat with (S (i - S j)) in Hs by lia. exact Hs. }
    destruct (is_ready ids t) eqn:Ht.
    + rewrite elem_of_cons, Hrest. split.
      * intros [-> | (Hlt & H)]; [|split; [lia | done]].
        split; [lia|]. exists t. by rewrite Nat.sub_diag.
      * intros (Hle & s & Hs & Hr).
        destruct (decide (i = j)) as [-> | Hne]; [by left|].
        right. split; [lia|]. eauto.
    + rewrite Hrest. split.
      * intros (Hlt & H). split; [lia | done].
      * intros (Hle & s & Hs & Hr).
        destruct (decide (i = j)) as [-> | Hne].
        -- rewrite Nat.sub_diag in Hs. injection Hs as <-. congruence.
        -- split; [lia|]. eauto.
Qed.

Lemma progressed_settled_ids (k : nat) (l0 : list Step) (plan : Plan) (j : nat)
    (t0 : Step) :
  NoDup (step_id <$> l0) → progressed k l0 (steps plan) → l0 !! j = Some t0 →
  step_id t0 ∈ completed_ids plan ↔ (j < k)%nat.
Proof.
  intros Hnd [Hlen Hp] Hj. rewrite elem_of_completed_ids. split.
  - intros (t & Ht & Hid & Hst).
    apply list_elem_of_lookup in Ht as [i Hi].
    assert (is_Some (l0 !! i)) as [s0 Hs0].
    { apply lookup_lt_is_Some. rewrite <- Hlen. by eapply lookup_lt_Some. }
    destruct (Hp i s0 Hs0) as (s & Hs & Hids & _ & Hstat).
    rewrite Hi in Hs. injection Hs as <-.
    assert (i = j) as ->.
    { eapply NoDup_lookup; [exact Hnd| |]; rewrite list_lookup_fmap.
      - rewrite Hs0. reflexivity.
      - rewrite Hj. cbn. congruence. }
    destruct (j <? k)%nat eqn:E; [by apply Nat.ltb_lt|].
    rewrite Hstat in Hst. destruct Hst; discriminate.
  - intros Hlt. destruct (Hp j t0 Hj) as (s & Hs & Hids & _ & Hstat).
    exists s. split; [by eapply list_elem_of_lookup_2|]. split; [done|].
    left. rewrite Hstat. by rewrite (proj2 (Nat.ltb_lt _ _) Hlt).
Qed.

Lemma progressed_ready (k : nat) (l0 : list Step) (plan : Plan) :
  NoDup (step_id <$> l0) → is_chain l0 = true → progressed k l0 (steps plan) →
  (k < length l0)%nat → ready_positions plan = [k].
Proof.
  intros Hnd Hc Hp Hk. apply singleton_of_NoDup; [apply ready_positions_NoDup|].
  intros i. unfold ready_positions. rewrite positions_from_spec, Nat.sub_0_r.
  destruct Hp as [Hlen Hp']. split.
  - intros (_ & s & Hs & Hr).
    assert (is_Some (l0 !! i)) as [s0 Hs0].
    { apply lookup_lt_is_Some. rewrite <- Hlen. by eapply lookup_lt_Some. }
    destruct (Hp' i s0 Hs0) as (s' & Hs' & Hids & Hdeps & Hstat).
    rewrite Hs in Hs'. injection Hs' as <-.
    apply is_ready_true in Hr as [Hpend Hall].
    destruct (i <? k)%nat eqn:E; [rewrite Hstat in Hpend; discriminate|].
    apply Nat.ltb_ge in E.
    destruct (is_chain_from_lookup [] l0 i s0 Hc Hs0) as [_ Hd0].
    destruct i as [|j]; [lia|].
    assert (is_Some (l0 !! j)) as [t0 Ht0]
      by (apply lookup_lt_is_Some; apply lookup_lt_Some in Hs0; lia).
    rewrite Ht0 in Hd0. cbn in Hd0.
    assert (Hin : step_id t0 ∈ completed_ids plan).
    { apply Hall. rewrite Hdeps, Hd0. left. }
    apply (progressed_settled_ids k l0 plan j t0 Hnd (conj Hlen Hp') Ht0) in Hin.
    lia.
  - intros ->. split; [lia|].
    assert (is_Some (l0 !! k)) as [s0 Hs0] by (by apply lookup_lt_is_Some).
    destruct (Hp' k s0 Hs0) as (s & Hs & Hids & Hdeps & Hstat).
    exists s. split; [done|]. apply is_ready_true.
    rewrite Nat.ltb_irrefl in Hstat. split; [done|].
    intros dep Hdep. rewrite Hdeps in Hdep.
    destruct (is_chain_from_lookup [] l0 k s0 Hc Hs0) as [_ Hd0].
    rewrite Hd0 in Hdep. destruct k as [|j]; [by apply elem_of_nil in Hdep|].
    assert (is_Some (l0 !! j)) as [t0 Ht0] by (apply lookup_lt_is_Some; lia).
    rewrite Ht0 in Hdep. cbn in Hdep. apply list_elem_of_singleton in Hdep as ->.
    apply (progressed_settled_ids (S j) l0 plan j t0 Hnd (conj Hlen Hp') Ht0). lia.
Qed.

Lemma progressed_complete (k : nat) (l0 : list Step) (plan : Plan) :
  progressed k l0 (steps plan) →
  is_complete plan = true ↔ (length l0 ≤ k)%nat.
Proof.
  intros [Hlen Hp]. rewrite is_complete_iff. split.
  - intros Hall. destruct (decide (length l0 ≤ k)%nat) as [|Hn]; [done|].
    assert (is_Some (l0 !! k)) as [s0 Hs0] by (apply lookup_lt_is_Some; lia).
    destruct (Hp k s0 Hs0) as (s & Hs & _ & _ & Hstat).
    rewrite Nat.ltb_irrefl in Hstat.
    destruct (Hall s (list_elem_of_lookup_2 _ _ _ Hs)); congruence.
  - intros Hle s Hs. apply list_elem_of_lookup in Hs as [i Hi].
    assert (is_Some (l0 !! i)) as [s0 Hs0].
    { apply lookup_lt_is_Some. rewrite <- Hlen. by eapply lookup_lt_Some. }
    destruct (Hp i s0 Hs0) as (s' & Hs' & _ & _ & Hstat).
    rewrite Hi in Hs'. injection Hs' as <-.
    apply lookup_lt_Some in Hs0.
    rewrite (proj2 (Nat.ltb_lt i k)) in Hstat by lia. by left.
Qed.

Lemma progressed_put (k : nat) (l0 : list Step) (plan : Plan) (s done : Step) :
  progressed k l0 (steps plan) → steps plan !! k = Some s →
  step_id done = step_id s → depends_on done = depends_on s →
  status done = COMPLETED →
  progressed (S k) l0 (steps (put k done plan)).
Proof.
  intros [Hlen Hp] Hk Hid Hdep Hst. split.
  - rewrite steps_put, length_insert. exact Hlen.
  - intros i s0 Hs0. destruct (Hp i s0 Hs0) as (s' & Hs' & Hids & Hdeps & Hstat).
    destruct (decide (k = i)) as [<- | Hne].
    + exists done. rewrite (lookup_put_eq _ _ _ _ Hk).
      rewrite Hs' in Hk. injection Hk as <-.
      rewrite (proj2 (Nat.ltb_lt k (S k))) by lia.
      repeat split; congruence.
    + exists s'. rewrite lookup_put_ne by done. repeat split; try done.
      rewrite Hstat. destruct (i <? k)%nat eqn:E.
      * apply Nat.ltb_lt in E. by rewrite (proj2 (Nat.ltb_lt i (S k))) by lia.
      * apply Nat.ltb_ge in E. by rewrite (proj2 (Nat.ltb_ge i (S k))) by lia.
Qed.

(** The sequential pass on a step that the executor runs and the evaluator
    accepts. *)
Lemma run_sequential_success (plan : Plan) (i : nat) (step : Step)
    (goal_id goal_raw_input : string) (w : World) :
  (∀ n s g p prev raw, ∃ r, execute_step env n s g p prev raw = inr r) →
  (∀ n s r g p, ∃ ev, evaluate env n s r g p = inr ev ∧ result ev = SUCCESS) →
  ∃ done w',
    run_sequential env plan i step goal_id goal_raw_input w
    = (inr (put i done plan, false), w')
    ∧ step_id done = step_id step ∧ depends_on done = depends_on step
    ∧ status done = COMPLETED.
Proof.
  intros Hexe Hev.
  destruct (Hexe (ticks w) (started step w) goal_id (plan_id plan)
              (_gather_previous_results (put i (started step w) plan)
                 (started step w)) goal_raw_input) as (exec_result & Hexec).
  destruct (Hev (S (ticks w)) (set_status EVALUATING (started step w)) exec_result
              goal_id (plan_id plan)) as (evaluation & Heval & Hres).
  cut (returns (run_sequential env plan i step goal_id goal_raw_input)
         (λ r _, ∃ done, r = (put i done plan, false)
                         ∧ step_id done = step_id step
                         ∧ depends_on done = depends_on step
                         ∧ status done = COMPLETED) w).
  { intros Hret. apply returns_elim in Hret as (r & w' & Hrun & done & -> & H).
    exists done, w'. split; [exact Hrun | exact H]. }
  unfold returns, run_sequential.
  prun ltac:(apply mark_in_progress_eq). fold (started step w).
  prun ltac:(rewrite announce_and_execute_eq; autorewrite with world;
             rewrite plan_id_put, Hexec; reflexivity).
  prun ltac:(rewrite evaluate_step_eq; unfold executed; autorewrite with world;
             cbn [Nat.add]; rewrite plan_id_put, Heval; reflexivity).
  rewrite Hres.
  match goal with
  | |- post (on_success env ?p ?j ?s ?er ?g ≫= _) _ _ ?w0 =>
      destruct (on_success_returns env p j s er g w0) as (w1 & Hok)
  end.
  prun ltac:(exact Hok). rewrite !put_put. cbn [post mret M_ret ret].
  eexists. split; [reflexivity|]. repeat split.
Qed.

Lemma execute_loop_chain (l0 : list Step) (goal_id goal_raw_input : string) :
  NoDup (step_id <$> l0) → is_chain l0 = true →
  (∀ n s g p prev raw, ∃ r, execute_step env n s g p prev raw = inr r) →
  (∀ n s r g p, ∃ ev, evaluate env n s r g p = inr ev ∧ result ev = SUCCESS) →
  ∀ remaining k plan w,
    progressed k l0 (steps plan) → (k ≤ length l0)%nat →
    ∃ plan' w',
      execute_loop env remaining plan goal_id goal_raw_input w = (inr plan', w')
      ∧ progressed (Nat.min (length l0) (k + remaining)) l0 (steps plan').
Proof.
  intros Hnd Hc Hexe Hev remaining.
  induction remaining as [|n IH]; intros k plan w Hp Hk.
  - exists plan, w. split; [done|]. rewrite Nat.add_0_r, Nat.min_r by done. exact Hp.
  - cbn [execute_loop].
    destruct (is_complete plan) eqn:Hcomp.
    + apply (progressed_complete k l0 plan Hp) in Hcomp.
      exists plan, w. split; [done|].
      assert (k = length l0) as -> by lia. rewrite Nat.min_l by lia. exact Hp.
    + assert (Hlt : (k < length l0)%nat).
      { destruct (decide (k < length l0)%nat) as [|Hn]; [done|].
        assert (is_complete plan = true)
          by (apply (progressed_complete k l0 plan Hp); lia).
        congruence. }
      rewrite (progressed_ready k l0 plan Hnd Hc Hp Hlt).
      assert (is_Some (steps plan !! k)) as [s Hs].
      { apply lookup_lt_is_Some. destruct Hp as [-> _]. done. }
      rewrite Hs.
      destruct (run_sequential_success plan k s goal_id goal_raw_input w Hexe Hev)
        as (done & w1 & Hrun & Hid & Hdep & Hst).
      destruct (IH (S k) (put k done plan) w1) as (plan' & w' & Hloop & Hp').
      { by eapply progressed_put. }
      { lia. }
      exists plan', w'. split.
      * run ltac:(exact Hrun). exact Hloop.
      * replace (k + S n)%nat with (S k + n)%nat by lia. exact Hp'.
Qed.

(** X9.  The loop makes at most five passes, and a pass on a single ready
    step settles at most that step.  So a chain of steps with unique ids,
    each waiting for the one before it, gets its first five steps completed
    when the executor always returns and the evaluator always accepts, and
    the steps after the fifth are left pending: the plan comes back complete
    if and only if it has at most five steps. *)
Theorem chain_is_cut_after_five_steps (plan : Plan) (goal_id goal_raw_input : string)
    (w : World) :
  NoDup (step_id <$> steps plan) →
  is_chain (steps plan) = true →
  (∀ n s g p prev raw, ∃ r, execute_step env n s g p prev raw = inr r) →
  (∀ n s r g p, ∃ ev, evaluate env n s r g p = inr ev ∧ result ev = SUCCESS) →
  ∃ plan' w',
    _execute_plan env plan goal_id goal_raw_input w = (inr plan', w')
    ∧ length (steps plan') = length (steps plan)
    ∧ (∀ i s, steps plan' !! i = Some s →
         status s = if (i <? 5)%nat then COMPLETED else PENDING)
    ∧ (is_complete plan' = true ↔ (length (steps plan) ≤ 5)%nat).
Proof.
  intros Hnd Hc Hexe Hev.
  assert (Hp0 : progressed 0 (steps plan) (steps plan)).
  { split; [done|]. intros i s0 Hs0. exists s0. repeat split; [done|].
    by destruct (is_chain_from_lookup [] _ i s0 Hc Hs0) as [-> _]. }
  destruct (execute_loop_chain (steps plan) goal_id goal_raw_input Hnd Hc Hexe Hev
              max_plan_iterations 0%nat plan w Hp0 ltac:(lia))
    as (plan' & w' & Hrun & Hp).
  exists plan', w'. split; [exact Hrun|].
  cbn [Nat.add] in Hp. unfold max_plan_iterations in Hp.
  split; [apply Hp|]. split.
  - intros i s Hs. destruct Hp as [Hlen Hp].
    assert (is_Some (steps plan !! i)) as [s0 Hs0].
    { apply lookup_lt_is_Some. rewrite <- Hlen. by eapply lookup_lt_Some. }
    destruct (Hp i s0 Hs0) as (s' & Hs' & _ & _ & Hstat).
    rewrite Hs in Hs'. injection Hs' as <-. rewrite Hstat.
    apply lookup_lt_Some in Hs0.
    destruct (i <? 5)%nat eqn:E.
    + apply Nat.ltb_lt in E. by rewrite (proj2 (Nat.ltb_lt _ _)) by lia.
    + apply Nat.ltb_ge in E. by rewrite (proj2 (Nat.ltb_ge _ _)) by lia.
  - rewrite (progressed_complete _ _ _ Hp). lia.
Qed.

End Chain.

(* ================================================================= *)
(** ** The edits of the replanner *)

Section ReplanEdits.
Import Replanner.
Context (env : Env).

Lemma apply_edit_keeps (ms : ModifiedStep) (s s' : Step) :
  apply_edit ms s = inr s' →
  step_id s' = step_id s ∧ status s' = status s
  ∧ retry_count s' = retry_count s ∧ max_retries s' = max_retries s
  ∧ error_message s' = error_message s ∧ result_payload s' = result_payload s.
Proof.
  unfold apply_edit. destruct (StepPriority_call _); [discriminate|].
  intros [= <-]. repeat split.
Qed.







(** What a returned plan is made of. *)
Lemma _apply_modifications_steps (old_plan : Plan) (failed_step : Step)
    (replan_data : ReplanData) (w w' : World) (new : Plan) :
  _apply_modifications env old_plan failed_step replan_data w = (inr new, w') →
  ∃ copied added ids,
    Forall2 (λ s c, copy_existing
                      (modified_by_id (default [] (modified_steps replan_data)))
                      (default "retry" (strategy replan_data)) failed_step s = inr c)
      (steps old_plan) copied
    ∧ steps new
      = if String.eqb (default "retry" (strategy replan_data)) "insert"
        then reset_failed failed_step ids <$> (copied ++ added)
        else copied.
Proof.
  unfold _apply_modifications.
  destruct (copy_steps _ (steps old_plan)) as [e | copied] eqn:Hcopy; [discriminate|].
  apply copy_steps_Forall2 in Hcopy.
  intros Hrun. apply bind_returns_inv in Hrun as (new_steps & w1 & Hsteps & Hinit).
  rewrite Plan_init_eq in Hinit. injection Hinit as <- _. cbn [steps].
  destruct (String.eqb (default "retry" (strategy replan_data)) "insert").
  - apply bind_returns_inv in Hsteps as ([l ids] & w2 & Hloop & Hret).
    injection Hret as <- _.
    pose proof (insert_loop_appends env (default "retry" (strategy replan_data))
                  failed_step (default [] (modified_steps replan_data)) copied [] w)
      as Hpost.
    unfold post in Hpost. rewrite Hloop in Hpost. destruct Hpost as [added Hl].
    cbn in Hl. subst l. eauto.
  - injection Hsteps as <- _. exists copied, [], []. eauto.
Qed.

Lemma copy_existing_fields by_id (strategy : string) (failed_step s c : Step) :
  copy_existing by_id strategy failed_step s = inr c →
  ∃ edited,
    c = (if String.eqb (step_id s) (step_id failed_step)
         then apply_strategy strategy edited else edited)
    ∧ step_id edited = step_id s ∧ status edited = status s
    ∧ retry_count edited = retry_count s ∧ max_retries edited = max_retries s
    ∧ error_message edited = error_message s
    ∧ result_payload edited = result_payload s.
Proof.
  unfold copy_existing.
  destruct (dict_get (step_id s) by_id) as [ms|].
  - destruct (negb (bool_decide (status s = COMPLETED))).
    + destruct (apply_edit ms s) as [e | edited] eqn:Hedit; [discriminate|].
      intros [= <-]. exists edited. split; [done|]. by apply (apply_edit_keeps ms).
    + intros [= <-]. exists s. by repeat split.
  - intros [= <-]. exists s. by repeat split.
Qed.

Lemma copy_existing_plain by_id (strategy : string) (failed_step s c : Step) :
  step_id s ≠ step_id failed_step → dict_get (step_id s) by_id = None →
  copy_existing by_id strategy failed_step s = inr c → c = s.
Proof.
  intros Hid Hget. unfold copy_existing. rewrite Hget.
  rewrite (proj2 (String.eqb_neq _ _) Hid). by intros [= <-].
Qed.

(** X11.  What a strategy does to the failed step.  In the plan
    [_apply_modifications] returns, every step that carries the id of the
    failed step stands at its position with id and ceiling as before, and:
    under [retry] (also when the reply names no strategy) and under [insert]
    it is [PENDING] with counter 0 and neither error nor result; under
    [skip] it is [SKIPPED]; under [escalate] it is [FAILED] with the
    escalation message; under any other strategy its status, counter and
    error are what they were. *)
Theorem apply_modifications_strategy_effect (old_plan : Plan) (failed_step : Step)
    (replan_data : ReplanData) (w w' : World) (new : Plan) (i : nat) (s : Step) :
  _apply_modifications env old_plan failed_step replan_data w = (inr new, w') →
  steps old_plan !! i = Some s →
  step_id s = step_id failed_step →
  ∃ s', steps new !! i = Some s'
    ∧ step_id s' = step_id s ∧ max_retries s' = max_retries s
    ∧ let chosen := default "retry" (strategy replan_data) in
      if String.eqb chosen "retry" || String.eqb chosen "insert" then
        status s' = PENDING ∧ retry_count s' = 0
        ∧ error_message s' = None ∧ result_payload s' = None
      else if String.eqb chosen "skip" then
        status s' = SKIPPED ∧ retry_count s' = retry_count s
      else if String.eqb chosen "escalate" then
        status s' = FAILED ∧ retry_count s' = retry_count s
        ∧ error_message s' = Some "Escalated for human intervention"
      else
        status s' = status s ∧ retry_count s' = retry_count s
        ∧ error_message s' = error_message s.
Proof.
  intros Hrun Hi Hid.
  apply _apply_modifications_steps in Hrun as (copied & added & ids & Hcopy & Hnew).
  destruct (Forall2_lookup_l _ _ _ _ _ Hcopy Hi) as (c & Hi' & Hc).
  apply copy_existing_fields in Hc
    as (edited & -> & Hid' & Hst & Hrc & Hmr & Herr & Hres).
  rewrite Hid, String.eqb_refl in Hi'.
  rewrite Hnew. cbv zeta. unfold apply_strategy in Hi'.
  destruct (String.eqb (default "retry" (strategy replan_data)) "insert") eqn:Hins.
  - apply String.eqb_eq in Hins. rewrite Hins in *. cbn in Hi'.
    eexists. split.
    + rewrite list_lookup_fmap, lookup_app_l by (by eapply lookup_lt_Some).
      rewrite Hi'. reflexivity.
    + unfold reset_failed. rewrite Hid', Hid, String.eqb_refl. cbn.
      repeat split; congruence.
  - rewrite orb_false_r. exists
      (if String.eqb (default "retry" (strategy replan_data)) "retry"
       then set_result_payload None (set_error_message None
              (set_retry_count 0 (set_status PENDING edited)))
       else if String.eqb (default "retry" (strategy replan_data)) "skip"
            then set_status SKIPPED edited
            else if String.eqb (default "retry" (strategy replan_data)) "escalate"
                 then set_error_message (Some "Escalated for human intervention")
                        (set_status FAILED edited)
                 else edited).
    split; [exact Hi'|].
    destruct (String.eqb _ "retry"); [by repeat split|].
    destruct (String.eqb _ "skip"); [by repeat split|].
    destruct (String.eqb _ "escalate"); by repeat split.
Qed.

(** X12.  The edit touches only what the reply names.  A step of the old plan
    whose id is neither that of the failed step nor the [step_id] of an
    entry of the reply that edits an existing step stands unchanged at its
    position in the plan [_apply_modifications] returns, whatever its
    status; the new plan belongs to the same goal and carries the next
    version number. *)
Theorem apply_modifications_frame (old_plan : Plan) (failed_step : Step)
    (replan_data : ReplanData) (w w' : World) (new : Plan) :
  _apply_modifications env old_plan failed_step replan_data w = (inr new, w') →
  goal_id new = goal_id old_plan ∧ version new = version old_plan + 1
  ∧ ∀ i s, steps old_plan !! i = Some s →
      step_id s ≠ step_id failed_step →
      dict_get (step_id s) (modified_by_id (default [] (modified_steps replan_data)))
      = None →
      steps new !! i = Some s.
Proof.
  intros Hrun.
  destruct (_apply_modifications_returns env _ _ _ _ _ _ Hrun) as (Hv & _ & Hg & _).
  split; [exact Hg|]. split; [exact Hv|].
  apply _apply_modifications_steps in Hrun as (copied & added & ids & Hcopy & Hnew).
  intros i s Hi Hid Hget.
  destruct (Forall2_lookup_l _ _ _ _ _ Hcopy Hi) as (c & Hi' & Hc).
  apply copy_existing_plain in Hc as ->; [|done..].
  rewrite Hnew. destruct (String.eqb _ "insert"); [|exact Hi'].
  rewrite list_lookup_fmap, lookup_app_l by (by eapply lookup_lt_Some).
  rewrite Hi'. cbn. by rewrite reset_failed_other.
Qed.

Lemma copy_steps_total (f : Step → Exn + Step) (g : Step → Step) (l : list Step) :
  (∀ s, f s = inr (g s)) → copy_steps f l = inr (g <$> l).
Proof.
  intros Hf. induction l as [|s l IH]; [done|]. cbn. by rewrite Hf, IH.
Qed.

(** X13.  A reply that cannot be decoded counts as a plain retry:
    [_parse_replan_response] answers with the strategy [retry] and no
    entries, and [_apply_modifications] on that answer returns the next
    version of the plan in which the steps carrying the id of the failed
    step are [PENDING] again with counter 0 — whatever the counter was —
    and every other step is as it was. *)
Theorem undecodable_reply_is_a_retry (plan : Plan) (failed_step : Step)
    (text : string) (w : World) :
  json_loads env text = None →
  ∃ new w',
    _apply_modifications env plan failed_step (_parse_replan_response env text) w
    = (inr new, w')
    ∧ version new = version plan + 1
    ∧ steps new
      = (λ s, if String.eqb (step_id s) (step_id failed_step)
              then set_result_payload None (set_error_message None
                     (set_retry_count 0 (set_status PENDING s)))
              else s) <$> steps plan.
Proof.
  intros Hdec. unfold _parse_replan_response. rewrite Hdec.
  unfold _apply_modifications. cbn [strategy modified_steps default modified_by_id foldl].
  erewrite copy_steps_total; [|intros s; reflexivity].
  eexists. eexists. split.
  - change (String.eqb "retry" "insert") with false. cbv iota.
    run ltac:(reflexivity). apply Plan_init_eq.
  - cbn. split; [done|]. apply list_fmap_ext. intros _ s _.
    by destruct (String.eqb (step_id s) (step_id failed_step)).
Qed.

End ReplanEdits.

(* ================================================================= *)
(** ** The walk along the provider chain *)

Section GatewayChain.
Import Gateway.
Context (env : Env).

Lemma try_provider_log (p : LLMProvider) (prompt system goal_id role : string)
    (w w' : World) (text : string) (l : AgentLog) :
  try_provider env p prompt system goal_id role w = (inr (text, l), w') →
  provider l = LLMProvider_value p ∧ model l = _get_model_name env p
  ∧ error l = None ∧ log_goal_id l = goal_id ∧ agent_type l = role
  ∧ log_plan_id l = None ∧ log_step_id l = None
  ∧ prompt_summary l = take_str 200 prompt
  ∧ response_summary l = take_str 300 text.
Proof.
  unfold try_provider. intros Hrun.
  apply bind_returns_inv in Hrun as ([] & w1 & _ & Hrun).
  apply bind_returns_inv in Hrun as ([] & w2 & _ & Hrun).
  apply bind_returns_inv in Hrun as (response & w3 & _ & Hrun).
  apply bind_returns_inv in Hrun as (finish & w4 & _ & Hrun).
  apply bind_returns_inv in Hrun as (l0 & w5 & Hlog & Hrun).
  apply bind_returns_inv in Hrun as ([] & w6 & _ & Hrun).
  injection Hrun as <- <- _.
  unfold new_agent_log in Hlog.
  apply bind_returns_inv in Hlog as (i & w7 & _ & Hlog).
  apply bind_returns_inv in Hlog as (now & w8 & _ & Hlog).
  injection Hlog as <- _. by repeat split.
Qed.

Lemma total_sleep_app (h1 h2 : list Effect) :
  total_sleep (h1 ++ h2) = total_sleep h1 + total_sleep h2.
Proof.
  unfold total_sleep. rewrite sleeps_of_app.
  induction (sleeps_of h1) as [|x l IH]; cbn; lia.
Qed.

Lemma backoff_total (n : nat) :
  (n ≤ 3)%nat → 0 <= foldr Z.add 0 (backoff_schedule n) <= 15.
Proof.
  intros Hn. assert (n = 0 ∨ n = 1 ∨ n = 2 ∨ n = 3)%nat as [-> | [-> | [-> | ->]]] by lia;
    cbn; lia.
Qed.

Lemma foldr_add_app (l1 l2 : list Z) :
  foldr Z.add 0 (l1 ++ l2) = foldr Z.add 0 l1 + foldr Z.add 0 l2.
Proof. induction l1 as [|x l IH]; cbn; lia. Qed.

(** One provider of the chain: at most three calls, all to this provider,
    and at most nineteen seconds of sleep. *)
Lemma try_provider_budget (p : LLMProvider) (prompt system goal_id role : string)
    (w : World) :
  ∃ δ r w',
    try_provider env p prompt system goal_id role w = (r, w')
    ∧ history w' = history w ++ δ
    ∧ (length (invokes_of δ) ≤ 3)%nat
    ∧ (∀ q k, (q, k) ∈ invokes_of δ → q = p)
    ∧ (match r with inr _ => ∃ k, last (invokes_of δ) = Some (p, k) | inl _ => True end)
    ∧ 0 <= total_sleep δ <= 15 + (if bool_decide (p = GEMINI) then 4 else 0).
Proof.
  destruct (try_provider_shape env p prompt system goal_id role w)
    as (n & δ & w' & r & Hrun & Hh & _ & Hn & Hinv & Hsl & _ & Hfin & Hzero).
  exists δ, r, w'. split; [exact Hrun|]. split; [exact Hh|].
  split; [by rewrite Hinv, length_fmap, length_seq|].
  split; [|split].
  - intros q k Hin. rewrite Hinv in Hin.
    apply list_elem_of_fmap in Hin as (j & [= -> _] & _). reflexivity.
  - destruct r as [e | res]; [done|].
    destruct n as [|n]; [destruct (Hzero eq_refl) as (e & _ & [=])|].
    exists (Z.of_nat n). rewrite Hinv, seq_S, fmap_app. cbn. apply last_snoc.
  - unfold total_sleep. rewrite Hsl. destruct (decide (n = 0%nat)).
    + cbn. destruct (bool_decide (p = GEMINI)); lia.
    + rewrite foldr_add_app. pose proof (backoff_total n Hn).
      unfold proactive_delay. destruct (bool_decide (p = GEMINI)); cbn; lia.
Qed.

Lemma all_providers_failed_eq (last_error : option Exn) (prompt goal_id role : string)
    (w : World) :
  ∃ e msg w',
    all_providers_failed env last_error prompt goal_id role w = (inl e, w')
    ∧ history w' = history w ++ [Log "error" "llm_all_providers_failed" msg].
Proof.
  unfold all_providers_failed, new_agent_log, mbind, M_bind, bind, log, emit,
    draw_uuid, utcnow, mret, M_ret, ret, raise.
  cbn beta iota. eexists. eexists. eexists. split; reflexivity.
Qed.

(** The walk along the chain. *)
Lemma generate_from_walk (chain : list LLMProvider) (last_error : option Exn)
    (prompt system goal_id role : string) (w : World) :
  ∃ δ r w',
    generate_from env chain last_error prompt system goal_id role w = (r, w')
    ∧ history w' = history w ++ δ
    ∧ (length (invokes_of δ) ≤ 3 * length chain)%nat
    ∧ 0 <= total_sleep δ
      <= 15 * Z.of_nat (length chain)
         + 4 * Z.of_nat (length (filter (λ p, p = GEMINI) chain))
    ∧ match r with
      | inl _ => True
      | inr (text, l) =>
          ∃ front p back k,
            chain = front ++ p :: back
            ∧ last (invokes_of δ) = Some (p, k)
            ∧ (∀ q j, (q, j) ∈ invokes_of δ → q ∈ front ∨ q = p)
            ∧ provider l = LLMProvider_value p ∧ model l = _get_model_name env p
            ∧ error l = None ∧ log_goal_id l = goal_id
            ∧ response_summary l = take_str 300 text
      end.
Proof.
  revert last_error w. induction chain as [|p rest IH]; intros last_error w.
  - cbn [generate_from].
    destruct (all_providers_failed_eq last_error prompt goal_id role w)
      as (e & msg & w' & Hrun & Hh).
    exists [Log "error" "llm_all_providers_failed" msg], (inl e), w'.
    split; [exact Hrun|]. split; [exact Hh|]. cbn. repeat split; lia.
  - cbn [generate_from]. rewrite filter_cons.
    destruct (try_provider_budget p prompt system goal_id role w)
      as (δ1 & r1 & w1 & Hrun & Hh1 & Hlen1 & Hown1 & Hlast1 & Hsl1).
    destruct r1 as [e | [text l]].
    + erewrite run_try_raises; [|exact Hrun].
      erewrite run_bind; [|apply log_eq].
      match goal with
      | |- context [generate_from env rest ?le _ _ _ _ ?w0] =>
          destruct (IH le w0) as (δ2 & r & w' & Hrest & Hh2 & Hlen2 & Hsl2 & Hres)
      end.
      eexists (δ1 ++ [_] ++ δ2), r, w'. split; [exact Hrest|].
      split; [rewrite Hh2; cbn [after history]; by rewrite Hh1, <- !app_assoc|].
      rewrite !invokes_of_app, !total_sleep_app.
      change (invokes_of [Log _ _ _]) with (@nil (LLMProvider * Z)).
      change (total_sleep [Log _ _ _]) with 0. cbn [app].
      split; [rewrite length_app; cbn [length]; lia|].
      split.
      { destruct (decide (p = GEMINI)) as [->|Hp].
        - rewrite bool_decide_true in Hsl1 by done. cbn [length]. lia.
        - rewrite bool_decide_false in Hsl1 by done. cbn [length]. lia. }
      destruct r as [e' | [text l]]; [done|].
      destruct Hres as (front & q & back & k & -> & Hlast & Hown & Hl).
      exists (p :: front), q, back, k. split; [reflexivity|].
      split.
      { destruct (invokes_of δ2) as [|x xs] using rev_ind; [discriminate Hlast|].
        rewrite last_snoc in Hlast. rewrite app_assoc. by rewrite last_snoc. }
      split; [|exact Hl].
      intros q' j Hin. apply elem_of_app in Hin as [Hin | Hin].
      * left. apply Hown1 in Hin as ->. left.
      * apply Hown in Hin as [Hin | ->]; [left; by right | by right].
    + erewrite run_try_returns; [|exact Hrun].
      exists δ1, (inr (text, l)), w1. split; [reflexivity|]. split; [exact Hh1|].
      split; [cbn [length]; lia|].
      split.
      { destruct (decide (p = GEMINI)) as [->|Hp].
        - rewrite bool_decide_true in Hsl1 by done. cbn [length]. lia.
        - rewrite bool_decide_false in Hsl1 by done. cbn [length]. lia. }
      destruct Hlast1 as [k Hlast1].
      exists [], p, rest, k. split; [reflexivity|]. split; [exact Hlast1|].
      split; [intros q j Hin; right; by eapply Hown1|].
      apply try_provider_log in Hrun as (? & ? & ? & ? & _ & _ & _ & _ & ?). auto.
Qed.

(** X14.  [generate] stops at the first provider that answers.  When it
    returns, the chain splits into the providers tried in vain, the one that
    answered and the ones left: the last model call made is a call of the
    one that answered, no call went to a provider that is only among the
    ones left, and the [AgentLog] returned names that provider and its
    model, carries no error, and holds the first 300 characters of the text
    returned. *)
Theorem generate_stops_at_first_success (prompt system goal_id role : string)
    (w w' : World) (text : string) (l : AgentLog) :
  generate env prompt system goal_id role w = (inr (text, l), w') →
  ∃ front p back δ k,
    _fallback_chain env = front ++ p :: back
    ∧ history w' = history w ++ δ
    ∧ last (invokes_of δ) = Some (p, k)
    ∧ (∀ q j, (q, j) ∈ invokes_of δ → q ∈ front ∨ q = p)
    ∧ provider l = LLMProvider_value p ∧ model l = _get_model_name env p
    ∧ error l = None ∧ log_goal_id l = goal_id
    ∧ response_summary l = take_str 300 text.
Proof.
  intros Hrun.
  destruct (generate_from_walk (_fallback_chain env) None prompt system goal_id role w)
    as (δ & r & w0 & Hwalk & Hh & _ & _ & Hres).
  unfold generate in Hrun. rewrite Hrun in Hwalk. injection Hwalk as <- <-.
  destruct Hres as (front & p & back & k & ? & ? & ? & ?).
  exists front, p, back, δ, k. auto.
Qed.

(** X15.  The cost of one [generate], however it ends: at most nine model
    calls (three for each provider of the chain) and at most 57 seconds of
    sleep (two backoffs of 5 and 10 seconds and the 4 seconds ahead of
    Gemini, for each provider); 45 seconds when Gemini is not in the
    chain. *)
Theorem generate_call_budget (prompt system goal_id role : string) (w : World) :
  ∃ δ r w',
    generate env prompt system goal_id role w = (r, w')
    ∧ history w' = history w ++ δ
    ∧ (length (invokes_of δ) ≤ 9)%nat
    ∧ 0 <= total_sleep δ <= 57
    ∧ (GEMINI ∉ _fallback_chain env → total_sleep δ <= 45).
Proof.
  destruct (generate_from_walk (_fallback_chain env) None prompt system goal_id role w)
    as (δ & r & w' & Hwalk & Hh & Hlen & Hsl & _).
  exists δ, r, w'. split; [exact Hwalk|]. split; [exact Hh|].
  pose proof (length_filter (λ p, p = GEMINI) (_fallback_chain env)) as Hf.
  change (length (_fallback_chain env)) with 3%nat in *.
  split; [lia|]. split; [lia|].
  clear Hf. intros Hno.
  assert (filter (λ p, p = GEMINI) (_fallback_chain env) = []) as Hnil.
  { clear Hsl Hlen Hwalk. revert Hno. generalize (_fallback_chain env).
    intros chain. induction chain as [|x xs IHxs]; intros Hno; [done|].
    rewrite filter_cons, decide_False.
    - apply IHxs. intros Hin. apply Hno. by right.
    - intros ->. apply Hno. left. }
  rewrite Hnil in Hsl. cbn in Hsl. lia.
Qed.

End GatewayChain.

(* ================================================================= *)
(** ** Registration of capabilities *)

Section RegistryRoundTrip.
Import Registry.

(** X16.  Registration and lookup.  After [register_tool] the name resolves
    to the tool just registered (an absent parameter table reads as the
    empty one), every other name resolves as before, and [execute_tool] on
    the name runs the new handler and never answers that the tool is not
    found.  A name that was registered before keeps its place in
    [list_tool_names], its tool replaced; a new name goes to the end. *)
Theorem register_tool_round_trip (name description : string)
    (h : Payload → HandlerOutcome) (params : option (list (string * string)))
    (reg : ToolRegistry) :
  let reg' := register_tool name description h params reg in
  get_tool_by_name reg' name
    = Some {| tool_name := name; tool_description := description; handler := h;
              parameters := default [] params |}
  ∧ (∀ other, other ≠ name → get_tool_by_name reg' other = get_tool_by_name reg other)
  ∧ (∀ other args tool, other ≠ name → get_tool_by_name reg other = Some tool →
       execute_tool reg' other args = execute_tool reg other args)
  ∧ (∀ args, execute_tool reg' name args
             = match h args with
               | Returns value => inr value
               | Hangs => inl (timeout_failure name)
               | Raises e => if is_TimeoutError e then inl (timeout_failure name)
                             else inl (execution_failure name e)
               end)
  ∧ list_tool_names reg'
    = if bool_decide (name ∈ list_tool_names reg) then list_tool_names reg
      else list_tool_names reg ++ [name].
Proof.
  cbv zeta. unfold get_tool_by_name, register_tool, list_tool_names, execute_tool.
  split; [apply dict_get_set_eq|].
  split; [intros other Hne; by apply dict_get_set_ne|].
  split.
  - intros other args tool Hne Hget.
    rewrite dict_get_set_ne by done. by rewrite Hget.
  - split; [|apply dict_keys_set].
    intros args. by rewrite dict_get_set_eq.
Qed.

End RegistryRoundTrip.

(* ================================================================= *)
(** ** Exceptions of the executor *)

Section ExecutorFaults.
Import Engine.
Context (env : Env).

Lemma left_in_progress_refl (l0 : list Step) : left_in_progress [] l0 l0.
Proof. split; [done|]. intros i s0 Hs0. exists s0. split; [done|]. done. Qed.

Lemma start_all_marks (l0 : list Step) (ready done : list nat) (plan : Plan)
    (w : World) :
  NoDup (done ++ ready) → left_in_progress done l0 (steps plan) →
  returns (for_each ready start_single_step plan)
    (λ plan' _,
       left_in_progress (done ++ ready) l0 (steps plan')
       ∧ version plan' = version plan ∧ plan_id plan' = plan_id plan) w.
Proof.
  revert done plan w. induction ready as [|i ready IH]; intros done plan w Hnd Hl.
  - cbn. rewrite app_nil_r. auto.
  - cbn [for_each]. apply post_bind. unfold start_single_step at 1.
    replace (done ++ i :: ready) with ((done ++ [i]) ++ ready) in *
      by by rewrite <- app_assoc.
    assert (Hi : i ∉ done).
    { apply NoDup_app in Hnd as [Hnd _]. apply NoDup_app in Hnd as (_ & Hd & _).
      intros Hin. apply (Hd i Hin). left. }
    destruct Hl as [Hlen Hl].
    destruct (steps plan !! i) as [step|] eqn:Hstep.
    + prun ltac:(apply mark_in_progress_eq). cbn [post mret M_ret ret].
      eapply post_mono; [apply (IH (done ++ [i])); [exact Hnd|] | | done].
      * split; [by rewrite steps_put, length_insert|].
        intros j s0 Hs0. destruct (decide (i = j)) as [<- | Hne].
        -- destruct (Hl i s0 Hs0) as (s & Hs & Hcase).
           rewrite bool_decide_eq_false_2 in Hcase by done. subst s.
           rewrite Hstep in Hs. injection Hs as ->.
           eexists. split; [apply (lookup_put_eq _ _ _ _ Hstep)|].
           rewrite bool_decide_eq_true_2 by (apply elem_of_app; right; left).
           eauto.
        -- destruct (Hl j s0 Hs0) as (s & Hs & Hcase).
           exists s. split; [by rewrite lookup_put_ne|].
           destruct (bool_decide (j ∈ done)) eqn:Hd.
           ++ apply bool_decide_eq_true_1 in Hd.
              by rewrite bool_decide_eq_true_2 by (apply elem_of_app; by left).
           ++ apply bool_decide_eq_false_1 in Hd.
              rewrite bool_decide_eq_false_2; [done|].
              intros [H | H%list_elem_of_singleton]%elem_of_app; congruence.
      * intros plan' _ (H1 & H2 & H3). split; [exact H1|].
        split; [by rewrite H2 | by rewrite H3, plan_id_put].
    + cbn [post mret M_ret ret].
      eapply post_mono; [apply (IH (done ++ [i])); [exact Hnd|] | | done].
      * split; [exact Hlen|]. intros j s0 Hs0.
        destruct (Hl j s0 Hs0) as (s & Hs & Hcase). exists s. split; [done|].
        assert (j ≠ i) by (intros ->; congruence).
        destruct (bool_decide (j ∈ done)) eqn:Hd.
        -- apply bool_decide_eq_true_1 in Hd.
           by rewrite bool_decide_eq_true_2 by (apply elem_of_app; by left).
        -- apply bool_decide_eq_false_1 in Hd.
           rewrite bool_decide_eq_false_2; [done|].
           intros [H' | H'%list_elem_of_singleton]%elem_of_app; congruence.
      * auto.
Qed.

Lemma gather_all_raise (e : Exn) (plan : Plan) (goal_id goal_raw_input : string)
    (ready : list nat) (acc : list (Exn + (nat * Payload))) (w : World) :
  (∀ n s g p prev raw, execute_step env n s g p prev raw = inl e) →
  Forall (λ r, r = inl e) acc →
  returns (for_each ready (resume_single_step env plan goal_id goal_raw_input) acc)
    (λ results _, Forall (λ r, r = inl e) results) w.
Proof.
  intros Hexe. revert acc w. induction ready as [|i ready IH]; intros acc w Hacc.
  - exact Hacc.
  - cbn [for_each]. apply post_bind. unfold resume_single_step at 1.
    destruct (steps plan !! i) as [step|].
    + apply post_bind, post_try_except. apply post_bind.
      unfold post at 1. rewrite announce_and_execute_eq, Hexe.
      cbn [post mret M_ret ret]. apply IH.
      apply Forall_app. split; [exact Hacc|]. by constructor.
    + cbn [post mret M_ret ret]. by apply IH.
Qed.

Lemma settle_all_raised (e : Exn) (goal_id : string)
    (results : list (Exn + (nat * Payload)))
    (acc : Plan * bool * option (StepEvaluation * Payload)) (w : World) :
  Forall (λ r, r = inl e) results →
  returns (for_each results (settle_result env goal_id) acc)
    (λ acc' _, acc' = acc) w.
Proof.
  revert w. induction results as [|r results IH]; intros w Hall; [done|].
  apply Forall_cons in Hall as [-> Hall].
  cbn [for_each]. apply post_bind. unfold settle_result at 1.
  destruct acc as [[plan needs_replan] last_seen]. cbv beta iota.
  prun ltac:(apply log_eq). cbn [post mret M_ret ret]. by apply IH.
Qed.

Lemma run_parallel_all_raise (e : Exn) (plan : Plan) (ready : list nat)
    (goal_id goal_raw_input : string) (w : World) :
  (∀ n s g p prev raw, execute_step env n s g p prev raw = inl e) →
  NoDup ready →
  returns (run_parallel env plan ready goal_id goal_raw_input)
    (λ plan' _,
       left_in_progress ready (steps plan) (steps plan')
       ∧ version plan' = version plan) w.
Proof.
  intros Hexe Hnd. unfold run_parallel, returns.
  prun ltac:(apply log_eq).
  apply post_bind. eapply post_mono;
    [apply (start_all_marks (steps plan) ready []);
       [exact Hnd | apply left_in_progress_refl] | | done].
  intros plan1 w1 (Hmarks & Hv & _). cbn [app] in Hmarks.
  apply post_bind. eapply post_mono;
    [apply (gather_all_raise e); [exact Hexe | constructor] | | done].
  intros results w2 Hall.
  apply post_bind. eapply post_mono;
    [apply (settle_all_raised e); exact Hall | | done].
  intros acc w3 ->. cbn. auto.
Qed.

Lemma left_in_progress_ids (plan plan' : Plan) :
  left_in_progress (ready_positions plan) (steps plan) (steps plan') →
  completed_ids plan' = completed_ids plan.
Proof.
  intros [Hlen Hl]. apply set_eq. intros dep. rewrite !elem_of_completed_ids.
  split.
  - intros (t & Ht & Hid & Hst). apply list_elem_of_lookup in Ht as [i Hi].
    assert (is_Some (steps plan !! i)) as [s0 Hs0].
    { apply lookup_lt_is_Some. rewrite <- Hlen. by eapply lookup_lt_Some. }
    destruct (Hl i s0 Hs0) as (s & Hs & Hcase).
    rewrite Hi in Hs. injection Hs as <-.
    destruct (bool_decide (i ∈ ready_positions plan)).
    + destruct Hcase as [now ->]. destruct Hst; discriminate.
    + subst t. exists s0. split; [by eapply list_elem_of_lookup_2 | done].
  - intros (t & Ht & Hid & Hst). apply list_elem_of_lookup in Ht as [i Hi].
    destruct (Hl i t Hi) as (s & Hs & Hcase).
    destruct (bool_decide (i ∈ ready_positions plan)) eqn:Hin.
    + apply bool_decide_eq_true_1 in Hin. unfold ready_positions in Hin.
      apply positions_from_spec in Hin as (_ & s' & Hs' & Hr).
      rewrite Nat.sub_0_r, Hi in Hs'. injection Hs' as <-.
      apply is_ready_true in Hr as [Hp _]. rewrite Hp in Hst.
      destruct Hst; discriminate.
    + subst s. exists t. split; [by eapply list_elem_of_lookup_2 | done].
Qed.

Lemma left_in_progress_stalls (plan plan' : Plan) :
  left_in_progress (ready_positions plan) (steps plan) (steps plan') →
  ready_positions plan ≠ [] →
  is_complete plan' = false ∧ ready_positions plan' = [].
Proof.
  intros Hl Hne. pose proof (left_in_progress_ids plan plan' Hl) as Hids.
  destruct Hl as [Hlen Hl]. split.
  - destruct (ready_positions plan) as [|i rest] eqn:Hready; [done|].
    assert (Hin : i ∈ ready_positions plan) by (rewrite Hready; left).
    unfold ready_positions in Hin.
    apply positions_from_spec in Hin as (_ & s0 & Hs0 & _).
    rewrite Nat.sub_0_r in Hs0.
    destruct (Hl i s0 Hs0) as (s & Hs & Hcase).
    rewrite bool_decide_eq_true_2 in Hcase by left. destruct Hcase as [now ->].
    eapply is_complete_false_of; [by eapply list_elem_of_lookup_2 | done].
  - destruct (ready_positions plan') as [|i rest] eqn:Hready'; [done|].
    exfalso.
    assert (Hin : i ∈ ready_positions plan') by (rewrite Hready'; left).
    unfold ready_positions in Hin.
    apply positions_from_spec in Hin as (_ & s & Hs & Hr).
    rewrite Nat.sub_0_r in Hs. rewrite Hids in Hr.
    assert (is_Some (steps plan !! i)) as [s0 Hs0].
    { apply lookup_lt_is_Some. rewrite <- Hlen. by eapply lookup_lt_Some. }
    destruct (Hl i s0 Hs0) as (s' & Hs' & Hcase).
    rewrite Hs in Hs'. injection Hs' as <-.
    destruct (bool_decide (i ∈ ready_positions plan)) eqn:Hin.
    + destruct Hcase as [now ->]. apply is_ready_true in Hr as [Hp _].
      discriminate Hp.
    + subst s. apply bool_decide_eq_false_1 in Hin. apply Hin.
      unfold ready_positions. apply positions_from_spec.
      split; [lia|]. exists s0. by rewrite Nat.sub_0_r.
Qed.

Lemma ready_positions_length (plan : Plan) :
  length (ready_positions plan) = length (get_ready_steps plan).
Proof.
  unfold ready_positions, get_ready_steps.
  generalize (completed_ids plan) as ids. intros ids. generalize 0%nat as k.
  induction (steps plan) as [|s l IH]; intros k; [done|].
  cbn [positions_from]. rewrite filter_cons.
  destruct (is_ready ids s) eqn:Hr.
  - rewrite decide_True by done. cbn. by rewrite IH.
  - rewrite decide_False by discriminate. apply IH.
Qed.

(** X17.  What an exception of the executor does depends on how many steps
    are ready.  With one ready step the exception leaves [_execute_plan]
    (and the step is left started).  With two or more, [asyncio.gather]
    keeps each exception as a result and the loop skips it: [_execute_plan]
    returns, the plan has the version it had, every step that was ready is
    [IN_PROGRESS] with its start time set and is otherwise as it was, every
    other step is untouched, and the plan is not complete. *)
Theorem executor_exception_by_branch (e : Exn) (plan : Plan)
    (goal_id goal_raw_input : string) (w : World) :
  (∀ n s g p prev raw, execute_step env n s g p prev raw = inl e) →
  (length (get_ready_steps plan) = 1%nat →
     ∃ w', _execute_plan env plan goal_id goal_raw_input w = (inl e, w'))
  ∧ ((2 ≤ length (get_ready_steps plan))%nat →
     ∃ plan' w',
       _execute_plan env plan goal_id goal_raw_input w = (inr plan', w')
       ∧ version plan' = version plan
       ∧ length (steps plan') = length (steps plan)
       ∧ (∀ i s0, steps plan !! i = Some s0 →
            ∃ s, steps plan' !! i = Some s
                 ∧ if is_ready (completed_ids plan) s0
                   then ∃ t, s = set_started_at (Some t) (set_status IN_PROGRESS s0)
                   else s = s0)
       ∧ is_complete plan' = false).
Proof.
  intros Hexe.
  assert (Hnc : get_ready_steps plan ≠ [] → is_complete plan = false).
  { intros Hne. destruct (get_ready_steps plan) as [|s l] eqn:Hr; [done|].
    assert (Hs : s ∈ get_ready_steps plan) by (rewrite Hr; left).
    pose proof (ready_step_is_pending _ _ Hs) as Hp.
    unfold get_ready_steps in Hs. apply list_elem_of_filter in Hs as [_ Hs].
    eapply is_complete_false_of; [exact Hs|]. by rewrite Hp. }
  rewrite <- ready_positions_length. unfold _execute_plan, max_plan_iterations.
  split.
  - intros Hlen. cbn [execute_loop].
    rewrite Hnc by (intros Hnil; rewrite ready_positions_length, Hnil in Hlen;
                    discriminate).
    destruct (ready_positions plan) as [|i [|j rest]] eqn:Hready; try discriminate.
    assert (Hin : i ∈ ready_positions plan) by (rewrite Hready; left).
    unfold ready_positions in Hin.
    apply positions_from_spec in Hin as (_ & s0 & Hs0 & _).
    rewrite Nat.sub_0_r in Hs0. rewrite Hs0.
    eexists. run_raise ltac:(unfold run_sequential;
      erewrite run_bind; [|apply mark_in_progress_eq];
      erewrite run_bind_raise; [reflexivity|];
      rewrite announce_and_execute_eq, Hexe; reflexivity).
    reflexivity.
  - intros Hlen.
    assert (Hne : ready_positions plan ≠ []) by (intros H; rewrite H in Hlen; cbn in Hlen; lia).
    assert (Hc : is_complete plan = false).
    { apply Hnc. intros Hnil.
      rewrite ready_positions_length, Hnil in Hlen. cbn in Hlen. lia. }
    destruct (returns_elim _ _ _
                (run_parallel_all_raise e plan (ready_positions plan) goal_id
                   goal_raw_input w Hexe (ready_positions_NoDup plan)))
      as (plan' & w' & Hrun & Hl & Hv).
    destruct (left_in_progress_stalls plan plan' Hl Hne) as [Hc' Hr'].
    exists plan',
      (after [Log "warning" (if has_failed_steps plan'
                             then "no_ready_steps_with_failures"
                             else "no_ready_steps") goal_id] 0 w').
    split; [|split; [exact Hv|]].
    + cbn [execute_loop]. rewrite Hc.
      destruct (ready_positions plan) as [|i [|j rest]] eqn:Hready;
        [cbn in Hlen; lia | cbn in Hlen; lia |].
      run ltac:(exact Hrun). rewrite Hc', Hr'.
      destruct (has_failed_steps plan'); run ltac:(apply log_eq); reflexivity.
    + split; [apply Hl|]. split; [|exact Hc'].
      intros i s0 Hs0. destruct Hl as [_ Hl].
      destruct (Hl i s0 Hs0) as (s & Hs & Hcase). exists s. split; [exact Hs|].
      destruct (is_ready (completed_ids plan) s0) eqn:Hr.
      * rewrite bool_decide_eq_true_2 in Hcase; [exact Hcase|].
        unfold ready_positions. apply positions_from_spec.
        split; [lia|]. exists s0. by rewrite Nat.sub_0_r.
      * rewrite bool_decide_eq_false_2 in Hcase; [exact Hcase|].
        unfold ready_positions. rewrite positions_from_spec, Nat.sub_0_r.
        intros (_ & s' & Hs' & Hr'').
        rewrite Hs0 in Hs'. injection Hs' as <-. congruence.
Qed.

End ExecutorFaults.

(* ================================================================= *)
(** ** Replanning after a parallel pass *)

Section ParallelReplan.
Import Engine.
Context (env : Env).

Lemma start_single_step_eq (i : nat) (plan : Plan) (step : Step) (w : World) :
  steps plan !! i = Some step →
  start_single_step i plan w
  = (inr (put i (set_started_at (Some (clock w)) (set_status IN_PROGRESS step)) plan),
     later w).
Proof. intros Hi. unfold start_single_step. rewrite Hi. reflexivity. Qed.

Lemma resume_single_step_eq (plan : Plan) (goal_id goal_raw_input : string)
    (i : nat) (step : Step) (results : list (Exn + (nat * Payload)))
    (exec_result : Payload) (w : World) :
  steps plan !! i = Some step →
  execute_step env (ticks w) step goal_id (plan_id plan)
    (_gather_previous_results plan step) goal_raw_input = inr exec_result →
  resume_single_step env plan goal_id goal_raw_input i results w
  = (inr (results ++ [inr (i, exec_result)]), executed env plan step goal_id w).
Proof.
  intros Hi Hexe. unfold resume_single_step. rewrite Hi.
  run ltac:(erewrite run_try_returns; [reflexivity|];
            run ltac:(rewrite announce_and_execute_eq, Hexe; reflexivity);
            reflexivity).
  reflexivity.
Qed.

Lemma run_snd {A} (m : M A) (w w' : World) (a : A) :
  m w = (inr a, w') → m w = (inr a, snd (m w)).
Proof. by intros ->. Qed.

Lemma settle_failure_at_ceiling (goal_id : string) (i : nat) (exec_result : Payload)
    (plan : Plan) (needs_replan : bool) (seen : option (StepEvaluation * Payload))
    (step : Step) (evaluation : StepEvaluation) (w : World) :
  steps plan !! i = Some step →
  evaluate env (ticks w) (set_status EVALUATING step) exec_result goal_id
    (plan_id plan) = inr evaluation →
  result evaluation ≠ SUCCESS →
  max_retries step <= retry_count step + 1 →
  ∃ w',
    settle_result env goal_id (inr (i, exec_result)) (plan, needs_replan, seen) w
    = (inr (put i (set_error_message (Some (reasoning evaluation))
                     (set_status FAILED
                        (set_retry_count (retry_count step + 1)
                           (set_status EVALUATING step)))) plan,
            true, Some (evaluation, exec_result)), w').
Proof.
  intros Hi Hev Hres Hcap. unfold settle_result. rewrite Hi.
  assert (Hge : (retry_count step + 1 >=? max_retries step) = true)
    by (rewrite Z.geb_leb; by apply Z.leb_le).
  destruct (mark_failed_returns env
              (put i (set_retry_count (retry_count step + 1)
                        (set_status EVALUATING step))
                 (put i (set_status EVALUATING step) plan))
              i (set_retry_count (retry_count step + 1) (set_status EVALUATING step))
              evaluation goal_id (evaluated env step goal_id w)) as [w' Hmark].
  exists w'.
  run ltac:(rewrite evaluate_step_eq, Hev; reflexivity).
  destruct (result evaluation) eqn:Hr; [congruence | |].
  all: cbn [count_retry retry_count max_retries set_retry_count set_status];
    rewrite Hge; run ltac:(exact Hmark); by rewrite !put_put.
Qed.

Lemma settle_success (goal_id : string) (i : nat) (exec_result : Payload)
    (plan : Plan) (needs_replan : bool) (seen : option (StepEvaluation * Payload))
    (step : Step) (evaluation : StepEvaluation) (w : World) :
  steps plan !! i = Some step →
  evaluate env (ticks w) (set_status EVALUATING step) exec_result goal_id
    (plan_id plan) = inr evaluation →
  result evaluation = SUCCESS →
  ∃ done w',
    settle_result env goal_id (inr (i, exec_result)) (plan, needs_replan, seen) w
    = (inr (put i done plan, needs_replan, Some (evaluation, exec_result)), w')
    ∧ status done = COMPLETED ∧ step_id done = step_id step.
Proof.
  intros Hi Hev Hres. unfold settle_result. rewrite Hi.
  destruct (on_success_returns env (put i (set_status EVALUATING step) plan) i
              (set_status EVALUATING step) exec_result goal_id
              (evaluated env step goal_id w)) as [w' Hdone].
  eexists. exists w'. split.
  - run ltac:(rewrite evaluate_step_eq, Hev; reflexivity).
    rewrite Hres. run ltac:(exact Hdone). by rewrite put_put.
  - split; reflexivity.
Qed.

(** X18.  In a parallel pass the replanner is called with the evaluation and
    the result last assigned in the loop over the results, which need not
    belong to the failed step.  With two ready steps, the first rejected at
    its ceiling and the second accepted, [replan] is called for the first
    step, now [FAILED], with the evaluation and the execution result of the
    second, which is [COMPLETED]. *)
Theorem parallel_replan_takes_last_result (plan : Plan) (i j : nat) (si sj : Step)
    (out : string → Payload) (judge : string → Payload → StepEvaluation)
    (goal_id goal_raw_input : string) (w : World) :
  i ≠ j → steps plan !! i = Some si → steps plan !! j = Some sj →
  (∀ n s g p prev raw, execute_step env n s g p prev raw = inr (out (step_id s))) →
  (∀ n s r g p, evaluate env n s r g p = inr (judge (step_id s) r)) →
  result (judge (step_id si) (out (step_id si))) ≠ SUCCESS →
  max_retries si <= retry_count si + 1 →
  result (judge (step_id sj) (out (step_id sj))) = SUCCESS →
  ∃ plan2 failed w2,
    run_parallel env plan [i; j] goal_id goal_raw_input w
    = replan_and_swap env plan2 failed
        (judge (step_id sj) (out (step_id sj))) (out (step_id sj)) goal_id w2
    ∧ steps plan2 !! i = Some failed
    ∧ step_id failed = step_id si ∧ status failed = FAILED
    ∧ (status <$> steps plan2 !! j) = Some COMPLETED.
Proof.
  intros Hij Hi Hj Hexe Hev Hfail Hcap Hok.
  set (w0 := after [Log "info" "parallel_execution" goal_id] 0 w).
  set (si1 := set_started_at (Some (clock w0)) (set_status IN_PROGRESS si)).
  set (sj1 := set_started_at (Some (clock (later w0))) (set_status IN_PROGRESS sj)).
  set (plan1 := put j sj1 (put i si1 plan)).
  assert (Hi1 : steps plan1 !! i = Some si1).
  { unfold plan1. rewrite lookup_put_ne by done. by apply (lookup_put_eq _ _ si). }
  assert (Hj1 : steps plan1 !! j = Some sj1).
  { unfold plan1. apply (lookup_put_eq _ _ sj). by rewrite lookup_put_ne. }
  set (w1 := executed env plan1 sj1 goal_id
               (executed env plan1 si1 goal_id (later (later w0)))).
  destruct (settle_failure_at_ceiling goal_id i (out (step_id si)) plan1 false None
              si1 (judge (step_id si) (out (step_id si))) w1 Hi1 (Hev _ _ _ _ _)
              Hfail Hcap) as [w2 Hfirst].
  match type of Hfirst with
  | _ = (inr (put i ?f _, _, _), _) => set (failed := f) in *
  end.
  assert (Hj2 : steps (put i failed plan1) !! j = Some sj1)
    by (by rewrite lookup_put_ne).
  destruct (settle_success goal_id j (out (step_id sj)) (put i failed plan1) true
              (Some (judge (step_id si) (out (step_id si)), out (step_id si)))
              sj1 (judge (step_id sj) (out (step_id sj))) w2 Hj2 (Hev _ _ _ _ _) Hok)
    as (done & w3 & Hsecond & Hdone & _).
  assert (Hi3 : steps (put j done (put i failed plan1)) !! i = Some failed).
  { rewrite lookup_put_ne by done. by apply (lookup_put_eq _ _ si1). }
  exists (put j done (put i failed plan1)), failed, w3. split.
  - unfold run_parallel.
    run ltac:(apply log_eq).
    run ltac:(unfold start_all; cbn [for_each];
              run ltac:(apply start_single_step_eq; exact Hi);
              run ltac:(apply start_single_step_eq;
                        rewrite lookup_put_ne by done; exact Hj);
              reflexivity).
    run ltac:(unfold gather; cbn [for_each];
              run ltac:(apply (resume_single_step_eq _ _ _ _ si1);
                        [exact Hi1 | apply Hexe]);
              run ltac:(apply (resume_single_step_eq _ _ _ _ sj1);
                        [exact Hj1 | apply Hexe]);
              reflexivity).
    run ltac:(cbn [for_each app];
              run ltac:(exact Hfirst);
              run ltac:(exact Hsecond);
              reflexivity).
    unfold first_failed. rewrite omap_cons_unfold, Hi3.
    rewrite bool_decide_eq_true_2 by reflexivity. reflexivity.
  - split; [exact Hi3|]. split; [reflexivity|]. split; [reflexivity|].
    rewrite (lookup_put_eq _ _ sj1) by (by rewrite lookup_put_ne).
    cbn. by rewrite Hdone.
Qed.

End ParallelReplan.

(* ================================================================= *)
(** ** Structured generation and summaries *)

Section StructuredProperties.
Import Structured.
Context (env : Env).

Lemma generate_outcome (prompt system goal_id role : string) (w : World) :
  ∃ δ r w',
    Gateway.generate env prompt system goal_id role w = (r, w')
    ∧ history w' = history w ++ δ
    ∧ agent_logs w' = agent_logs w
    ∧ (length (invokes_of δ) ≤ 9)%nat
    ∧ 0 <= total_sleep δ <= 57
    ∧ match r with
      | inr (text, l) => error l = None ∧ response_summary l = take_str 300 text
      | inl e =>
          ∃ detail, e = new_exn "RuntimeError"
                          ("All LLM providers failed. Last error: " +:+ detail)
      end.
Proof.
  destruct (generate_from_walk env (Gateway._fallback_chain env) None prompt system
              goal_id role w) as (δ & r & w' & Hrun & Hh & Hlen & Hsl & Hres).
  exists δ, r, w'. split; [exact Hrun|]. split; [exact Hh|].
  split; [exact (keeps_eq agent_logs _ w r w'
                   (generate_keeps_agent_logs env prompt system goal_id role) Hrun)|].
  pose proof (length_filter (λ p, p = GEMINI) (Gateway._fallback_chain env)) as Hf.
  change (length (Gateway._fallback_chain env)) with 3%nat in *.
  split; [lia|]. split; [lia|].
  destruct r as [e | [text l]].
  - destruct (generate_from_failure_detail env
                [llm_primary_provider (settings env);
                 llm_fallback_provider (settings env)]
                (llm_tertiary_provider (settings env)) None prompt system goal_id
                role w w' e Hrun) as (_ & _ & e_last & _ & ->).
    eauto.
  - destruct Hres as (front & p & back & k & _ & _ & _ & _ & _ & Herr & _ & Hsum).
    auto.
Qed.

Context {J : Type} (parse : string → Exn + J) (format_instructions : string).

Lemma structured_attempts_walk (attempts : list Z) (retries : Z)
    (prompt full_prompt system goal_id role : string) (w : World) :
  ∃ δ r w',
    structured_attempts env parse format_instructions attempts retries prompt
      full_prompt system goal_id role w = (r, w')
    ∧ history w' = history w ++ δ
    ∧ agent_logs w' = agent_logs w
    ∧ (length (invokes_of δ) ≤ 9 * length attempts)%nat
    ∧ 0 <= total_sleep δ <= 57 * Z.of_nat (length attempts)
    ∧ match r with
      | inr (parsed, l) =>
          error l = None
          ∧ ∃ text, parse text = inr parsed ∧ response_summary l = take_str 300 text
      | inl e =>
          e = new_exn "RuntimeError" "Unreachable"
          ∨ (∃ detail, e = new_exn "RuntimeError"
                             ("All LLM providers failed. Last error: " +:+ detail))
          ∨ (∃ text, parse text = inl e)
      end.
Proof.
  revert full_prompt w. induction attempts as [|attempt rest IH]; intros full_prompt w.
  - exists [], (inl (new_exn "RuntimeError" "Unreachable")), w.
    split; [reflexivity|]. rewrite app_nil_r. cbn. repeat split; (lia || auto).
  - cbn [structured_attempts].
    destruct (generate_outcome full_prompt system goal_id role w)
      as (δ1 & r1 & w1 & Hrun & Hh1 & Hl1 & Hlen1 & Hsl1 & Hres1).
    destruct r1 as [e | [text l]].
    + exists δ1, (inl e), w1. split; [by erewrite run_bind_raise|].
      split; [exact Hh1|]. split; [exact Hl1|]. cbn [length].
      split; [lia|]. split; [lia|]. right. left. exact Hres1.
    + erewrite run_bind; [|exact Hrun]. cbv beta iota.
      destruct (parse text) as [parse_err | parsed] eqn:Hparse.
      * destruct (attempt <? retries).
        -- erewrite run_bind; [|apply log_eq].
           match goal with
           | |- context [structured_attempts _ _ _ rest _ _ ?fp _ _ _ ?w0] =>
               destruct (IH fp w0) as (δ2 & r & w' & Hrest & Hh2 & Hl2 & Hlen2 & Hsl2 & Hres)
           end.
           eexists (δ1 ++ [_] ++ δ2), r, w'. split; [exact Hrest|].
           split; [rewrite Hh2; cbn [after history]; by rewrite Hh1, <- !app_assoc|].
           split; [by rewrite Hl2|].
           rewrite !invokes_of_app, !total_sleep_app.
           change (invokes_of [Log _ _ _]) with (@nil (LLMProvider * Z)).
           change (total_sleep [Log _ _ _]) with 0. cbn [app length].
           split; [rewrite length_app; lia|]. split; [lia|]. exact Hres.
        -- exists δ1, (inl parse_err), w1. split; [reflexivity|].
           split; [exact Hh1|]. split; [exact Hl1|]. cbn [length].
           split; [lia|]. split; [lia|]. right. right. eauto.
      * exists δ1, (inr (parsed, l)), w1. split; [reflexivity|].
        split; [exact Hh1|]. split; [exact Hl1|]. cbn [length].
        split; [lia|]. split; [lia|].
        destruct Hres1 as [Herr Hsum]. split; [exact Herr|]. eauto.
Qed.

(** X19.  The cost and the outcomes of [generate_structured].  It calls
    [generate] at most [retries + 1] times, hence makes at most
    [9 * (retries + 1)] model calls, and writes no [AgentLog].  With a
    negative [retries] it makes no call at all and raises
    [RuntimeError("Unreachable")].  What it returns was parsed from a text
    the model returned.  What it raises is that error, or the error of
    [generate] when every provider failed (a failing provider is not tried
    again), or the parse error of a text the model returned. *)
Theorem generate_structured_budget (prompt system goal_id role : string)
    (retries : Z) (w : World) :
  ∃ δ r w',
    generate_structured env parse format_instructions prompt system goal_id role
      retries w = (r, w')
    ∧ history w' = history w ++ δ
    ∧ agent_logs w' = agent_logs w
    ∧ (length (invokes_of δ) ≤ 9 * Z.to_nat (retries + 1))%nat
    ∧ (retries < 0 → r = inl (new_exn "RuntimeError" "Unreachable") ∧ w' = w)
    ∧ match r with
      | inr (parsed, l) =>
          error l = None
          ∧ ∃ text, parse text = inr parsed ∧ response_summary l = take_str 300 text
      | inl e =>
          e = new_exn "RuntimeError" "Unreachable"
          ∨ (∃ detail, e = new_exn "RuntimeError"
                             ("All LLM providers failed. Last error: " +:+ detail))
          ∨ (∃ text, parse text = inl e)
      end.
Proof.
  unfold generate_structured.
  destruct (structured_attempts_walk (Gateway.range (retries + 1)) retries prompt
              (first_prompt format_instructions prompt) system goal_id role w)
    as (δ & r & w' & Hrun & Hh & Hl & Hlen & _ & Hres).
  exists δ, r, w'. split; [exact Hrun|]. split; [exact Hh|]. split; [exact Hl|].
  unfold Gateway.range in *. rewrite length_fmap, length_seq in Hlen.
  split; [exact Hlen|]. split; [|exact Hres].
  intros Hneg. replace (Z.to_nat (retries + 1)) with 0%nat in Hrun by lia.
  cbn in Hrun. by injection Hrun as <- <-.
Qed.


Lemma length_append (s1 s2 : string) :
  String.length (s1 +:+ s2) = (String.length s1 + String.length s2)%nat.
Proof.
  induction s1 as [|c s1 IH]; [done|].
  change (S (String.length (s1 +:+ s2)) = S (String.length s1 + String.length s2)).
  by rewrite IH.
Qed.



End StructuredProperties.

(* ================================================================= *)
(** ** Properties of the working memory *)

Section MemoryProperties.
Import Structured Memory.
Context {D : Type} (str : D → string).

Lemma find_rev_snoc (key : string) (data : D) (l : list (string * D)) :
  List.find (λ item, String.eqb (fst item) key) (rev (l ++ [(key, data)]))
  = Some (key, data).
Proof. rewrite rev_app_distr. cbn. by rewrite String.eqb_refl. Qed.

Lemma tail_snoc {A} (l : list A) (x : A) : l ≠ [] → tail (l ++ [x]) = tail l ++ [x].
Proof. by destruct l. Qed.

(** X21.  The working memory keeps its capacity and forgets the oldest
    item first.  On a memory that holds at most [max_items] items, [add]
    appends the item when there is room and otherwise drops the oldest item
    to make room; the memory still holds at most [max_items] items.  With a
    capacity of at least one, [get] on the key just added returns the datum
    just added, whatever was stored under the key before.  With a capacity
    of zero the item is dropped at once and [get] finds nothing. *)
Theorem memory_add_then_get (key : string) (data : D) (m : ShortTermMemory D) :
  Z.of_nat (length (_items m)) <= _max_items m →
  let m' := add key data m in
  Z.of_nat (length (_items m')) <= _max_items m'
  ∧ _max_items m' = _max_items m
  ∧ _items m'
    = (if Z.of_nat (length (_items m)) <? _max_items m
       then _items m ++ [(key, data)]
       else tail (_items m ++ [(key, data)]))
  ∧ (1 <= _max_items m → get key m' = Some data)
  ∧ (_max_items m = 0 → _items m' = [] ∧ get key m' = None).
Proof.
  intros Hcap. cbv zeta. unfold add, get. cbn [_items _max_items].
  rewrite length_app. cbn [length].
  destruct (Z.of_nat (length (_items m)) <? _max_items m) eqn:Hroom.
  - apply Z.ltb_lt in Hroom.
    assert ((Z.of_nat (length (_items m) + 1) >? _max_items m) = false) as ->
      by (rewrite Z.gtb_ltb; apply Z.ltb_ge; lia).
    rewrite length_app. cbn [length].
    split; [lia|]. split; [done|]. split; [done|].
    split; [intros _; by rewrite find_rev_snoc | lia].
  - apply Z.ltb_ge in Hroom.
    assert ((Z.of_nat (length (_items m) + 1) >? _max_items m) = true) as ->
      by (rewrite Z.gtb_ltb; apply Z.ltb_lt; lia).
    destruct (_items m) as [|old items] eqn:Hitems.
    + cbn in *. split; [lia|]. split; [done|]. split; [done|].
      split; [lia | done].
    + cbn [app tail]. rewrite length_app. cbn [length] in *.
      split; [lia|]. split; [done|]. split; [done|].
      split; [intros _; by rewrite find_rev_snoc | lia].
Qed.

Lemma len_append (s1 s2 : string) : len (s1 +:+ s2) = len s1 + len s2.
Proof. unfold len. rewrite length_append. lia. Qed.

Lemma len_join_snoc (sep : string) (l : list string) (x : string) :
  len (join sep (l ++ [x]))
  = len (join sep l) + (if l is [] then 0 else len sep) + len x.
Proof.
  induction l as [|y l IH].
  { change (len x = 0 + 0 + len x). lia. }
  destruct l as [|z l].
  - change (len (y +:+ sep +:+ x) = len y + len sep + len x).
    rewrite !len_append. lia.
  - change (join sep ((y :: z :: l) ++ [x]))
      with (y +:+ sep +:+ join sep ((z :: l) ++ [x])).
    change (join sep (y :: z :: l)) with (y +:+ sep +:+ join sep (z :: l)).
    rewrite !len_append, IH. lia.
Qed.

Lemma fmap_rev {A B} (f : A → B) (l : list A) : f <$> rev l = rev (f <$> l).
Proof.
  induction l as [|x l IH]; [done|]. cbn [rev]. rewrite fmap_app, IH. reflexivity.
Qed.

Lemma len_nonneg (s : string) : 0 <= len s.
Proof. unfold len. lia. Qed.

Lemma context_parts_total (max_chars total : Z) (items : list (string * D)) :
  0 <= total →
  let parts := context_parts str max_chars total items in
  parts = entry_of str <$> take (length parts) items
  ∧ (parts ≠ [] → total + foldr Z.add 0 (len <$> parts) <= max_chars)
  ∧ (∀ item, items !! length parts = Some item →
       max_chars < total + foldr Z.add 0 (len <$> parts) + len (entry_of str item)).
Proof.
  cbv zeta. revert total. induction items as [|item rest IH]; intros total Ht.
  - done.
  - cbn [context_parts].
    destruct (total + len (entry_of str item) >? max_chars) eqn:Hfit.
    { rewrite Z.gtb_ltb in Hfit. apply Z.ltb_lt in Hfit.
      split; [done|]. split; [done|]. intros it [= <-]. cbn. lia. }
    rewrite Z.gtb_ltb in Hfit. apply Z.ltb_ge in Hfit.
    pose proof (len_nonneg (entry_of str item)).
    destruct (IH (total + len (entry_of str item)) ltac:(lia)) as (Heq & Hsum & Hnext).
    cbn [length take fmap list_fmap foldr]. split; [by rewrite <- Heq|].
    split.
    + intros _.
      destruct (context_parts str max_chars (total + len (entry_of str item)) rest);
        [cbn; lia|].
      specialize (Hsum ltac:(done)). lia.
    + intros it Hit. cbn [lookup list_lookup] in Hit. specialize (Hnext it Hit). lia.
Qed.

Lemma len_join_rev (sep : string) (parts : list string) :
  len (join sep (rev parts))
  = foldr Z.add 0 (len <$> parts)
    + len sep * Z.of_nat (length parts - 1).
Proof.
  induction parts as [|x parts IH].
  { change (0 = 0 + len sep * 0). lia. }
  cbn [rev]. rewrite len_join_snoc, IH. cbn [fmap list_fmap foldr length].
  destruct parts as [|y parts].
  { change (0 + len sep * 0 + 0 + len x = len x + 0 + len sep * 0). lia. }
  destruct (rev (y :: parts)) eqn:Hrev.
  - apply (f_equal length) in Hrev. rewrite length_rev in Hrev. discriminate.
  - cbn [length].
    replace (Z.of_nat (S (S (length parts)) - 1))
      with (Z.of_nat (S (length parts) - 1) + 1) by lia.
    rewrite Z.mul_add_distr_l. lia.
Qed.

(** X22.  [to_context_string] counts the entries but not the line feeds
    between them.  The string it returns is made of the entries of the
    latest [k] items, oldest first, where [k] is as large as the budget
    allows: the entries together have at most [max_chars] characters, and
    the entry of the next older item, if there is one, would not have fitted.
    The string has one character more for each entry after the first, so it
    is longer than [max_chars] by up to [k - 1] characters. *)
Theorem to_context_string_length (max_chars : Z) (m : ShortTermMemory D) :
  ∃ k : nat,
    let taken := entry_of str <$> drop (length (_items m) - k) (_items m) in
    to_context_string str max_chars m = join nl taken
    ∧ (k ≤ length (_items m))%nat
    ∧ len (to_context_string str max_chars m)
      = foldr Z.add 0 (len <$> taken) + Z.of_nat (k - 1)
    ∧ (k ≠ 0%nat → foldr Z.add 0 (len <$> taken) <= max_chars)
    ∧ (∀ item, rev (_items m) !! k = Some item →
         max_chars < foldr Z.add 0 (len <$> taken) + len (entry_of str item)).
Proof.
  unfold to_context_string.
  destruct (context_parts_total max_chars 0 (rev (_items m)) ltac:(lia))
    as (Heq & Hsum & Hnext).
  set (parts := context_parts str max_chars 0 (rev (_items m))) in *.
  exists (length parts). cbv zeta.
  assert (Hk : (length parts ≤ length (_items m))%nat).
  { rewrite Heq, length_fmap, length_take, length_rev. lia. }
  assert (Hrev : rev parts
                 = entry_of str <$> drop (length (_items m) - length parts) (_items m)).
  { rewrite Heq at 1. by rewrite firstn_rev, fmap_rev, rev_involutive. }
  split; [by rewrite Hrev|]. split; [exact Hk|].
  assert (Hfold : foldr Z.add 0 (len <$> rev parts) = foldr Z.add 0 (len <$> parts)).
  { clear. induction parts as [|x parts IH]; [done|].
    cbn [rev]. rewrite fmap_app, foldr_add_app, IH. cbn. lia. }
  split; [|split].
  - rewrite len_join_rev. rewrite <- Hrev, Hfold.
    change (len nl) with 1. lia.
  - intros Hne. rewrite <- Hrev, Hfold.
    specialize (Hsum ltac:(by destruct parts)). lia.
  - intros item Hitem. rewrite <- Hrev, Hfold. specialize (Hnext item Hitem). lia.
Qed.

End MemoryProperties.

(* ================================================================= *)
(** ** The provider cache *)

Section ProviderCache.
Import Gateway.
Context (env : Env).

(** X23.  The provider cache.  When [_get_or_create] returns, the provider
    is in the cache, every provider cached before still is, and a later
    call for it returns without building anything, whatever the factory
    would answer by then.  When it raises (the factory raised), the cache
    is as it was: a provider that could not be built is built again at the
    next call.  Neither outcome leaves a trace in the history. *)
Theorem provider_cache_round_trip (p : LLMProvider) (w : World) :
  ∃ r w1,
    _get_or_create env p w = (r, w1)
    ∧ history w1 = history w
    ∧ match r with
      | inr _ =>
          p ∈ providers w1
          ∧ (∀ q, q ∈ providers w → q ∈ providers w1)
          ∧ ∀ other : Env, _get_or_create other p w1 = (inr tt, w1)
      | inl e => w1 = w ∧ (p ∉ providers w) ∧ _create_provider env p = Some e
      end.
Proof.
  unfold _get_or_create, mbind, M_bind, bind, get_providers.
  destruct (bool_decide (p ∈ providers w)) eqn:Hin.
  - apply bool_decide_eq_true_1 in Hin. exists (inr tt), w.
    split; [reflexivity|]. split; [reflexivity|].
    split; [exact Hin|]. split; [auto|].
    intros other. by rewrite bool_decide_eq_true_2.
  - apply bool_decide_eq_false_1 in Hin.
    destruct (_create_provider env p) as [e|].
    + exists (inl e), w. repeat split; auto.
    + eexists (inr tt), _. split; [reflexivity|]. split; [reflexivity|].
      cbn [providers]. split; [left|]. split; [intros q Hq; by right|].
      intros other. cbn [providers].
      by rewrite bool_decide_eq_true_2 by left.
Qed.

End ProviderCache.

(* ================================================================= *)
(** ** Further scripted runs *)

Section FurtherScenarios.
Import Engine.

Lemma complete_plan_is_idle_witness :
  get_ready_steps finished_plan = [] ∧ has_failed_steps finished_plan = false.
Proof. apply complete_plan_is_idle. reflexivity. Defined.

Lemma dag_has_ready_step_witness :
  is_complete study_plan = false ∧ get_ready_steps study_plan ≠ [].
Proof.
  split; [reflexivity|].
  apply (dag_has_ready_step study_plan study_rank).
  - intros s Hs. left.
    repeat (apply elem_of_cons in Hs as [-> | Hs]); try reflexivity.
    by apply elem_of_nil in Hs.
  - intros s d Hs Hd.
    repeat (apply elem_of_cons in Hs as [-> | Hs]).
    + by apply elem_of_nil in Hd.
    + by apply elem_of_nil in Hd.
    + repeat (apply elem_of_cons in Hd as [-> | Hd]).
      * exists (planned_step "a" []). split; [left|]. split; [reflexivity|]. cbn. lia.
      * exists (planned_step "b" []). split; [right; left|]. split; [reflexivity|].
        cbn. lia.
      * by apply elem_of_nil in Hd.
    + by apply elem_of_nil in Hs.
  - reflexivity.
Defined.

Lemma process_goal_always_settles_witness :
  ∃ g w' ev,
    process_goal accepting_env study_goal (world_with study_goal [7%nat]) = (inr g, w')
    ∧ select_goal "goal-1" (goals w') = Some g
    ∧ last (broadcasts_of (history w')) = Some ev
    ∧ ((goal_status g = GOAL_COMPLETED ∧ ev = "goal_completed")
       ∨ (goal_status g = GOAL_FAILED ∧ (ev = "goal_failed" ∨ ev = "error"))).
Proof.
  apply (process_goal_always_settles accepting_env study_goal study_goal
           (world_with study_goal [7%nat])).
  reflexivity.
Defined.

Lemma process_goal_without_row_witness :
  ∃ w' δ,
    process_goal accepting_env study_goal initial_world = (inl no_goal, w')
    ∧ history w' = history initial_world ++ δ
    ∧ broadcasts_of δ = []
    ∧ filter (λ e, is_agent_call e = true) δ = []
    ∧ goals w' = goals initial_world.
Proof.
  apply (process_goal_without_row accepting_env study_goal initial_world).
  reflexivity.
Defined.

Lemma execute_plan_without_ready_steps_witness :
  get_ready_steps stuck_plan = []
  ∧ _execute_plan rejecting_env stuck_plan "goal-1" "prepare for GATE in 4 weeks"
      initial_world
    = (inr stuck_plan,
       after [Log "warning" "no_ready_steps_with_failures" "goal-1"] 0 initial_world).
Proof.
  split; [reflexivity|].
  destruct (execute_plan_without_ready_steps rejecting_env stuck_plan "goal-1"
              "prepare for GATE in 4 weeks" initial_world eq_refl) as (δ & Hrun & ->).
  exact Hrun.
Defined.

Lemma execute_plan_version_bound_witness :
  let run := _execute_plan rejecting_env one_step_plan "goal-1"
               "prepare for GATE in 4 weeks" (world_with study_goal []) in
  version one_step_plan <= version (returned one_step_plan run)
  <= version one_step_plan + 5.
Proof.
  intros run.
  assert (Hrun : run = (inr (returned one_step_plan run), snd run))
    by (vm_compute; reflexivity).
  exact (execute_plan_version_bound rejecting_env one_step_plan _ _ _ _ _ Hrun).
Defined.

Lemma chain_is_cut_after_five_steps_witness :
  ∃ plan' w',
    _execute_plan accepting_env six_step_chain "goal-1" "prepare for GATE in 4 weeks"
      (world_with study_goal []) = (inr plan', w')
    ∧ (status <$> steps plan') = [COMPLETED; COMPLETED; COMPLETED; COMPLETED;
                                  COMPLETED; PENDING]
    ∧ is_complete plan' = false.
Proof.
  destruct (chain_is_cut_after_five_steps accepting_env six_step_chain "goal-1"
              "prepare for GATE in 4 weeks" (world_with study_goal []))
    as (plan' & w' & Hrun & Hlen & Hst & Hc).
  - cbn. repeat (apply NoDup_cons; split;
                  [rewrite ?not_elem_of_cons; repeat split;
                   (discriminate || apply not_elem_of_nil)|]).
    apply NoDup_nil_2.
  - reflexivity.
  - intros. eexists. reflexivity.
  - intros. eexists. split; reflexivity.
  - exists plan', w'. split; [exact Hrun|]. split.
    + destruct plan' as [pid gid v act l c]. cbn [steps] in *.
      do 6 (destruct l as [|? l]; [discriminate Hlen|]).
      destruct l; [|discriminate Hlen].
      cbn. repeat f_equal;
        match goal with |- status ?s = _ => idtac end.
      * exact (Hst 0%nat _ eq_refl).
      * exact (Hst 1%nat _ eq_refl).
      * exact (Hst 2%nat _ eq_refl).
      * exact (Hst 3%nat _ eq_refl).
      * exact (Hst 4%nat _ eq_refl).
      * exact (Hst 5%nat _ eq_refl).
    + destruct (is_complete plan'); [|done].
      destruct Hc as [Hc _]. specialize (Hc eq_refl). cbn in Hc. lia.
Defined.

Lemma apply_modifications_strategy_effect_witness :
  let run := Replanner._apply_modifications rejecting_env stuck_plan failed_b
               skip_reply initial_world in
  ∃ s', steps (returned stuck_plan run) !! 1%nat = Some s'
        ∧ status s' = SKIPPED ∧ retry_count s' = 3.
Proof.
  intros run.
  assert (Hrun : run = (inr (returned stuck_plan run), snd run))
    by (vm_compute; reflexivity).
  destruct (apply_modifications_strategy_effect rejecting_env stuck_plan failed_b
              skip_reply _ _ _ 1%nat failed_b Hrun eq_refl eq_refl)
    as (s' & Hi & _ & _ & Hcase).
  exists s'. split; [exact Hi|]. exact Hcase.
Defined.

Lemma apply_modifications_frame_witness :
  let run := Replanner._apply_modifications rejecting_env stuck_plan failed_b
               skip_reply initial_world in
  version (returned stuck_plan run) = 2
  ∧ steps (returned stuck_plan run) !! 0%nat = Some done_a.
Proof.
  intros run.
  assert (Hrun : run = (inr (returned stuck_plan run), snd run))
    by (vm_compute; reflexivity).
  destruct (apply_modifications_frame rejecting_env stuck_plan failed_b
              skip_reply _ _ _ Hrun) as (_ & Hv & Hkeep).
  split; [exact Hv|].
  apply Hkeep; [reflexivity | discriminate | reflexivity].
Defined.

Lemma undecodable_reply_is_a_retry_witness :
  ∃ new w',
    Replanner._apply_modifications rejecting_env stuck_plan failed_b
      (Replanner._parse_replan_response rejecting_env "Sorry, I cannot help.")
      initial_world = (inr new, w')
    ∧ version new = 2
    ∧ (retry_count <$> steps new) = [0; 0].
Proof.
  destruct (undecodable_reply_is_a_retry rejecting_env stuck_plan failed_b
              "Sorry, I cannot help." initial_world eq_refl)
    as (new & w' & Hrun & Hv & Hsteps).
  exists new, w'. split; [exact Hrun|]. split; [exact Hv|].
  rewrite Hsteps. reflexivity.
Defined.

Lemma generate_stops_at_first_success_witness :
  ∃ text l w' δ,
    Gateway.generate fallback_env "Summarise the plan." "You are concise."
      "goal-1" "summariser" initial_world = (inr (text, l), w')
    ∧ history w' = history initial_world ++ δ
    ∧ last (invokes_of δ) = Some (GEMINI, 0)
    ∧ provider l = "gemini".
Proof.
  destruct (Gateway.generate fallback_env "Summarise the plan." "You are concise."
              "goal-1" "summariser" initial_world) as [[e | [text l]] w'] eqn:Hrun.
  { vm_compute in Hrun. discriminate Hrun. }
  destruct (generate_stops_at_first_success fallback_env _ _ _ _ _ _ _ _ Hrun)
    as (front & p & back & δ & k & Hc & Hh & Hlast & Hown & Hp & _).
  exists text, l, w', δ. split; [reflexivity|]. split; [exact Hh|].
  assert (Hδ : invokes_of δ = [(OLLAMA, 0); (GEMINI, 0)]).
  { apply (f_equal (λ r, invokes_of (history (snd r)))) in Hrun.
    cbn [snd] in Hrun. rewrite Hh in Hrun. vm_compute in Hrun.
    symmetry. exact Hrun. }
  rewrite Hδ in Hlast. cbn in Hlast. injection Hlast as <- <-.
  split; [rewrite Hδ; reflexivity | exact Hp].
Defined.

End FurtherScenarios.

(* ================================================================= *)
(** ** Scripted faults *)

Section MoreScenarios.
Import Engine.

Lemma executor_exception_by_branch_witness :
  ∃ plan' w',
    _execute_plan broken_executor_env study_plan "goal-1"
      "prepare for GATE in 4 weeks" (world_with study_goal []) = (inr plan', w')
    ∧ (status <$> steps plan') = [IN_PROGRESS; IN_PROGRESS; PENDING].
Proof.
  destruct (executor_exception_by_branch broken_executor_env executor_down study_plan
              "goal-1" "prepare for GATE in 4 weeks" (world_with study_goal []))
    as [_ Hpar]; [reflexivity|].
  destruct Hpar as (plan' & w' & Hrun & _ & Hlen & Hst & _); [vm_compute; lia|].
  exists plan', w'. split; [exact Hrun|].
  destruct plan' as [pid gid v act l c]. cbn [steps] in *.
  destruct l as [|x0 [|x1 [|x2 [|x3 l]]]]; try discriminate Hlen.
  destruct (Hst 0%nat _ eq_refl) as (y0 & [= <-] & [t0 ->]).
  destruct (Hst 1%nat _ eq_refl) as (y1 & [= <-] & [t1 ->]).
  destruct (Hst 2%nat _ eq_refl) as (y2 & [= <-] & ->).
  reflexivity.
Defined.

Lemma parallel_replan_takes_last_result_witness :
  ∃ plan2 failed w2,
    run_parallel keyed_env last_attempt_plan [0%nat; 1%nat] "goal-1"
      "prepare for GATE in 4 weeks" (world_with study_goal [])
    = replan_and_swap keyed_env plan2 failed (verdict_of "b" (output_of "b"))
        (output_of "b") "goal-1" w2
    ∧ step_id failed = "a" ∧ status failed = FAILED
    ∧ result (verdict_of "b" (output_of "b")) = SUCCESS.
Proof.
  destruct (parallel_replan_takes_last_result keyed_env last_attempt_plan 0 1
              last_attempt_a (planned_step "b" []) output_of verdict_of "goal-1"
              "prepare for GATE in 4 weeks" (world_with study_goal []))
    as (plan2 & failed & w2 & Hrun & _ & Hid & Hst & _).
  - discriminate.
  - reflexivity.
  - reflexivity.
  - reflexivity.
  - reflexivity.
  - discriminate.
  - cbn. lia.
  - reflexivity.
  - exists plan2, failed, w2. auto.
Defined.

Lemma memory_add_then_get_witness :
  let m' := Memory.add "tips" "spaced repetition" full_memory in
  Memory._items m' = [("schedule", "4 weeks"); ("tips", "spaced repetition")]
  ∧ Memory.get "tips" m' = Some "spaced repetition".
Proof.
  intros m'.
  destruct (memory_add_then_get "tips" "spaced repetition" full_memory)
    as (_ & _ & Hitems & Hget & _); [cbn; lia|].
  split; [exact Hitems | apply Hget; cbn; lia].
Defined.

End MoreScenarios.
